(** * firecrawl-cli: the bulk scrape orchestrator and the browser session manager

    A shallow embedding of the parts of [src/commands/scrape.ts],
    [src/commands/browser.ts] and [src/utils/browser-session.ts] that decide
    the behaviour of [handleAllScrapeCommand], [handleBrowserExecute],
    [executeBashLocally], [isSessionExpiredError] and the session store.

    Conventions.
    - A JavaScript string is a [list ascii] (type [jsstring]); literals are
      written [str "..."].  Case mapping is the ASCII one.
    - An optional field [x?: T] is an [option T]; JavaScript truthiness is
      spelled out where the source relies on it.
    - [process.exit(n)] ends the command: commands return their effects
      (exit code, status stream, remote calls issued) as a value.
    - What a command reads from outside (API responses, the terminal, the
      child process, the clock) is an argument of its model.  A remote call
      either resolves or rejects; writes to the session file succeed.
    - The files [processUrl] writes per URL are left out; its effect on the
      counters, the status stream and the schedule is modelled. *)

From Stdlib Require Import Ascii String DecimalString Sorted.
From stdpp Require Import base option list gmap strings.

Set Default Proof Using "Type".

(** ** JavaScript strings *)

Abbreviation jsstring := (list ascii).

Definition str (s : string) : jsstring := list_ascii_of_string s.

Module JsString.

(** [s.startsWith(p)] *)
Fixpoint startsWith (s p : jsstring) : bool :=
  match p, s with
  | [], _ => true
  | _ :: _, [] => false
  | c :: p', d :: s' => if decide (c = d) then startsWith s' p' else false
  end.

(** [s.includes(p)] *)
Fixpoint includes (s p : jsstring) : bool :=
  startsWith s p ||
  match s with
  | [] => false
  | _ :: s' => includes s' p
  end.

(** [s.split(sep)] for a one-character separator: the pieces between the
    occurrences of [sep]; [n] occurrences give [n + 1] pieces, some of them
    possibly empty. *)
Fixpoint split (sep : ascii) (s : jsstring) : list jsstring :=
  match s with
  | [] => [[]]
  | c :: s' =>
      if decide (c = sep) then [] :: split sep s'
      else match split sep s' with
           | w :: ws => (c :: w) :: ws
           | [] => [[c]]
           end
  end.

(** [parts.join(sep)] *)
Fixpoint join (sep : jsstring) (parts : list jsstring) : jsstring :=
  match parts with
  | [] => []
  | [w] => w
  | w :: ws => w ++ sep ++ join sep ws
  end.

(** [parts.splice(i, 0, x1, ..., xn)]: insertion at index [i]; an index
    beyond the end is clamped to the length. *)
Definition splice {A} (parts : list A) (i : nat) (new : list A) : list A :=
  take i parts ++ new ++ drop i parts.

(** ASCII [toLowerCase] / [toUpperCase] on one character. *)
Definition is_upper (c : ascii) : bool :=
  (65 <=? nat_of_ascii c)%nat && (nat_of_ascii c <=? 90)%nat.
Definition is_lower (c : ascii) : bool :=
  (97 <=? nat_of_ascii c)%nat && (nat_of_ascii c <=? 122)%nat.
Definition lower_char (c : ascii) : ascii :=
  if is_upper c then ascii_of_nat (nat_of_ascii c + 32) else c.
Definition upper_char (c : ascii) : ascii :=
  if is_lower c then ascii_of_nat (nat_of_ascii c - 32) else c.

(** [s.toLowerCase()] *)
Definition toLowerCase (s : jsstring) : jsstring := map lower_char s.

(** White space as [String.prototype.trim] and [\s] see it, within ASCII:
    tab, line feed, vertical tab, form feed, carriage return, space. *)
Definition is_space (c : ascii) : bool :=
  let n := nat_of_ascii c in
  (n =? 9)%nat || (n =? 10)%nat || (n =? 11)%nat || (n =? 12)%nat ||
  (n =? 13)%nat || (n =? 32)%nat.

(** The longest prefix of [s] whose characters satisfy [f], and the rest. *)
Fixpoint span (f : ascii → bool) (s : jsstring) : jsstring * jsstring :=
  match s with
  | c :: s' =>
      if f c then let '(a, b) := span f s' in (c :: a, b) else ([], s)
  | [] => ([], [])
  end.

(** [s.trimStart()] *)
Fixpoint trimStart (s : jsstring) : jsstring :=
  match s with
  | c :: s' => if is_space c then trimStart s' else s
  | [] => []
  end.

(** [s.trim()] *)
Definition trim (s : jsstring) : jsstring :=
  rev (trimStart (rev (trimStart s))).

End JsString.

(** ** Regular expressions

    The fragment of ECMAScript regular expressions that the sources use:
    literal characters, [.], concatenation, alternation and [*], with the
    [i] flag.  [RegExp.prototype.test] is implemented with derivatives;
    [Matches] is the meaning of a pattern. *)

Module RegExp.

Inductive regex : Type :=
| Empty                       (* matches nothing *)
| Eps                         (* matches the empty string *)
| Chr (c : ascii)             (* a literal character *)
| Dot                         (* [.] *)
| Cat (r1 r2 : regex)
| Alt (r1 r2 : regex)
| Star (r : regex).

(** A literal word of the pattern. *)
Fixpoint Lit (w : jsstring) : regex :=
  match w with
  | [] => Eps
  | c :: w' => Cat (Chr c) (Lit w')
  end.

(** [.] matches any character except a line terminator (LF, CR within
    ASCII). *)
Definition is_line_terminator (c : ascii) : bool :=
  (nat_of_ascii c =? 10)%nat || (nat_of_ascii c =? 13)%nat.

(** Character comparison; under the [i] flag both sides are
    canonicalised with [toUpperCase]. *)
Definition char_eq (ignoreCase : bool) (c d : ascii) : bool :=
  if ignoreCase
  then bool_decide (JsString.upper_char c = JsString.upper_char d)
  else bool_decide (c = d).

Inductive Matches (ic : bool) : regex → jsstring → Prop :=
| MEps : Matches ic Eps []
| MChr c d : char_eq ic c d = true → Matches ic (Chr c) [d]
| MDot d : is_line_terminator d = false → Matches ic Dot [d]
| MCat r1 r2 w1 w2 :
    Matches ic r1 w1 → Matches ic r2 w2 → Matches ic (Cat r1 r2) (w1 ++ w2)
| MAltL r1 r2 w : Matches ic r1 w → Matches ic (Alt r1 r2) w
| MAltR r1 r2 w : Matches ic r2 w → Matches ic (Alt r1 r2) w
| MStarNil r : Matches ic (Star r) []
| MStarCons r w1 w2 :
    Matches ic r w1 → Matches ic (Star r) w2 → Matches ic (Star r) (w1 ++ w2).

Fixpoint nullable (r : regex) : bool :=
  match r with
  | Empty | Chr _ | Dot => false
  | Eps | Star _ => true
  | Cat r1 r2 => nullable r1 && nullable r2
  | Alt r1 r2 => nullable r1 || nullable r2
  end.

Fixpoint deriv (ic : bool) (a : ascii) (r : regex) : regex :=
  match r with
  | Empty | Eps => Empty
  | Chr c => if char_eq ic c a then Eps else Empty
  | Dot => if is_line_terminator a then Empty else Eps
  | Cat r1 r2 =>
      if nullable r1
      then Alt (Cat (deriv ic a r1) r2) (deriv ic a r2)
      else Cat (deriv ic a r1) r2
  | Alt r1 r2 => Alt (deriv ic a r1) (deriv ic a r2)
  | Star r1 => Cat (deriv ic a r1) (Star r1)
  end.

(** Does some prefix of [s] match [r]? *)
Fixpoint matchesAtStart (ic : bool) (r : regex) (s : jsstring) : bool :=
  nullable r ||
  match s with
  | [] => false
  | a :: s' => matchesAtStart ic (deriv ic a r) s'
  end.

(** [/r/.test(s)] (or [/r/i.test(s)]): does [r] match somewhere in [s]? *)
Fixpoint test (ic : bool) (r : regex) (s : jsstring) : bool :=
  matchesAtStart ic r s ||
  match s with
  | [] => false
  | _ :: s' => test ic r s'
  end.

End RegExp.

(** ** The runtime the commands run on

    [os.homedir()], [os.platform()], [JSON.stringify]/[JSON.parse] on a
    stored session and [new URL(u).pathname] belong to the platform, not to
    this repository; they are the fields of an interface. *)

Record StoredBrowserSession : Type := {
  id : jsstring;
  cdpUrl : jsstring;
  createdAt : jsstring;
}.

Class Runtime : Type := {
  homedir : jsstring;
  platform : jsstring;
  (** [JSON.stringify(session, null, 2)] *)
  JSON_stringify : StoredBrowserSession → jsstring;
  (** [JSON.parse(data) as StoredBrowserSession]; [None] when it throws *)
  JSON_parse : jsstring → option StoredBrowserSession;
  (** [new URL(u).pathname]; [None] when the constructor throws *)
  URL_pathname : jsstring → option jsstring;
  (** [n.toLocaleString()] *)
  toLocaleString : Z → jsstring;
}.

(** JavaScript truthiness of an optional string: [undefined] and [''] are
    falsy. *)
Definition truthy (o : option jsstring) : bool :=
  match o with
  | Some (_ :: _) => true
  | _ => false
  end.

(** [a || b] on optional strings. *)
Definition or_else (a b : option jsstring) : option jsstring :=
  if truthy a then a else b.

(** ** [src/utils/browser-session.ts] *)

Module BrowserSession.

(** The part of the file system the session store touches. *)
Record FileSystem : Type := {
  dirs : gset jsstring;
  files : gmap jsstring jsstring;
}.

Definition existsSync (fs : FileSystem) (p : jsstring) : bool :=
  bool_decide (p ∈ dirs fs) || bool_decide (is_Some (files fs !! p)).

Definition mkdirSync (fs : FileSystem) (p : jsstring) : FileSystem :=
  {| dirs := {[p]} ∪ dirs fs; files := files fs |}.

Definition writeFileSync (fs : FileSystem) (p data : jsstring) : FileSystem :=
  {| dirs := dirs fs; files := <[p := data]> (files fs) |}.

Definition unlinkSync (fs : FileSystem) (p : jsstring) : FileSystem :=
  {| dirs := dirs fs; files := delete p (files fs) |}.

Definition readFileSync (fs : FileSystem) (p : jsstring) : option jsstring :=
  files fs !! p.

Section WithRuntime.
Context {rt : Runtime}.

(** [path.join] of clean segments. *)
Definition path_join (segments : list jsstring) : jsstring :=
  JsString.join
    (if decide (platform = str "win32") then str "\" else str "/")
    segments.

Definition getConfigDir : jsstring :=
  if decide (platform = str "darwin") then
    path_join [homedir; str "Library"; str "Application Support";
               str "firecrawl-cli"]
  else if decide (platform = str "win32") then
    path_join [homedir; str "AppData"; str "Roaming"; str "firecrawl-cli"]
  else
    path_join [homedir; str ".config"; str "firecrawl-cli"].

Definition getSessionPath : jsstring :=
  path_join [getConfigDir; str "browser-session.json"].

Definition ensureConfigDir (fs : FileSystem) : FileSystem :=
  if existsSync fs getConfigDir then fs else mkdirSync fs getConfigDir.

Definition saveBrowserSession (session : StoredBrowserSession)
    (fs : FileSystem) : FileSystem :=
  let fs := ensureConfigDir fs in
  writeFileSync fs getSessionPath (JSON_stringify session).

Definition loadBrowserSession (fs : FileSystem)
    : option StoredBrowserSession :=
  if existsSync fs getSessionPath then
    match readFileSync fs getSessionPath with
    | Some data => JSON_parse data
    | None => None      (* reading a directory throws; caught *)
    end
  else None.

Definition clearBrowserSession (fs : FileSystem) : FileSystem :=
  if existsSync fs getSessionPath then unlinkSync fs getSessionPath
  else fs.

Definition no_session_message : jsstring :=
  str "No active browser session. Launch one with: firecrawl browser launch"
  ++ [ascii_of_nat 10] ++
  str "Or specify a session ID with: --session <id>".

(** [getSessionId(overrideId?)]: [inl message] when it throws. *)
Definition getSessionId (overrideId : option jsstring) (fs : FileSystem)
    : jsstring + jsstring :=
  match overrideId with
  | Some (c :: o) => inr (c :: o)
  | _ =>
      match loadBrowserSession fs with
      | Some stored => inr (id stored)
      | None => inl no_session_message
      end
  end.

End WithRuntime.

End BrowserSession.

(** ** [src/commands/browser.ts] *)

Module Browser.
Import BrowserSession.

(** A value caught by [catch (error)]. *)
Inductive Thrown : Type :=
| ErrorObject (message : jsstring) (status : option Z)
    (* [error instanceof Error]; [error.message], [error.status] *)
| OtherValue (asString : jsstring) (status : option Z).
    (* any other value; [String(error)], [error.status] *)

(** A settled promise. *)
Inductive Settled (A : Type) : Type :=
| Resolved (a : A)
| Rejected (e : Thrown).
Arguments Resolved {A} a.
Arguments Rejected {A} e.

(** [error instanceof Error ? error.message : 'Unknown error occurred'] *)
Definition messageOf (e : Thrown) : jsstring :=
  match e with
  | ErrorObject m _ => m
  | OtherValue _ _ => str "Unknown error occurred"
  end.

Definition statusOf (e : Thrown) : option Z :=
  match e with
  | ErrorObject _ s | OtherValue _ s => s
  end.

(** The text [isSessionExpiredError] inspects: [error.message] of an
    [Error], [String(error)] of anything else. *)
Definition textOf (e : Thrown) : jsstring :=
  match e with
  | ErrorObject m _ => m
  | OtherValue s _ => s
  end.

Inductive Language : Type := python | node | bash.

Record BrowserExecuteOptions : Type := {
  code : jsstring;
  language : option Language;
  session : option jsstring;
  output : option jsstring;
  json : bool;
}.

Record BrowserLaunchOptions : Type := {
  ttl : option Z;
  ttlInactivity : option Z;
  stream : option bool;
  launch_output : option jsstring;
  launch_json : bool;
}.

(** What [app.browser(args)] resolves to.  A successful response carries
    the id and the CDP URL (the source reads them as [data.id!] and
    [data.cdpUrl!]). *)
Inductive BrowserCreateResponse : Type :=
| CreateOk (id cdpUrl : jsstring) (liveViewUrl : option jsstring)
| CreateFailed (error : option jsstring).

(** What [app.browserExecute(...)] resolves to. *)
Record BrowserExecuteResponse : Type := {
  success : bool;
  result : option jsstring;
  error : option jsstring;
}.

Record ListedSession : Type := {
  listed_id : jsstring;
  listed_cdpUrl : option jsstring;
}.

(** What [spawn('sh', ['-c', command], { env })] is asked to run. *)
Record SpawnRequest : Type := {
  command : jsstring;
  env_CDP_URL : jsstring;
  env_SESSION_ID : jsstring;
}.

(** What the child process produced; [exitCode = None] when it was killed
    by a signal. *)
Record ChildResult : Type := {
  child_stdout : jsstring;
  child_stderr : jsstring;
  child_code : option Z;
}.

(** The remote API client and the local shell, as the commands see them. *)
Record World : Type := {
  browser : option Z → option Z → option bool → Settled BrowserCreateResponse;
  browserExecute : jsstring → jsstring → Language → Settled BrowserExecuteResponse;
  listBrowsers : Settled (option (list ListedSession));
  sh : SpawnRequest → ChildResult;
  now : jsstring;                (* [new Date().toISOString()] *)
}.

(** A call of [writeOutput(content, outputPath, ...)]. *)
Inductive Content : Type :=
| Text (s : jsstring)
| JsonOfLaunch (r : BrowserCreateResponse)
| JsonOfExecute (r : BrowserExecuteResponse)
| JsonOfBash (result : jsstring) (exitCode : Z).

(** The observable effects of one command. *)
Record Outcome : Type := {
  exitCode : option Z;         (* [Some n]: [process.exit(n)] *)
  stderr : list jsstring;      (* [console.error], [process.stderr.write] *)
  stdout : list jsstring;      (* [console.log], [process.stdout.write] *)
  written : list (Content * option jsstring);   (* [writeOutput] calls *)
  store : FileSystem;
}.

Definition errorLine (msg : jsstring) : jsstring := str "Error: " ++ msg.

Definition fail (msg : jsstring) (fs : FileSystem) : Outcome :=
  {| exitCode := Some 1%Z; stderr := [errorLine msg]; stdout := [];
     written := []; store := fs |}.

(** [x || 'Unknown error'] *)
Definition orUnknown (x : option jsstring) : jsstring :=
  match or_else x (Some (str "Unknown error")) with
  | Some m => m
  | None => str "Unknown error"
  end.

Section WithRuntime.
Context {rt : Runtime}.

Definition handleBrowserLaunch (options : BrowserLaunchOptions)
    (w : World) (fs : FileSystem) : Outcome :=
  match browser w (ttl options) (ttlInactivity options) (stream options) with
  | Rejected e => fail (messageOf e) fs
  | Resolved (CreateFailed err) => fail (orUnknown err) fs
  | Resolved (CreateOk sid url live as data) =>
      let fs := saveBrowserSession
                  {| id := sid; cdpUrl := url; createdAt := now w |} fs in
      let content :=
        if launch_json options then JsonOfLaunch data
        else Text (JsString.join [ascii_of_nat 10]
               ([str "Session ID:    " ++ sid;
                 str "CDP URL:       " ++ url] ++
                match live with
                | Some (c :: l) => [str "Live View URL: " ++ c :: l]
                | _ => []
                end)) in
      {| exitCode := None; stderr := []; stdout := [];
         written := [(content, launch_output options)]; store := fs |}
  end.

(** The command line [executeBashLocally] hands to [sh -c]. *)
Definition finalCommand (command cdpUrl : jsstring) : jsstring :=
  if JsString.startsWith command (str "agent-browser")
     && negb (JsString.includes command (str "--cdp"))
  then
    let parts := JsString.split " " command in
    let insertIdx := Nat.min 2 (length parts) in
    JsString.join (str " ")
      (JsString.splice parts insertIdx
         [str "--cdp"; str "'" ++ cdpUrl ++ str "'"])
  else command.

Definition executeBashLocally (w : World) (command : jsstring)
    (session : jsstring * jsstring) : jsstring * jsstring * Z :=
  let child := sh w {| command := finalCommand command (snd session);
                       env_CDP_URL := snd session;
                       env_SESSION_ID := fst session |} in
  (child_stdout child, child_stderr child, default 1%Z (child_code child)).

(** [/destroyed|expired|not found|gone|session.*closed/i] *)
Definition expiredPattern : RegExp.regex :=
  RegExp.Alt (RegExp.Lit (str "destroyed"))
 (RegExp.Alt (RegExp.Lit (str "expired"))
 (RegExp.Alt (RegExp.Lit (str "not found"))
 (RegExp.Alt (RegExp.Lit (str "gone"))
             (RegExp.Cat (RegExp.Lit (str "session"))
             (RegExp.Cat (RegExp.Star RegExp.Dot)
                         (RegExp.Lit (str "closed"))))))).

Definition isSessionExpiredError (error : Thrown) : bool :=
  let msg := JsString.toLowerCase (textOf error) in
  let status := statusOf error in
  if bool_decide (status = Some 410%Z) || bool_decide (status = Some 404%Z)
  then true
  else RegExp.test true expiredPattern msg.

Definition LF : jsstring := [ascii_of_nat 10].

(** [s.trimEnd()] *)
Definition trimEnd (s : jsstring) : jsstring :=
  rev (JsString.trimStart (rev s)).

Definition expiredMessage (sessionId : jsstring) : jsstring :=
  str "Error: Session " ++ sessionId ++
  str " has expired or been destroyed." ++ LF ++
  str "The session may have exceeded its TTL or been closed." ++ LF ++
  str "Start a new session with: firecrawl browser launch".

(** The [catch (error)] block of the remote path of
    [handleBrowserExecute]. *)
Definition onExecuteError (options : BrowserExecuteOptions)
    (error : Thrown) (fs : FileSystem) : Outcome :=
  if isSessionExpiredError error then
    let sessionId :=
      default (str "unknown")
        (or_else (or_else (session options) (id <$> loadBrowserSession fs))
                 (Some (str "unknown"))) in
    let stored := loadBrowserSession fs in
    let fs' :=
      if bool_decide (is_Some stored) && negb (truthy (session options))
      then clearBrowserSession fs else fs in
    {| exitCode := Some 1%Z; stderr := [expiredMessage sessionId];
       stdout := []; written := []; store := fs' |}
  else fail (messageOf error) fs.

(** [handleBrowserExecute] for [language] python or node (or unset). *)
Definition executeRemotely (options : BrowserExecuteOptions)
    (w : World) (fs : FileSystem) : Outcome :=
  match getSessionId (session options) fs with
  | inl msg => onExecuteError options (ErrorObject msg None) fs
  | inr sessionId =>
      match browserExecute w sessionId (code options)
              (default python (language options)) with
      | Rejected e => onExecuteError options e fs
      | Resolved data =>
          if negb (success data) then fail (orUnknown (error data)) fs
          else
            {| exitCode := None;
               stderr :=
                 match error data with
                 | Some (c :: m) => [str "Code error: " ++ (c :: m) ++ LF]
                 | _ => []
                 end;
               stdout := [];
               written :=
                 if json options then [(JsonOfExecute data, output options)]
                 else match result data with
                      | Some (c :: r) => [(Text (c :: r), output options)]
                      | _ => []
                      end;
               store := fs |}
      end
  end.

(** The [else] branch of the session lookup of the bash path: ask the
    API for the CDP URL of the active session [sid]. *)
Definition fetchActiveSession (w : World) (sid : jsstring)
    : jsstring + jsstring * jsstring :=
  match listBrowsers w with
  | Rejected e => inl (messageOf e)
  | Resolved sessions =>
      match find (λ s, bool_decide (listed_id s = sid))
                 (default [] sessions) with
      | Some {| listed_id := i; listed_cdpUrl := Some (d :: u) |} =>
          inr (i, d :: u)
      | _ => inl (str "Session " ++ sid ++ str " not found or not active.")
      end
  end.

(** The session a bash command runs against: [inr (id, cdpUrl)], or
    [inl message] when the command gives up. *)
Definition bashSession (options : BrowserExecuteOptions)
    (w : World) (fs : FileSystem) : jsstring + jsstring * jsstring :=
  if truthy (session options) then
    let sid := default [] (session options) in
    match loadBrowserSession fs with
    | Some stored =>
        if decide (id stored = sid) then inr (id stored, cdpUrl stored)
        else fetchActiveSession w sid
    | None => fetchActiveSession w sid
    end
  else
    match loadBrowserSession fs with
    | Some stored => inr (id stored, cdpUrl stored)
    | None =>
        inl (str "No active browser session. Run `firecrawl browser launch` first.")
    end.

(** [handleBrowserExecute] for [language === 'bash']: the remote API is
    not called for the execution itself. *)
Definition executeBash (options : BrowserExecuteOptions)
    (w : World) (fs : FileSystem) : Outcome :=
  match bashSession options w fs with
  | inl msg => fail msg fs
  | inr sess =>
      let '(out, err, exitc) := executeBashLocally w (code options) sess in
      if negb (exitc =? 0)%Z then
        {| exitCode := Some 1%Z;
           stderr := if bool_decide (err = []) then [] else [err];
           stdout := if bool_decide (out = []) then [] else [out];
           written := []; store := fs |}
      else
        {| exitCode := None; stderr := []; stdout := [];
           written :=
             if json options
             then [(JsonOfBash (trimEnd out) exitc, output options)]
             else if bool_decide (out = []) then []
                  else [(Text (trimEnd out), output options)];
           store := fs |}
  end.

Definition handleBrowserExecute (options : BrowserExecuteOptions)
    (w : World) (fs : FileSystem) : Outcome :=
  match language options with
  | Some bash => executeBash options w fs
  | _ => executeRemotely options w fs
  end.

End WithRuntime.

End Browser.

(** ** [src/commands/scrape.ts]: the bulk scrape orchestrator *)

Module Scrape.

(** A [ScrapeFormat] is a string at run time (['markdown'], ['html'], ...). *)
Abbreviation ScrapeFormat := jsstring (only parsing).

Record ScrapeOptions : Type := {
  formats : option (list ScrapeFormat);
  screenshot : option bool;
  fullPageScreenshot : option bool;
  onlyMainContent : option bool;
}.

Record AllScrapeOptions : Type := {
  limit : option Z;        (* a NaN limit behaves as [0] does *)
  yes : option bool;
  search : option jsstring;
  includePaths : option (list jsstring);
  excludePaths : option (list jsstring);
  allowSubdomains : option bool;
}.

(** Truthiness of an optional boolean. *)
Definition istrue (b : option bool) : bool := default false b.

(** What [executeMap] returns; [map_data] holds [data.links.map(l => l.url)]. *)
Record MapResult : Type := {
  map_success : bool;
  map_data : option (list jsstring);
  map_error : option jsstring;
}.

(** What [getStatus] returns: [status.credits?.remaining] and
    [status.concurrency?.max] (a count). *)
Record Status : Type := {
  credits_remaining : option Z;
  concurrency_max : option nat;
}.

(** What [executeScrape] returns, as far as the orchestrator's control
    flow looks at it. *)
Record ScrapeResult : Type := {
  scrape_success : bool;
  scrape_error : jsstring;
}.

(** The answers given to the prompts of [runWizard]. *)
Record WizardAnswers : Type := {
  formatChoices : list jsstring;
  mainContent : bool;
  pathChoices : list jsstring;
}.

(** Everything the command reads from outside. *)
Record Inputs : Type := {
  mapResult : MapResult;
  isTTY : bool;                       (* [process.stdin.isTTY] *)
  wizardAnswers : WizardAnswers;
  status : Status;
  answer : jsstring;                  (* the line typed at "Continue?" *)
  scrape : nat → ScrapeResult;        (* outcome for the URL at a position *)
}.

(** Decimal rendering of numbers in template strings. *)
Definition showNat (n : nat) : jsstring :=
  list_ascii_of_string (NilZero.string_of_uint (Nat.to_uint n)).
Definition showZ (z : Z) : jsstring :=
  list_ascii_of_string (NilZero.string_of_int (Z.to_int z)).

(** *** [parseInt(s, 10)] *)

Definition digit (c : ascii) : option Z :=
  let n := nat_of_ascii c in
  if (48 <=? n)%nat && (n <=? 57)%nat then Some (Z.of_nat (n - 48)) else None.

(** The value of the longest prefix of digits; [acc = None] until a digit
    has been read. *)
Fixpoint digits (s : jsstring) (acc : option Z) : option Z :=
  match s with
  | c :: s' =>
      match digit c with
      | Some d => digits s' (Some (10 * default 0 acc + d))%Z
      | None => acc
      end
  | [] => acc
  end.

(** [None] is [NaN]. *)
Definition parseInt (s : jsstring) : option Z :=
  match JsString.trimStart s with
  | "-"%char :: s' => Z.opp <$> digits s' None
  | "+"%char :: s' => digits s' None
  | s' => digits s' None
  end.

(** *** Lines written to the status stream *)

Inductive StatusLine : Type :=
| Line (text : jsstring)
| ErrorProgress (completed total : nat) (url error : jsstring)
    (* [[c/t] Error: url - error] *)
| SavedProgress (completed total : nat) (url : jsstring).
    (* [[c/t] Saved: dir/ (n files)] *)

(** What comes out of the phases before the execution phase. *)
Inductive Prepared : Type :=
| Exited (code : Z) (stderr : list StatusLine)
| Ready (urls : list jsstring) (maxConcurrency : nat)
        (options : ScrapeOptions) (stderr : list StatusLine).

Section WithRuntime.
Context {rt : Runtime}.

(** The detection of explicit flags, [hasExplicitFlags]. *)
Definition hasExplicitFlags (options : ScrapeOptions)
    (allOptions : AllScrapeOptions) : bool :=
  istrue (yes allOptions)
  || bool_decide (is_Some (limit allOptions))
  || bool_decide (is_Some (includePaths allOptions))
  || bool_decide (is_Some (excludePaths allOptions))
  || match formats options with
     | Some (f :: _) => negb (bool_decide (f = str "markdown"))
     | _ => false
     end
  || istrue (screenshot options)
  || istrue (fullPageScreenshot options)
  || istrue (onlyMainContent options).

(** The wizard runs iff this holds. *)
Definition entersWizard (options : ScrapeOptions)
    (allOptions : AllScrapeOptions) (tty : bool) : bool :=
  negb (hasExplicitFlags options allOptions) && tty.

(** The callback of the include filter. *)
Definition includeKeeps (includePaths : list jsstring) (url : jsstring)
    : bool :=
  match URL_pathname url with
  | Some pathname =>
      existsb (λ p, JsString.startsWith pathname p) includePaths
  | None => false
  end.

(** The callback of the exclude filter. *)
Definition excludeKeeps (excludePaths : list jsstring) (url : jsstring)
    : bool :=
  match URL_pathname url with
  | Some pathname =>
      negb (existsb (λ p, JsString.startsWith pathname p) excludePaths)
  | None => true
  end.

(** "Apply filters from flags". *)
Definition applyFlagFilters (includePaths excludePaths : option (list jsstring))
    (urls : list jsstring) : list jsstring :=
  let urls :=
    match includePaths with
    | Some (p :: ps) => List.filter (includeKeeps (p :: ps)) urls
    | _ => urls
    end in
  match excludePaths with
  | Some (p :: ps) => List.filter (excludeKeeps (p :: ps)) urls
  | _ => urls
  end.

(** *** The wizard *)

(** The first path segment of a URL, with its leading slash. *)
Definition topSegment (url : jsstring) : option jsstring :=
  match URL_pathname url with
  | Some pathname =>
      let rest := match pathname with
                  | "/"%char :: r => r
                  | r => r
                  end in
      match JsString.split "/" rest with
      | (c :: seg) :: _ => Some ("/"%char :: c :: seg)
      | _ => None
      end
  | None => None
  end.

(** [counts.set(segment, (counts.get(segment) || 0) + 1)] on a [Map],
    which keeps insertion order. *)
Fixpoint bump (segment : jsstring) (counts : list (jsstring * nat))
    : list (jsstring * nat) :=
  match counts with
  | [] => [(segment, 1)]
  | (s, n) :: rest =>
      if decide (s = segment) then (s, S n) :: rest
      else (s, n) :: bump segment rest
  end.

Fixpoint insertByCount (x : jsstring * nat) (l : list (jsstring * nat))
    : list (jsstring * nat) :=
  match l with
  | [] => [x]
  | y :: l' =>
      if (snd y <=? snd x)%nat then x :: y :: l'
      else y :: insertByCount x l'
  end.

(** [.sort((a, b) => b[1] - a[1])]: descending by count, stable. *)
Definition sortByCount (l : list (jsstring * nat)) : list (jsstring * nat) :=
  foldr insertByCount [] l.

Definition getTopPaths (urls : list jsstring) : list (jsstring * nat) :=
  sortByCount
    (fold_left (λ counts url,
                  match topSegment url with
                  | Some segment => bump segment counts
                  | None => counts
                  end) urls []).

Definition runWizard (urls : list jsstring) (options : ScrapeOptions)
    (allOptions : AllScrapeOptions) (ans : WizardAnswers)
    : ScrapeOptions * AllScrapeOptions * list jsstring :=
  (* 1. formats *)
  let step (st : ScrapeOptions * list ScrapeFormat) (choice : jsstring) :=
    let '(o, fmts) := st in
    if decide (choice = str "fullPageScreenshot") then
      ({| formats := formats o; screenshot := screenshot o;
          fullPageScreenshot := Some true;
          onlyMainContent := onlyMainContent o |}, fmts)
    else if decide (choice = str "screenshot") then
      ({| formats := formats o; screenshot := Some true;
          fullPageScreenshot := fullPageScreenshot o;
          onlyMainContent := onlyMainContent o |}, fmts)
    else (o, fmts ++ [choice]) in
  let '(options, fmts) := fold_left step (formatChoices ans) (options, []) in
  let fmts :=
    if bool_decide (fmts = []) && negb (istrue (screenshot options))
       && negb (istrue (fullPageScreenshot options))
    then [str "markdown"] else fmts in
  let options :=
    if bool_decide (fmts = []) then options
    else {| formats := Some fmts; screenshot := screenshot options;
            fullPageScreenshot := fullPageScreenshot options;
            onlyMainContent := onlyMainContent options |} in
  (* 2. main content only *)
  let options :=
    if mainContent ans
    then {| formats := formats options; screenshot := screenshot options;
            fullPageScreenshot := fullPageScreenshot options;
            onlyMainContent := Some true |}
    else options in
  (* 3. filter by paths *)
  let topPaths := getTopPaths urls in
  if (1 <? length topPaths)%nat && negb (bool_decide (pathChoices ans = []))
  then
    (options,
     {| limit := limit allOptions; yes := yes allOptions;
        search := search allOptions;
        includePaths := Some (pathChoices ans);
        excludePaths := excludePaths allOptions;
        allowSubdomains := allowSubdomains allOptions |},
     List.filter (includeKeeps (pathChoices ans)) urls)
  else (options, allOptions, urls).

(** *** Map, filter and preflight phases *)

(** [status.concurrency?.max || urls.length] *)
Definition maxConcurrencyOf (st : Status) (urls : list jsstring) : nat :=
  match concurrency_max st with
  | Some (S m) => S m
  | _ => length urls
  end.

Definition notEnoughCredits (creditsNeeded : nat) (remaining : Z)
    : jsstring :=
  str "Error: Not enough credits. Need " ++ showNat creditsNeeded ++
  str ", have " ++ showZ remaining ++ str ".".

(** The URL list that reaches the preflight phase, with what was written
    to the status stream on the way. *)
Record Selected : Type := {
  sel_options : ScrapeOptions;
  sel_urls : list jsstring;
  sel_found : nat;                  (* [mapResult.data.links.length] *)
  sel_stderr : list StatusLine;
}.

(** Filter phase: the wizard, or the filters given as flags. *)
Definition filterPhase (options : ScrapeOptions) (allOptions : AllScrapeOptions)
    (inp : Inputs) (links : list jsstring) : ScrapeOptions * list jsstring :=
  if entersWizard options allOptions (isTTY inp) then
    let '(options', _, urls) :=
      runWizard links options allOptions (wizardAnswers inp) in
    (options', urls)
  else
    (options,
     applyFlagFilters (includePaths allOptions) (excludePaths allOptions) links).

(** [if (limit && limit > 0) urls = urls.slice(0, limit)] *)
Definition applyLimit (limit : option Z) (urls : list jsstring) : list jsstring :=
  match limit with
  | Some l => if (0 <? l)%Z then take (Z.to_nat l) urls else urls
  | None => urls
  end.

Definition mappingLine (siteUrl : jsstring) : StatusLine :=
  Line (str "Mapping " ++ siteUrl ++ str "..." ++ [ascii_of_nat 10]).

(** Map and filter phases and the [limit] flag: [inl (code, stderr)] when
    the command exits there. *)
Definition selectUrls (siteUrl : jsstring) (options : ScrapeOptions)
    (allOptions : AllScrapeOptions) (inp : Inputs)
    : Z * list StatusLine + Selected :=
  match map_success (mapResult inp), map_data (mapResult inp) with
  | true, Some links =>
      if bool_decide (links = []) then
        inl (1%Z, [mappingLine siteUrl; Line (str "No URLs found on site.")])
      else
        let err :=
          [mappingLine siteUrl;
           Line (str "Found " ++ showNat (length links) ++ str " pages on " ++
                 siteUrl ++ [ascii_of_nat 10])] in
        let '(options', urls) := filterPhase options allOptions inp links in
        if bool_decide (urls = []) then
          inl (1%Z, err ++ [Line (str "No URLs matched after filtering.")])
        else
          inr {| sel_options := options';
                 sel_urls := applyLimit (limit allOptions) urls;
                 sel_found := length links;
                 sel_stderr := err |}
  | _, _ =>
      inl (1%Z, [mappingLine siteUrl;
                 Line (str "Error mapping site: " ++
                       default (str "undefined") (map_error (mapResult inp)))])
  end.

(** The line announcing the execution phase. *)
Definition scrapingLine (allOptions : AllScrapeOptions) (found : nat)
    (maxConcurrency : nat) (urls : list jsstring) : StatusLine :=
  Line (str "Scraping " ++ showNat (length urls) ++
        match limit allOptions with
        | Some l => if bool_decide (l = 0%Z) then []
                    else str " of " ++ showNat found
        | None => []
        end ++
        str " pages (" ++ showNat maxConcurrency ++
        str " at a time)..." ++ [ascii_of_nat 10]).

(** The confirmation prompt, [if (!yes) { ... }]. *)
Definition confirmation (allOptions : AllScrapeOptions) (inp : Inputs)
    (sel : Selected) (maxConcurrency : nat) : Prepared :=
  let urls := sel_urls sel in
  let ready urls err :=
    Ready urls maxConcurrency (sel_options sel)
          (err ++ [scrapingLine allOptions (sel_found sel) maxConcurrency urls]) in
  if istrue (yes allOptions) then ready urls (sel_stderr sel)
  else
    let creditsMsg :=
      match credits_remaining (status inp) with
      | Some remaining =>
          str ", " ++ showNat (length urls) ++ str " credits (" ++
          toLocaleString remaining ++ str " remaining)"
      | None => []
      end in
    let err := sel_stderr sel ++
      [Line ([ascii_of_nat 10] ++ str "Scrape " ++ showNat (length urls) ++
             str " pages" ++ creditsMsg ++ str ", " ++ showNat maxConcurrency ++
             str " at a time." ++ [ascii_of_nat 10])] in
    let answer := JsString.trim (answer inp) in
    let asNumber := parseInt answer in
    if match asNumber with Some n => (0 <? n)%Z | None => false end then
      let urls := take (Z.to_nat (default 0%Z asNumber)) urls in
      ready urls
        (err ++ [Line (str "Limiting to " ++ showNat (length urls) ++
                       str " pages." ++ [ascii_of_nat 10])])
    else if negb (bool_decide (JsString.toLowerCase answer = str "y")) then
      Exited 0 (err ++ [Line (str "Aborted." ++ [ascii_of_nat 10])])
    else ready urls err.

(** Preflight phase: the credit check, then the confirmation. *)
Definition preflight (allOptions : AllScrapeOptions) (inp : Inputs)
    (sel : Selected) : Prepared :=
  let urls := sel_urls sel in
  let maxConcurrency := maxConcurrencyOf (status inp) urls in
  match credits_remaining (status inp) with
  | Some remaining =>
      if (remaining <? Z.of_nat (length urls))%Z
      then Exited 1 (sel_stderr sel ++
                     [Line (notEnoughCredits (length urls) remaining)])
      else confirmation allOptions inp sel maxConcurrency
  | None => confirmation allOptions inp sel maxConcurrency
  end.

(** The phases up to and including the confirmation prompt. *)
Definition prepare (siteUrl : jsstring) (options : ScrapeOptions)
    (allOptions : AllScrapeOptions) (inp : Inputs) : Prepared :=
  match selectUrls siteUrl options allOptions inp with
  | inl (code, err) => Exited code err
  | inr sel => preflight allOptions inp sel
  end.

End WithRuntime.

(** *** Execution phase: the worker pool

    The workers are cooperative tasks on one event loop.  A worker is
    suspended either in [await executeScrape(...)] ([Scraping]) or later in
    [processUrl] or at the [await] of [runWorker] ([Saving]); whichever
    suspended worker continues next is the scheduler's choice. *)

Inductive Worker : Type :=
| Scraping (i : nat)      (* scrape of [urls[i]] pending *)
| Saving (i : nat)        (* past the scrape of [urls[i]], not yet back at the loop test *)
| Finished.

Record Pool : Type := {
  urlIndex : nat;
  completedCount : nat;
  errorCount : nat;
  workers : list Worker;
  issued : list nat;            (* positions passed to [executeScrape], oldest first *)
  progress : list StatusLine;
}.

Definition emptyPool : Pool :=
  {| urlIndex := 0; completedCount := 0; errorCount := 0; workers := [];
     issued := []; progress := [] |}.

Definition setWorkers (ws : list Worker) (p : Pool) : Pool :=
  {| urlIndex := urlIndex p; completedCount := completedCount p;
     errorCount := errorCount p; workers := ws; issued := issued p;
     progress := progress p |}.

Definition urlAt (urls : list jsstring) (i : nat) : jsstring :=
  default [] (urls !! i).

Section Pool.
Variable urls : list jsstring.
Variable scrape : nat → ScrapeResult.

(** The loop test of [runWorker] and, when it passes,
    [urls[urlIndex++]] and the call of [executeScrape]: no suspension
    point in between. *)
Definition enterLoop (p : Pool) : Pool * Worker :=
  if (urlIndex p <? length urls)%nat then
    ({| urlIndex := S (urlIndex p); completedCount := completedCount p;
        errorCount := errorCount p; workers := workers p;
        issued := issued p ++ [urlIndex p]; progress := progress p |},
     Scraping (urlIndex p))
  else (p, Finished).

(** One call [runWorker()], up to its first suspension. *)
Definition runWorker (p : Pool) : Pool :=
  let '(p', w) := enterLoop p in setWorkers (workers p' ++ [w]) p'.

(** [Array.from({ length: Math.min(maxConcurrency, urls.length) },
    () => runWorker())] *)
Definition startPool (maxConcurrency : nat) : Pool :=
  Nat.iter (Nat.min maxConcurrency (length urls)) runWorker emptyPool.

(** Worker [w] continues from where it is suspended, up to its next
    suspension: either the rest of [processUrl] after
    [await executeScrape(...)] (the counters and the error line), or the end
    of [processUrl] (the "Saved" line) and the next turn of the loop of
    [runWorker]. *)
Definition resume (w : nat) (p : Pool) : option Pool :=
  match workers p !! w with
  | Some (Scraping i) =>
      let result := scrape i in
      let completed := S (completedCount p) in
      Some {| urlIndex := urlIndex p;
              completedCount := completed;
              errorCount := if scrape_success result then errorCount p
                            else S (errorCount p);
              workers := <[w := Saving i]> (workers p);
              issued := issued p;
              progress :=
                if scrape_success result then progress p
                else progress p ++
                     [ErrorProgress completed (length urls) (urlAt urls i)
                                    (scrape_error result)] |}
  | Some (Saving i) =>
      let p :=
        if scrape_success (scrape i) then
          {| urlIndex := urlIndex p; completedCount := completedCount p;
             errorCount := errorCount p; workers := workers p;
             issued := issued p;
             progress := progress p ++
               [SavedProgress (completedCount p) (length urls) (urlAt urls i)] |}
        else p in
      let '(p', wk) := enterLoop p in
      Some (setWorkers (<[w := wk]> (workers p')) p')
  | _ => None
  end.

Inductive step : Pool → Pool → Prop :=
| step_resume w p p' : resume w p = Some p' → step p p'.

Definition isScraping (w : Worker) : bool :=
  match w with Scraping _ => true | _ => false end.

Definition scrapingOne (w : Worker) : nat := if isScraping w then 1 else 0.

(** The number of scrape calls pending. *)
Definition pending (p : Pool) : nat :=
  length (List.filter isScraping (workers p)).

(** The URLs passed to [executeScrape] so far, oldest first. *)
Definition scrapeCalls (p : Pool) : list jsstring :=
  urlAt urls <$> issued p.

(** The suspended workers. *)
Fixpoint suspended (ws : list Worker) (w : nat) : list nat :=
  match ws with
  | [] => []
  | Finished :: ws' => suspended ws' (S w)
  | _ :: ws' => w :: suspended ws' (S w)
  end.

(** The event loop: [sched t] picks which suspended worker continues at
    turn [t] (which pending promise settles next); it stops when none is
    left.  Every pending call settles sooner or later, so a suspended worker
    can always be picked. *)
Fixpoint run (fuel : nat) (sched : nat → nat) (t : nat) (p : Pool) : Pool :=
  match fuel with
  | 0 => p
  | S fuel' =>
      match suspended (workers p) 0 with
      | [] => p
      | w0 :: ws =>
          let w := nth (sched t mod length (w0 :: ws)) (w0 :: ws) w0 in
          match resume w p with
          | Some p' => run fuel' sched (S t) p'
          | None => p
          end
      end
  end.

(** Quantities used to reason about the pool. *)

(** [1] if the scrape at position [i] fails. *)
Definition failed (i : nat) : nat :=
  if scrape_success (scrape i) then 0 else 1.

(** The number of failing scrapes among the positions below [n]. *)
Definition failuresBelow (n : nat) : nat := sum_list_with failed (seq 0 n).

(** The number of failing scrapes among those pending. *)
Definition failuresPending (ws : list Worker) : nat :=
  sum_list_with (λ w, match w with Scraping i => failed i | _ => 0 end) ws.

(** How many more times a worker will be resumed at least. *)
Definition weight (w : Worker) : nat :=
  match w with Scraping _ => 2 | Saving _ => 1 | Finished => 0 end.

(** The number of resumptions left before the pool is done. *)
Definition stepsLeft (p : Pool) : nat :=
  2 * (length urls - urlIndex p) + sum_list_with weight (workers p).

(** What holds of the pool of [n] workers at every suspension. *)
Definition poolInvariant (n : nat) (p : Pool) : Prop :=
  urlIndex p ≤ length urls
  ∧ issued p = seq 0 (urlIndex p)
  ∧ completedCount p + pending p = urlIndex p
  ∧ errorCount p + failuresPending (workers p) = failuresBelow (urlIndex p)
  ∧ errorCount p ≤ completedCount p
  ∧ length (workers p) = n
  ∧ (Finished ∈ workers p → length urls ≤ urlIndex p).

(** [await Promise.all(workers)] *)
Definition runPool (maxConcurrency : nat) (sched : nat → nat) : Pool :=
  run (2 * length urls) sched 0 (startPool maxConcurrency).

End Pool.

(** *** The whole command *)

Record Result : Type := {
  exitCode : Z;                   (* [0] when the command returns normally *)
  stderr : list StatusLine;
  scraped : list jsstring;        (* the URLs passed to [executeScrape] *)
}.

(** The summary after [Promise.all] and the exit status. *)
Definition finish (urls : list jsstring) (err : list StatusLine) (p : Pool)
    : Result :=
  let total := length urls in
  {| exitCode := if (errorCount p =? total)%nat then 1%Z else 0%Z;
     stderr :=
       err ++ progress p ++
       [Line ([ascii_of_nat 10] ++ str "Completed: " ++
              showNat (completedCount p - errorCount p) ++ str "/" ++
              showNat total ++ str " succeeded")] ++
       (if (0 <? errorCount p)%nat
        then [Line (str ", " ++ showNat (errorCount p) ++ str " failed")]
        else []) ++
       [Line [ascii_of_nat 10]];
     scraped := scrapeCalls urls p |}.

Definition handleAllScrapeCommand {rt : Runtime} (siteUrl : jsstring)
    (options : ScrapeOptions) (allOptions : AllScrapeOptions)
    (inp : Inputs) (sched : nat → nat) : Result :=
  match prepare siteUrl options allOptions inp with
  | Exited code err => {| exitCode := code; stderr := err; scraped := [] |}
  | Ready urls maxConcurrency _ err =>
      finish urls err (runPool urls (scrape inp) maxConcurrency sched)
  end.

End Scrape.

(** ** A sample runtime

    A small concrete platform on which the commands can be evaluated: a
    POSIX home directory, a JSON-like codec for the stored session and a
    URL parser for [scheme://host/path?query#fragment]. *)

Module Sample.

Definition dquote : ascii := ascii_of_nat 34.

(** A string between double quotes, with the quote and the backslash
    escaped. *)
Fixpoint quote (s : jsstring) : jsstring :=
  match s with
  | [] => [dquote]
  | c :: s' =>
      if bool_decide (c = dquote) || bool_decide (c = "\"%char)
      then "\"%char :: c :: quote s'
      else c :: quote s'
  end.

(** Reads an escaped string up to its closing quote; returns it and what
    follows. *)
Fixpoint unquote (s : jsstring) : option (jsstring * jsstring) :=
  match s with
  | [] => None
  | c :: s' =>
      if bool_decide (c = dquote) then Some ([], s')
      else if bool_decide (c = "\"%char) then
        match s' with
        | d :: s'' =>
            match unquote s'' with
            | Some (f, r) => Some (d :: f, r)
            | None => None
            end
        | [] => None
        end
      else
        match unquote s' with
        | Some (f, r) => Some (c :: f, r)
        | None => None
        end
  end.

Definition stripPrefix (p s : jsstring) : option jsstring :=
  if JsString.startsWith s p then Some (drop (length p) s) else None.

Definition keyId : jsstring := "{"%char :: dquote :: str "id" ++ dquote :: ":"%char :: [dquote].
Definition keyCdpUrl : jsstring :=
  ","%char :: dquote :: str "cdpUrl" ++ dquote :: ":"%char :: [dquote].
Definition keyCreatedAt : jsstring :=
  ","%char :: dquote :: str "createdAt" ++ dquote :: ":"%char :: [dquote].

Definition stringify (s : StoredBrowserSession) : jsstring :=
  keyId ++ quote (id s) ++ keyCdpUrl ++ quote (cdpUrl s) ++
  keyCreatedAt ++ quote (createdAt s) ++ str "}".

Definition parse (data : jsstring) : option StoredBrowserSession :=
  r ← stripPrefix keyId data;
  '(i, r) ← unquote r;
  r ← stripPrefix keyCdpUrl r;
  '(u, r) ← unquote r;
  r ← stripPrefix keyCreatedAt r;
  '(t, r) ← unquote r;
  if bool_decide (r = str "}")
  then Some {| id := i; cdpUrl := u; createdAt := t |} else None.

(** The text after the first ["://"], if any. *)
Fixpoint afterScheme (s : jsstring) : option jsstring :=
  match s with
  | [] => None
  | c :: s' =>
      if JsString.startsWith s (str "://") then Some (drop 3 s)
      else afterScheme s'
  end.

Definition pathname (url : jsstring) : option jsstring :=
  r ← afterScheme url;
  let '(host, r) :=
    JsString.span (λ c, negb (bool_decide (c = "/"%char)
                          || bool_decide (c = "?"%char)
                          || bool_decide (c = "#"%char))) r in
  if bool_decide (host = []) then None
  else
    let '(path, _) :=
      JsString.span (λ c, negb (bool_decide (c = "?"%char)
                            || bool_decide (c = "#"%char))) r in
    Some (if bool_decide (path = []) then str "/" else path).

Definition runtime : Runtime :=
  {| homedir := str "/home/user";
     platform := str "linux";
     JSON_stringify := stringify;
     JSON_parse := parse;
     URL_pathname := pathname;
     toLocaleString := Scrape.showZ |}.

Definition emptyFs : BrowserSession.FileSystem :=
  {| BrowserSession.dirs := ∅; BrowserSession.files := ∅ |}.

(** A remote API that launches session [sid] and answers every execute
    call with "Session destroyed" (HTTP 410). *)
Definition world (sid : jsstring) : Browser.World :=
  {| Browser.browser := λ _ _ _,
       Browser.Resolved (Browser.CreateOk sid (str "wss://cdp/" ++ sid) None);
     Browser.browserExecute := λ _ _ _,
       Browser.Rejected
         (Browser.ErrorObject (str "Session destroyed") (Some 410%Z));
     Browser.listBrowsers := Browser.Resolved None;
     Browser.sh := λ _, {| Browser.child_stdout := [];
                           Browser.child_stderr := [];
                           Browser.child_code := Some 0%Z |};
     Browser.now := str "2025-01-01T00:00:00Z" |}.

Definition launchOptions : Browser.BrowserLaunchOptions :=
  {| Browser.ttl := None; Browser.ttlInactivity := None;
     Browser.stream := None; Browser.launch_output := None;
     Browser.launch_json := false |}.

Definition executeOptions (session : option jsstring)
    : Browser.BrowserExecuteOptions :=
  {| Browser.code := str "await page.title()"; Browser.language := None;
     Browser.session := session; Browser.output := None;
     Browser.json := false |}.

Definition plainOptions (formats : option (list jsstring))
    : Scrape.ScrapeOptions :=
  {| Scrape.formats := formats; Scrape.screenshot := None;
     Scrape.fullPageScreenshot := None; Scrape.onlyMainContent := None |}.

Definition flags (yes : option bool) (includePaths : option (list jsstring))
    : Scrape.AllScrapeOptions :=
  {| Scrape.limit := None; Scrape.yes := yes; Scrape.search := None;
     Scrape.includePaths := includePaths; Scrape.excludePaths := None;
     Scrape.allowSubdomains := None |}.

(** A run of the bulk scrape command: the map finds three pages, the
    account has [credits] credits and a concurrency cap of 2, the operator
    types [answer] at the prompt, and the scrape of the second URL fails. *)
Definition inputsWith (credits : Z) (tty : bool) (answer : jsstring)
    : Scrape.Inputs :=
  {| Scrape.mapResult :=
       {| Scrape.map_success := true;
          Scrape.map_data := Some [str "https://docs.x.com/a";
                                   str "https://docs.x.com/b";
                                   str "https://docs.x.com/intro"];
          Scrape.map_error := None |};
     Scrape.isTTY := tty;
     Scrape.wizardAnswers :=
       {| Scrape.formatChoices := [str "markdown"];
          Scrape.mainContent := false; Scrape.pathChoices := [] |};
     Scrape.status := {| Scrape.credits_remaining := Some credits;
                         Scrape.concurrency_max := Some 2 |};
     Scrape.answer := answer;
     Scrape.scrape := λ i,
       {| Scrape.scrape_success := negb (i =? 1)%nat;
          Scrape.scrape_error := str "timeout" |} |}.

Definition inputs : Scrape.Inputs := inputsWith 100 false (str "y").

End Sample.

(** ** The specification's wording, for comparison with the code *)

Module Spec.

(** A word: a non-empty run of characters none of which is white space. *)
Definition word (w : jsstring) : Prop :=
  w ≠ [] ∧ ∀ c, c ∈ w → JsString.is_space c = false.

(** "[flag] is inserted immediately after the first two
    whitespace-separated words": [None] when there are no two words. *)
Definition insertAfterTwoWords (command flag : jsstring) : option jsstring :=
  let '(w1, r1) := JsString.span (λ c, negb (JsString.is_space c)) command in
  let '(gap, r2) := JsString.span JsString.is_space r1 in
  let '(w2, r3) := JsString.span (λ c, negb (JsString.is_space c)) r2 in
  if bool_decide (w1 = []) || bool_decide (w2 = []) then None
  else Some (w1 ++ gap ++ w2 ++ str " " ++ flag ++ r3).

(** The command line local bash execution runs, as the specification
    words it. *)
Definition finalCommand (command cdpUrl : jsstring) : option jsstring :=
  if JsString.startsWith command (str "agent-browser")
     && negb (JsString.includes command (str "--cdp"))
  then insertAfterTwoWords command (str "--cdp '" ++ cdpUrl ++ str "'")
  else Some command.

(** "The message matches [phrase] case-insensitively": some stretch of
    the message reads as [phrase] once case is ignored. *)
Definition mentions (phrase msg : jsstring) : Prop :=
  ∃ pre w post,
    msg = pre ++ w ++ post
    ∧ JsString.toLowerCase w = JsString.toLowerCase phrase.

(** "A phrase indicating the session was closed": [session], later on the
    same line [closed], case ignored. *)
Definition sessionClosedPhrase (msg : jsstring) : Prop :=
  ∃ pre w1 mid w2 post,
    msg = pre ++ w1 ++ mid ++ w2 ++ post
    ∧ JsString.toLowerCase w1 = str "session"
    ∧ JsString.toLowerCase w2 = str "closed"
    ∧ Forall (λ c, RegExp.is_line_terminator c = false) mid.

(** "A URL survives iff (include empty OR URL path starts with some include
    prefix) AND (exclude empty OR URL path starts with no exclude prefix)". *)
Definition survives {rt : Runtime} (includePaths excludePaths : list jsstring)
    (url : jsstring) : Prop :=
  (includePaths = []
   ∨ ∃ pathname p, URL_pathname url = Some pathname
                   ∧ p ∈ includePaths ∧ p `prefix_of` pathname)
  ∧ (excludePaths = []
     ∨ ∀ pathname p, URL_pathname url = Some pathname →
                     p ∈ excludePaths → ¬ p `prefix_of` pathname).

(** "The caller supplied explicit scraping flags": a format selection other
    than [markdown] alone, screenshot, only-main-content, limit,
    include/exclude paths, or skip-confirmation. *)
Definition explicitFlags (options : Scrape.ScrapeOptions)
    (allOptions : Scrape.AllScrapeOptions) : Prop :=
  (∃ f fs, Scrape.formats options = Some (f :: fs)
           ∧ f :: fs ≠ [str "markdown"])
  ∨ Scrape.istrue (Scrape.screenshot options) = true
  ∨ Scrape.istrue (Scrape.fullPageScreenshot options) = true
  ∨ Scrape.istrue (Scrape.onlyMainContent options) = true
  ∨ is_Some (Scrape.limit allOptions)
  ∨ is_Some (Scrape.includePaths allOptions)
  ∨ is_Some (Scrape.excludePaths allOptions)
  ∨ Scrape.istrue (Scrape.yes allOptions) = true.

(** The classification of section 4.1b. *)
Definition sessionExpired (e : Browser.Thrown) : Prop :=
  Browser.statusOf e = Some 410%Z
  ∨ Browser.statusOf e = Some 404%Z
  ∨ mentions (str "destroyed") (Browser.textOf e)
  ∨ mentions (str "expired") (Browser.textOf e)
  ∨ mentions (str "not found") (Browser.textOf e)
  ∨ mentions (str "gone") (Browser.textOf e)
  ∨ sessionClosedPhrase (Browser.textOf e).

End Spec.

(** ** [src/commands/browser.ts]: closing a session *)

Module BrowserClose.
Import BrowserSession Browser.

Record BrowserCloseOptions : Type := {
  session : option jsstring;
  output : option jsstring;
  json : bool;
}.

(** What [app.deleteBrowser(sessionId)] resolves to. *)
Record DeleteResponse : Type := {
  success : bool;
  error : option jsstring;
}.

(** The observable effects of [handleBrowserClose]. *)
Record Outcome : Type := {
  exitCode : option Z;            (* [Some n]: [process.exit(n)] *)
  stderr : list jsstring;
  stdout : list jsstring;         (* [console.log] *)
  deleted : list jsstring;        (* the ids passed to [app.deleteBrowser] *)
  jsonWritten : option (jsstring * option jsstring);
      (* [writeOutput] of [{ success: true, id }]: the id and the path *)
  store : FileSystem;
}.

Definition closeFailed (msg : jsstring) (deleted : list jsstring)
    (fs : FileSystem) : Outcome :=
  {| exitCode := Some 1%Z; stderr := [errorLine msg]; stdout := [];
     deleted := deleted; jsonWritten := None; store := fs |}.

Definition handleBrowserClose {rt : Runtime} (options : BrowserCloseOptions)
    (deleteBrowser : jsstring → Settled DeleteResponse) (fs : FileSystem)
    : Outcome :=
  match getSessionId (session options) fs with
  | inl msg => closeFailed msg [] fs
  | inr sessionId =>
      match deleteBrowser sessionId with
      | Rejected e => closeFailed (messageOf e) [sessionId] fs
      | Resolved data =>
          if negb (success data)
          then closeFailed (orUnknown (error data)) [sessionId] fs
          else
            (* Clear stored session *)
            let fs' :=
              match loadBrowserSession fs with
              | Some stored =>
                  if decide (id stored = sessionId)
                  then clearBrowserSession fs else fs
              | None => fs
              end in
            {| exitCode := None; stderr := [];
               stdout := [str "Session closed (" ++ sessionId ++ str ")"];
               deleted := [sessionId];
               jsonWritten :=
                 if json options then Some (sessionId, output options)
                 else None;
               store := fs' |}
      end
  end.

End BrowserClose.

(** ** [src/index.ts]: the action of [browser execute] *)

Module Cli.

Record ExecuteFlags : Type := {
  python : bool;
  node : bool;
  bash : bool;
  session : option jsstring;
  output : option jsstring;
  json : bool;
}.

(** [[options.python, options.node, options.bash].filter(Boolean).length] *)
Definition flagCount (flags : ExecuteFlags) : nat :=
  length (List.filter (λ b : bool, b) [python flags; node flags; bash flags]).

Definition languageOf (flags : ExecuteFlags) : Browser.Language :=
  if python flags then Browser.python
  else if node flags then Browser.node
  else Browser.bash.

(** "In default/bash mode, auto-prefix "agent-browser" if not already
    present". *)
Definition finalCode (code : jsstring) (flags : ExecuteFlags) : jsstring :=
  if match languageOf flags with Browser.bash => true | _ => false end
     && negb (bash flags)
     && negb (JsString.startsWith code (str "agent-browser"))
  then str "agent-browser " ++ code
  else code.

(** The options handed to [handleBrowserExecute], or [inl message] when the
    action exits with code 1. *)
Definition executeAction (code : jsstring) (flags : ExecuteFlags)
    : jsstring + Browser.BrowserExecuteOptions :=
  if (1 <? flagCount flags)%nat then
    inl (str "Error: Only one of --python, --node, or --bash can be specified")
  else
    inr {| Browser.code := finalCode code flags;
           Browser.language := Some (languageOf flags);
           Browser.session := session flags;
           Browser.output := output flags;
           Browser.json := json flags |}.

End Cli.

(** ** [src/commands/scrape.ts]: the formats of a scrape request *)

Module ScrapeRequest.
Import Scrape.

(** A [FormatOption]: a format name, or the object
    [{ type: 'screenshot', fullPage: true }]. *)
Inductive FormatOption : Type :=
| FormatName (name : jsstring)
| FullPageScreenshot.

Global Instance FormatOption_eq_dec : EqDecision FormatOption.
Proof. solve_decision. Defined.

(** The [formats] that [executeScrape] sends to [app.scrape]. *)
Definition requestFormats (options : ScrapeOptions) : list FormatOption :=
  let formats :=
    match formats options with
    | Some (f :: fs) => FormatName <$> (f :: fs)
    | _ => []
    end in
  let formats :=
    if istrue (fullPageScreenshot options) then formats ++ [FullPageScreenshot]
    else if istrue (screenshot options)
            && negb (bool_decide (FormatName (str "screenshot") ∈ formats))
    then formats ++ [FormatName (str "screenshot")]
    else formats in
  if bool_decide (formats = []) then [FormatName (str "markdown")]
  else formats.

(** The [effectiveFormats] that [handleScrapeCommand] hands to the output
    handler. *)
Definition effectiveFormats (options : ScrapeOptions) : list jsstring :=
  let effective :=
    match formats options with
    | Some (f :: fs) => f :: fs
    | _ => [str "markdown"]
    end in
  if istrue (screenshot options)
     && negb (bool_decide (str "screenshot" ∈ effective))
  then effective ++ [str "screenshot"]
  else effective.

End ScrapeRequest.

(** ** [src/commands/scrape.ts]: where results are saved *)

Module ScrapeFiles.
Import Scrape.

(** [hostname.replace(/^www\./, '')] *)
Definition stripWww (hostname : jsstring) : jsstring :=
  if JsString.startsWith hostname (str "www.") then drop 4 hostname
  else hostname.

Definition dropLeadingSlash (s : jsstring) : jsstring :=
  match s with
  | "/"%char :: r => r
  | _ => s
  end.

(** [s.replace(/\/$/, '')] *)
Definition dropTrailingSlash (s : jsstring) : jsstring :=
  rev (dropLeadingSlash (rev s)).

(** [pathname.replace(/^\/|\/$/g, '')] *)
Definition stripSlashes (pathname : jsstring) : jsstring :=
  dropTrailingSlash (dropLeadingSlash pathname).

(** [s.replace(/\//g, '-')] *)
Definition dashSlashes (s : jsstring) : jsstring :=
  (λ c, if decide (c = "/"%char) then "-"%char else c) <$> s.

(** The characters [[a-zA-Z0-9.-]]. *)
Definition isSafeChar (c : ascii) : bool :=
  JsString.is_lower c || JsString.is_upper c
  || ((48 <=? nat_of_ascii c)%nat && (nat_of_ascii c <=? 57)%nat)
  || bool_decide (c = "."%char) || bool_decide (c = "-"%char).

(** [url.replace(/[^a-zA-Z0-9.-]/g, '_')] *)
Definition sanitize (url : jsstring) : jsstring :=
  (λ c, if isSafeChar c then c else "_"%char) <$> url.

(** [urlToFilename(url)]; [parsed] is [new URL(url)]: its [hostname] and
    [pathname], or [None] when the constructor throws. *)
Definition urlToFilename (parsed : option (jsstring * jsstring))
    (url : jsstring) : jsstring :=
  match parsed with
  | Some (hostname, pathname) =>
      let host := stripWww hostname in
      let pathPart := dashSlashes (stripSlashes pathname) in
      if bool_decide (pathPart = []) then host ++ str ".md"
      else host ++ str "-" ++ pathPart ++ str ".md"
  | None => sanitize url ++ str ".md"
  end.

(** [urlToNestedPath(url, filename)] *)
Definition urlToNestedPath (parsed : option (jsstring * jsstring))
    (url filename : jsstring) : jsstring :=
  match parsed with
  | Some (hostname, pathname) =>
      let host := stripWww hostname in
      let pathPart := stripSlashes pathname in
      if bool_decide (pathPart = []) then host ++ str "/" ++ filename
      else host ++ str "/" ++ pathPart ++ str "/" ++ filename
  | None => sanitize url ++ str "/" ++ filename
  end.

(** The directory of a URL in [processUrl]:
    [urlToNestedPath(url, '').replace(/\/$/, '')]. *)
Definition dirPath (parsed : option (jsstring * jsstring)) (url : jsstring)
    : jsstring :=
  dropTrailingSlash (urlToNestedPath parsed url []).

(** The fields of [result.data] that [processUrl] looks at. *)
Record ScrapeData : Type := {
  markdown : option jsstring;
  html : option jsstring;
  rawHtml : option jsstring;
  links : option (list jsstring);     (* [Some] when it is an array *)
  images : option (list jsstring);
  summary : option jsstring;
  screenshot : option jsstring;       (* the URL of the screenshot *)
}.

Inductive FileBody : Type :=
| TextFile (content : jsstring)
| PngFile (bytes : jsstring)
| JsonFile (data : ScrapeData).       (* [JSON.stringify(result.data, null, 2)] *)

(** The formats [processUrl] saves. *)
Definition formatsToSave (options : ScrapeOptions) : list jsstring :=
  let formats := default [str "markdown"] (formats options) in
  if (istrue (Scrape.screenshot options)
      || istrue (fullPageScreenshot options))
     && negb (bool_decide (str "screenshot" ∈ formats))
  then formats ++ [str "screenshot"]
  else formats.

(** One turn of the loop [for (const fmt of formats)]: the file written,
    if any.  [fetchPng url] is the body of [fetch(url)] when the response
    is ok, [None] when it is not or when [fetch] throws. *)
Definition fileFor (data : ScrapeData) (fetchPng : jsstring → option jsstring)
    (fmt : jsstring) : option (jsstring * FileBody) :=
  if decide (fmt = str "screenshot") then
    match screenshot data with
    | Some (c :: u) =>
        match fetchPng (c :: u) with
        | Some bytes => Some (str "screenshot.png", PngFile bytes)
        | None => None
        end
    | _ => None
    end
  else if decide (fmt = str "markdown") then
    match markdown data with
    | Some (c :: m) => Some (str "index.md", TextFile (c :: m))
    | _ => None
    end
  else if decide (fmt = str "html" ∨ fmt = str "rawHtml") then
    match or_else (html data) (rawHtml data) with
    | Some (c :: h) => Some (str "index.html", TextFile (c :: h))
    | _ => None
    end
  else if decide (fmt = str "links") then
    match links data with
    | Some l => Some (str "links.txt", TextFile (JsString.join [ascii_of_nat 10] l))
    | None => None
    end
  else if decide (fmt = str "images") then
    match images data with
    | Some l => Some (str "images.txt", TextFile (JsString.join [ascii_of_nat 10] l))
    | None => None
    end
  else if decide (fmt = str "summary") then
    match summary data with
    | Some (c :: m) => Some (str "summary.md", TextFile (c :: m))
    | _ => None
    end
  else Some (str "index.json", JsonFile data).

(** [savedFiles], with what was written. *)
Definition savedFiles (options : ScrapeOptions) (data : ScrapeData)
    (fetchPng : jsstring → option jsstring) : list (jsstring * FileBody) :=
  omap (fileFor data fetchPng) (formatsToSave options).

End ScrapeFiles.

(** ** [env pull]: [FIRECRAWL_API_KEY] in a [.env] file *)

Module EnvPull.

Definition envKey : jsstring := str "FIRECRAWL_API_KEY".

Definition envLine (apiKey : jsstring) : jsstring :=
  envKey ++ str "=" ++ apiKey.

(** [lines.findIndex(f)]; [None] is [-1]. *)
Fixpoint findIndex (f : jsstring → bool) (lines : list jsstring) : option nat :=
  match lines with
  | [] => None
  | l :: ls => if f l then Some 0 else S <$> findIndex f ls
  end.

Definition isKeyLine (line : jsstring) : bool :=
  JsString.startsWith line (envKey ++ str "=").

(** [contents.endsWith('\n')] *)
Definition endsWithNewline (contents : jsstring) : bool :=
  match rev contents with
  | c :: _ => bool_decide (c = ascii_of_nat 10)
  | [] => false
  end.

Inductive Message : Type := AlreadyExists | Updated | Added | Created.

(** [handleEnvPullCommand]: [file] is the content of the env file ([None]
    when it does not exist); the result is its content afterwards and what
    is reported. *)
Definition handleEnvPullCommand (apiKey : jsstring) (overwrite : option bool)
    (file : option jsstring) : jsstring * Message :=
  match file with
  | Some contents =>
      let lines := JsString.split (ascii_of_nat 10) contents in
      match findIndex isKeyLine lines with
      | Some existingIndex =>
          if negb (Scrape.istrue overwrite) then (contents, AlreadyExists)
          else
            (JsString.join [ascii_of_nat 10]
               (<[existingIndex := envLine apiKey]> lines), Updated)
      | None =>
          let separator :=
            if endsWithNewline contents then [] else [ascii_of_nat 10] in
          (contents ++ separator ++ envLine apiKey ++ [ascii_of_nat 10], Added)
      end
  | None => (envLine apiKey ++ [ascii_of_nat 10], Created)
  end.

End EnvPull.

(** ** [src/commands/agent.ts]: waiting for an agent job *)

Module Agent.

(** What [app.getAgentStatus(jobId)] resolves to, as far as the loop looks
    at it. *)
Record AgentStatusResponse : Type := {
  success : bool;
  status : jsstring;
  error : option jsstring;
}.

(** What the [wait] branch of [executeAgent] returns. *)
Inductive WaitResult : Type :=
| Settled (success : bool) (response : AgentStatusResponse)
| TimedOut                      (* [success: false], "Timeout after ... seconds" *)
| Threw (e : Browser.Thrown)    (* caught: [success: false] with the message *)
| StillPolling.                 (* no observation left *)

(** [pollInterval ? pollInterval * 1000 : 5000] *)
Definition pollMs (pollInterval : option Z) : Z :=
  match pollInterval with
  | Some p => if bool_decide (p = 0%Z) then 5000%Z else (p * 1000)%Z
  | None => 5000%Z
  end.

(** [timeout ? timeout * 1000 : undefined] *)
Definition timeoutMs (timeout : option Z) : option Z :=
  match timeout with
  | Some t => if bool_decide (t = 0%Z) then None else Some (t * 1000)%Z
  | None => None
  end.

(** The loop [while (true)]: each observation is what one turn sees, the
    settled status call and [Date.now()] after it. *)
Fixpoint waitLoop (timeout : option Z) (startTime : Z)
    (observations : list (Browser.Settled AgentStatusResponse * Z))
    : WaitResult :=
  match observations with
  | [] => StillPolling
  | (Browser.Rejected e, _) :: _ => Threw e
  | (Browser.Resolved agentStatus, now) :: rest =>
      if bool_decide (status agentStatus = str "completed") then
        Settled (success agentStatus) agentStatus
      else if bool_decide (status agentStatus = str "failed") then
        Settled false agentStatus
      else
        match timeoutMs timeout with
        | Some ms =>
            if bool_decide (ms ≠ 0%Z) && (ms <? now - startTime)%Z
            then TimedOut
            else waitLoop timeout startTime rest
        | None => waitLoop timeout startTime rest
        end
  end.

End Agent.

(** ** [src/commands/scrape.ts]: scraping several URLs at once *)

Module MultiScrape.

(** What [handleMultiScrapeCommand] looks at in the result of a scrape;
    [content] is [result.data?.markdown || JSON.stringify(result.data)]. *)
Record Scraped : Type := {
  success : bool;
  error : jsstring;
  content : jsstring;
}.

Inductive ProgressLine : Type :=
| ErrorLine (completed total : nat) (url error : jsstring)
    (* [[c/t] Error: url - error] *)
| SavedLine (completed total : nat) (filepath : jsstring).
    (* [[c/t] Saved: filepath] *)

Definition counterOf (l : ProgressLine) : nat :=
  match l with
  | ErrorLine c _ _ _ => c
  | SavedLine c _ _ => c
  end.

Record State : Type := {
  completedCount : nat;
  errorCount : nat;
  progress : list ProgressLine;
  written : list (jsstring * jsstring);     (* path and content, oldest first *)
}.

Record Outcome : Type := {
  exitCode : option Z;            (* [None]: returns normally *)
  lines : list ProgressLine;
  files : list (jsstring * jsstring);
  succeeded : nat;                (* as printed in the summary *)
  failed : option nat;            (* the [, n failed] part, if printed *)
}.

Section WithRuntime.
Context {rt : Runtime}.
Variable parse : jsstring → option (jsstring * jsstring).   (* [new URL(url)] *)
Variable urls : list jsstring.
Variable scrape : nat → Scraped.

(** [path.join(dir, filename)] *)
Definition filepathOf (url : jsstring) : jsstring :=
  BrowserSession.path_join
    [str ".firecrawl"; ScrapeFiles.urlToFilename (parse url) url].

(** The rest of the callback of [urls.map] once the scrape at position [i]
    has settled; it runs without suspension. *)
Definition settle (st : State) (i : nat) : State :=
  let url := Scrape.urlAt urls i in
  let completed := S (completedCount st) in
  if negb (success (scrape i)) then
    {| completedCount := completed;
       errorCount := S (errorCount st);
       progress := progress st ++
         [ErrorLine completed (length urls) url (error (scrape i))];
       written := written st |}
  else
    {| completedCount := completed;
       errorCount := errorCount st;
       progress := progress st ++
         [SavedLine completed (length urls) (filepathOf url)];
       written := written st ++ [(filepathOf url, content (scrape i))] |}.

(** All scrapes are started at once; [order] lists the positions in the
    order in which their scrapes settle. *)
Definition handleMultiScrapeCommand (order : list nat) : Outcome :=
  let st :=
    fold_left settle order
      {| completedCount := 0; errorCount := 0; progress := [];
         written := [] |} in
  {| exitCode :=
       if (errorCount st =? length urls)%nat then Some 1%Z else None;
     lines := progress st;
     files := written st;
     succeeded := completedCount st - errorCount st;
     failed := if (0 <? errorCount st)%nat then Some (errorCount st)
               else None |}.

End WithRuntime.

End MultiScrape.

(** ** Authentication utilities: polling for the browser login *)

Module Auth.

Definition DEFAULT_API_URL : jsstring := str "https://api.firecrawl.dev".

(** What one status request comes to. *)
Inductive PollResponse : Type :=
| FetchThrew                    (* [fetch] or [response.json()] throws *)
| NotOk                         (* [!response.ok] *)
| Body (status : jsstring) (apiKey apiUrl : option jsstring).

(** [pollAuthStatus]: the key and the URL, or [None] for [null]. *)
Definition pollAuthStatus (response : PollResponse)
    : option (jsstring * jsstring) :=
  match response with
  | Body status apiKey apiUrl =>
      if bool_decide (status = str "complete") && truthy apiKey
      then Some (default [] apiKey,
                 default [] (or_else apiUrl (Some DEFAULT_API_URL)))
      else None
  | _ => None
  end.

Inductive AuthOutcome : Type :=
| Authenticated (apiKey apiUrl : jsstring)
| AuthTimedOut          (* rejects with "Authentication timed out. ..." *)
| StillWaiting.         (* no turn left *)

(** [waitForAuth]: each turn of [poll] reads [Date.now()] and then, within
    the time limit, sends one status request. *)
Fixpoint waitForAuth (timeoutMs startTime : Z)
    (turns : list (Z * PollResponse)) : AuthOutcome :=
  match turns with
  | [] => StillWaiting
  | (now, response) :: rest =>
      if (timeoutMs <? now - startTime)%Z then AuthTimedOut
      else
        match pollAuthStatus response with
        | Some (apiKey, apiUrl) => Authenticated apiKey apiUrl
        | None => waitForAuth timeoutMs startTime rest
        end
  end.

(** [envVarLogin], from [process.env.FIRECRAWL_API_KEY] and
    [process.env.FIRECRAWL_API_URL]. *)
Definition envVarLogin (envKey envUrl : option jsstring)
    : option (jsstring * jsstring) :=
  match envKey with
  | Some (c :: k) =>
      Some (c :: k, default [] (or_else envUrl (Some DEFAULT_API_URL)))
  | _ => None
  end.

End Auth.

(** ** [src/index.ts]: a URL as the first argument *)

Module Main.

(** [arg.startsWith('-')] *)
Definition isFlag (arg : jsstring) : bool :=
  JsString.startsWith arg (str "-").

(** The loop over [remainingArgs]: the positional formats and the other
    arguments. *)
Definition classify (remainingArgs : list jsstring)
    : list jsstring * list jsstring :=
  fold_left
    (λ (st : list jsstring * list jsstring) (arg : jsstring),
       let '(positionalFormats, otherArgs) := st in
       if isFlag arg then (positionalFormats, otherArgs ++ [arg])
       else if bool_decide (length otherArgs = 0)
       then (positionalFormats ++ [arg], otherArgs)
       else (positionalFormats, otherArgs ++ [arg]))
    remainingArgs ([], []).

(** [modifiedArgv] when the first argument is taken as a URL to scrape,
    [None] when the command line is parsed as it is.  [isUrl] and
    [normalizeUrl] come from a module that is not part of the sources;
    [args] is not empty where [main] gets here. *)
Definition modifiedArgv (isUrl : jsstring → bool)
    (normalizeUrl : jsstring → jsstring) (argv0 argv1 : jsstring)
    (args : list jsstring) : option (list jsstring) :=
  match args with
  | first :: remainingArgs =>
      if negb (isFlag first) && isUrl first then
        let '(positionalFormats, otherArgs) := classify remainingArgs in
        Some ([argv0; argv1; str "scrape"; normalizeUrl first]
              ++ positionalFormats ++ otherArgs)
      else None
  | [] => None
  end.

End Main.

(** ** [src/commands/scrape.ts]: the progress lines of the worker pool *)

Module Progress.
Import Scrape.

Definition isErrorLine (l : StatusLine) : bool :=
  match l with ErrorProgress _ _ _ _ => true | _ => false end.

Definition isSavedLine (l : StatusLine) : bool :=
  match l with SavedProgress _ _ _ => true | _ => false end.

(** The position a worker is busy with. *)
Definition position (w : Worker) : option nat :=
  match w with Scraping i | Saving i => Some i | Finished => None end.

Section Pool.
Variable urls : list jsstring.
Variable scrape : nat → ScrapeResult.

(** [1] for a worker that still has its "Saved" line to write. *)
Definition savedOwed (w : Worker) : nat :=
  match w with
  | Saving i => if scrape_success (scrape i) then 1 else 0
  | _ => 0
  end.

(** [l] is the progress line of some position of the list, in the form
    that goes with the outcome of its scrape, and its counter is between 1
    and [completed]. *)
Definition reports (completed : nat) (l : StatusLine) : Prop :=
  ∃ c i, 1 ≤ c ≤ completed ∧ i < length urls
    ∧ (scrape_success (scrape i) = false
       ∧ l = ErrorProgress c (length urls) (urlAt urls i)
                           (scrape_error (scrape i))
       ∨ scrape_success (scrape i) = true
         ∧ l = SavedProgress c (length urls) (urlAt urls i)).

(** What holds of the progress lines at every suspension. *)
Definition progressInvariant (p : Pool) : Prop :=
  length (List.filter isErrorLine (progress p)) = errorCount p
  ∧ length (List.filter isSavedLine (progress p))
    + sum_list_with savedOwed (workers p) + errorCount p
    = completedCount p
  ∧ Forall (reports (completedCount p)) (progress p)
  ∧ Forall (λ w, ∀ i, position w = Some i → i < length urls) (workers p).

End Pool.

End Progress.

(** ** Further sample values *)

Module Demo.

(** [firecrawl browser execute --bash 'ls /tmp'] *)
Definition bashOptions : Browser.BrowserExecuteOptions :=
  {| Browser.code := str "ls /tmp"; Browser.language := Some Browser.bash;
     Browser.session := None; Browser.output := None;
     Browser.json := false |}.

(** [firecrawl browser execute "click @e5"]: no language flag. *)
Definition noFlags : Cli.ExecuteFlags :=
  {| Cli.python := false; Cli.node := false; Cli.bash := false;
     Cli.session := None; Cli.output := None; Cli.json := false |}.

(** A project [.env] file that holds an older key. *)
Definition envFile : jsstring :=
  str "A=1" ++ [ascii_of_nat 10] ++ str "FIRECRAWL_API_KEY=old"
  ++ [ascii_of_nat 10] ++ str "B=2".

Definition urls : list jsstring :=
  [str "https://docs.x.com/a"; str "https://docs.x.com/b";
   str "https://docs.x.com/intro"].

(** Scrapes of which the second fails. *)
Definition scrapes (i : nat) : MultiScrape.Scraped :=
  {| MultiScrape.success := negb (i =? 1)%nat;
     MultiScrape.error := str "timeout";
     MultiScrape.content := str "# page" |}.

End Demo.

(** * Properties *)

(** ** Strings *)

Section JsStringFacts.
Import JsString.

Lemma startsWith_prefix (s p : jsstring) :
  startsWith s p = true ↔ p `prefix_of` s.
Proof.
  revert s; induction p as [|c p IH]; intros [|d s]; simpl.
  - split; [intros _; apply prefix_nil | done].
  - split; [intros _; apply prefix_nil | done].
  - split; [done | intros H; by apply prefix_nil_inv in H].
  - destruct (decide (c = d)) as [->|Hne].
    + rewrite IH. split; [apply prefix_cons | apply prefix_cons_inv_2].
    + split; [done | intros Hp; by apply prefix_cons_inv_1 in Hp].
Qed.

Lemma split_not_nil (sep : ascii) (s : jsstring) : split sep s ≠ [].
Proof.
  induction s as [|c s IH]; simpl; [done|].
  destruct (decide (c = sep)); [done|]. by destruct (split sep s).
Qed.

Lemma split_no_sep (sep : ascii) (w : jsstring) :
  sep ∉ w → split sep w = [w].
Proof.
  induction w as [|c w IH]; simpl; [done|].
  intros Hn. apply not_elem_of_cons in Hn as [Hc Hw].
  destruct (decide (c = sep)); [congruence|]. by rewrite IH.
Qed.

Lemma split_app_sep (sep : ascii) (w s : jsstring) :
  sep ∉ w → split sep (w ++ sep :: s) = w :: split sep s.
Proof.
  induction w as [|c w IH]; simpl; intros Hn.
  - by rewrite decide_True.
  - apply not_elem_of_cons in Hn as [Hc Hw].
    destruct (decide (c = sep)); [congruence|]. by rewrite IH.
Qed.

Lemma join_cons (sep w : jsstring) (ws : list jsstring) :
  ws ≠ [] → join sep (w :: ws) = w ++ sep ++ join sep ws.
Proof. by destruct ws. Qed.

Lemma join_split (sep : ascii) (s : jsstring) :
  join [sep] (split sep s) = s.
Proof.
  induction s as [|c s IH]; simpl; [done|].
  destruct (decide (c = sep)) as [->|Hne].
  - rewrite join_cons by apply split_not_nil. by rewrite IH.
  - pose proof (split_not_nil sep s) as Hnn.
    destruct (split sep s) as [|w ws] eqn:E; [done|].
    destruct ws as [|w' ws]; simpl in *; by rewrite <- IH.
Qed.

Lemma toLowerCase_app (a b : jsstring) :
  toLowerCase (a ++ b) = toLowerCase a ++ toLowerCase b.
Proof. apply fmap_app. Qed.

End JsStringFacts.

(** ** Local bash execution: the injected [--cdp] flag *)

Section BashCommand.
Import JsString.

Lemma span_app (f : ascii → bool) (a b : jsstring) :
  (∀ c, c ∈ a → f c = true) →
  (b = [] ∨ ∃ c r, b = c :: r ∧ f c = false) →
  JsString.span f (a ++ b) = (a, b).
Proof.
  intros Ha Hb. induction a as [|c a IH]; simpl.
  - destruct Hb as [->|(c & r & -> & Hc)]; simpl; [done|]. by rewrite Hc.
  - rewrite (Ha c) by left. rewrite IH; [done|].
    intros d Hd. apply Ha. by right.
Qed.

Lemma word_no_space (w : jsstring) : Spec.word w → " "%char ∉ w.
Proof. intros [_ Hw] Hin. by apply Hw in Hin. Qed.

Lemma finalCommand_unchanged (command cdpUrl : jsstring) :
  startsWith command (str "agent-browser") = false
  ∨ includes command (str "--cdp") = true →
  Browser.finalCommand command cdpUrl = command.
Proof.
  unfold Browser.finalCommand. intros [-> | ->]; [done|].
  by rewrite andb_false_r.
Qed.

Lemma finalCommand_one_token (command cdpUrl : jsstring) :
  startsWith command (str "agent-browser") = true →
  includes command (str "--cdp") = false →
  " "%char ∉ command →
  Browser.finalCommand command cdpUrl
  = command ++ str " --cdp '" ++ cdpUrl ++ str "'".
Proof.
  intros Hs Hi Hn. unfold Browser.finalCommand. rewrite Hs, Hi. simpl.
  by rewrite split_no_sep.
Qed.

Lemma finalCommand_two_words (w1 w2 rest cdpUrl : jsstring) :
  startsWith (w1 ++ str " " ++ w2 ++ rest) (str "agent-browser") = true →
  includes (w1 ++ str " " ++ w2 ++ rest) (str "--cdp") = false →
  " "%char ∉ w1 → " "%char ∉ w2 →
  (rest = [] ∨ ∃ r, rest = " "%char :: r) →
  Browser.finalCommand (w1 ++ str " " ++ w2 ++ rest) cdpUrl
  = w1 ++ str " " ++ w2 ++ str " --cdp '" ++ cdpUrl ++ str "'" ++ rest.
Proof.
  intros Hs Hi H1 H2 Hrest. unfold Browser.finalCommand. rewrite Hs, Hi.
  simpl. rewrite split_app_sep by done.
  destruct Hrest as [-> | [r ->]].
  - rewrite app_nil_r, split_no_sep by done. simpl.
    by rewrite ?app_nil_r.
  - rewrite split_app_sep by done.
    pose proof (split_not_nil " " r) as Hnn.
    pose proof (join_split " " r) as Hj.
    destruct (split " " r) as [|p ps] eqn:E; [done|].
    cbn [length Nat.min splice take drop app].
    rewrite !(join_cons _ _ (_ :: _)) by done. rewrite Hj.
    simpl. by rewrite <- !app_assoc.
Qed.

Lemma spec_finalCommand_two_words (w1 w2 rest cdpUrl : jsstring) :
  startsWith (w1 ++ str " " ++ w2 ++ rest) (str "agent-browser") = true →
  includes (w1 ++ str " " ++ w2 ++ rest) (str "--cdp") = false →
  Spec.word w1 → Spec.word w2 →
  (rest = [] ∨ ∃ r, rest = " "%char :: r) →
  Spec.finalCommand (w1 ++ str " " ++ w2 ++ rest) cdpUrl
  = Some (w1 ++ str " " ++ w2 ++ str " --cdp '" ++ cdpUrl ++ str "'" ++ rest).
Proof.
  intros Hs Hi [Hn1 H1] [Hn2 H2] Hrest. unfold Spec.finalCommand.
  rewrite Hs, Hi. simpl. unfold Spec.insertAfterTwoWords.
  rewrite span_app; first last.
  { right. by exists " "%char, (w2 ++ rest). }
  { intros c Hc. by rewrite H1. }
  destruct w2 as [|c2 w2]; [done|].
  assert (is_space c2 = false) as Hc2 by (apply H2; left).
  cbn [span app]. change (is_space " ") with true. cbn iota.
  rewrite Hc2. cbn [negb]. cbn iota.
  change (c2 :: w2 ++ rest) with ((c2 :: w2) ++ rest).
  rewrite span_app; first last.
  { destruct Hrest as [-> | [r ->]]; [by left|]. right. by exists " "%char, r. }
  { intros c Hc. by rewrite H2. }
  rewrite !bool_decide_eq_false_2; [|done|done]. simpl.
  by rewrite <- !app_assoc.
Qed.




(** With the tool name alone there are no two words to insert after; the
    flag is appended. *)
Example finalCommand_tool_name_alone :
  Browser.finalCommand (str "agent-browser") (str "wss://h/s1")
  = str "agent-browser --cdp 'wss://h/s1'"
  ∧ Spec.finalCommand (str "agent-browser") (str "wss://h/s1") = None.
Proof. split; reflexivity. Qed.

End BashCommand.

(** ** Regular expressions: the matcher computes [Matches] *)

Section RegExpFacts.
Import RegExp.
Variable ic : bool.

Lemma Matches_Cat (r1 r2 : regex) (w : jsstring) :
  Matches ic (Cat r1 r2) w ↔
  ∃ w1 w2, w = w1 ++ w2 ∧ Matches ic r1 w1 ∧ Matches ic r2 w2.
Proof.
  split.
  - inversion 1; subst. eauto.
  - intros (w1 & w2 & -> & H1 & H2). by constructor.
Qed.

Lemma Matches_Alt (r1 r2 : regex) (w : jsstring) :
  Matches ic (Alt r1 r2) w ↔ Matches ic r1 w ∨ Matches ic r2 w.
Proof.
  split.
  - inversion 1; subst; eauto.
  - intros [?|?]; [by apply MAltL | by apply MAltR].
Qed.

Lemma nullable_Matches (r : regex) :
  nullable r = true ↔ Matches ic r [].
Proof.
  induction r as [| | c | | r1 IH1 r2 IH2 | r1 IH1 r2 IH2 | r IH]; simpl.
  - split; [done | inversion 1].
  - split; [constructor | done].
  - split; [done | inversion 1].
  - split; [done | inversion 1].
  - rewrite andb_true_iff, IH1, IH2. split.
    + intros [H1 H2]. by apply (MCat ic r1 r2 [] []).
    + intros (w1 & w2 & E & H1 & H2)%Matches_Cat. symmetry in E.
      by apply app_eq_nil in E as [-> ->].
  - rewrite orb_true_iff, IH1, IH2. split.
    + intros [?|?]; [by apply MAltL | by apply MAltR].
    + inversion 1; subst; [by left | by right].
  - split; [constructor | done].
Qed.

Lemma deriv_sound (a : ascii) (r : regex) (w : jsstring) :
  Matches ic (deriv ic a r) w → Matches ic r (a :: w).
Proof.
  revert w.
  induction r as [| | c | | r1 IH1 r2 IH2 | r1 IH1 r2 IH2 | r IH];
    simpl; intros w Hm.
  - inversion Hm.
  - inversion Hm.
  - destruct (char_eq ic c a) eqn:E; inversion Hm; subst. by constructor.
  - destruct (is_line_terminator a) eqn:E; inversion Hm; subst.
    by constructor.
  - destruct (nullable r1) eqn:En.
    + inversion Hm as [| | | |? ? ? Hl|? ? ? Hr| |]; subst.
      * inversion Hl as [| | |? ? w1 w2 H1 H2| | | |]; subst.
        apply (MCat ic r1 r2 (a :: w1) w2); auto.
      * apply (MCat ic r1 r2 [] (a :: w)); [|auto].
        by apply nullable_Matches.
    + inversion Hm as [| | |? ? w1 w2 H1 H2| | | |]; subst.
      apply (MCat ic r1 r2 (a :: w1) w2); auto.
  - inversion Hm; subst; [apply MAltL | apply MAltR]; auto.
  - inversion Hm as [| | |? ? w1 w2 H1 H2| | | |]; subst.
    apply (MStarCons ic r (a :: w1) w2); auto.
Qed.

Lemma deriv_complete (a : ascii) (r : regex) (w : jsstring) :
  Matches ic r (a :: w) → Matches ic (deriv ic a r) w.
Proof.
  intros Hm. remember (a :: w) as s eqn:Es. revert w Es.
  induction Hm as [| c d Hc | d Hd | r1 r2 w1 w2 H1 IH1 H2 IH2
                   | r1 r2 w0 H1 IH1 | r1 r2 w0 H2 IH2 | r
                   | r w1 w2 H1 IH1 H2 IH2]; intros w Es; simpl.
  - done.
  - injection Es as -> <-. rewrite Hc. constructor.
  - injection Es as -> <-. rewrite Hd. constructor.
  - destruct w1 as [|b w1]; simpl in Es.
    + subst w2. apply nullable_Matches in H1. rewrite H1.
      apply MAltR. by apply IH2.
    + injection Es as -> <-.
      assert (Matches ic (Cat (deriv ic a r1) r2) (w1 ++ w2)) as Hc
        by (constructor; auto).
      destruct (nullable r1); [by apply MAltL | done].
  - apply MAltL. by apply IH1.
  - apply MAltR. by apply IH2.
  - done.
  - destruct w1 as [|b w1]; simpl in Es.
    + by apply IH2.
    + injection Es as -> <-. constructor; auto.
Qed.

Lemma matchesAtStart_spec (r : regex) (s : jsstring) :
  matchesAtStart ic r s = true ↔ ∃ w post, s = w ++ post ∧ Matches ic r w.
Proof.
  revert r. induction s as [|a s IH]; intros r; simpl.
  - rewrite orb_false_r, nullable_Matches. split.
    + intros Hm. by exists [], [].
    + intros (w & post & E & Hm). symmetry in E.
      apply app_eq_nil in E as [-> ->]. done.
  - rewrite orb_true_iff, nullable_Matches, IH. split.
    + intros [Hm | (w & post & -> & Hm)].
      * by exists [], (a :: s).
      * exists (a :: w), post. split; [done|]. by apply deriv_sound.
    + intros (w & post & E & Hm). destruct w as [|b w]; [by left|].
      injection E as <- ->. right. exists w, post. split; [done|].
      by apply deriv_complete.
Qed.

Lemma test_spec (r : regex) (s : jsstring) :
  test ic r s = true ↔
  ∃ pre w post, s = pre ++ w ++ post ∧ Matches ic r w.
Proof.
  induction s as [|a s IH]; cbn [test].
  - rewrite orb_false_r, matchesAtStart_spec. split.
    + intros (w & post & E & Hm). by exists [], w, post.
    + intros (pre & w & post & E & Hm). symmetry in E.
      apply app_eq_nil in E as [-> E]. by exists w, post.
  - rewrite orb_true_iff, matchesAtStart_spec, IH. split.
    + intros [(w & post & E & Hm) | (pre & w & post & -> & Hm)].
      * by exists [], w, post.
      * by exists (a :: pre), w, post.
    + intros (pre & w & post & E & Hm). destruct pre as [|b pre].
      * left. by exists w, post.
      * injection E as <- ->. right. by exists pre, w, post.
Qed.

Lemma Matches_Lit (p w : jsstring) :
  Matches ic (Lit p) w ↔ Forall2 (λ c d, char_eq ic c d = true) p w.
Proof.
  revert w. induction p as [|c p IH]; intros w; simpl.
  - split.
    + inversion 1. constructor.
    + inversion 1. constructor.
  - split.
    + inversion 1 as [| | |? ? w1 w2 H1 H2| | | |]; subst.
      inversion H1; subst. simpl. constructor; [done|]. by apply IH.
    + inversion 1 as [|? d ? w' Hc Hr]; subst.
      apply (MCat ic (Chr c) (Lit p) [d] w'); [by constructor|].
      by apply IH.
Qed.

Lemma Matches_Star_Dot (w : jsstring) :
  Matches ic (Star Dot) w ↔ Forall (λ c, is_line_terminator c = false) w.
Proof.
  split.
  - intros Hm. remember (Star Dot) as r eqn:Er.
    induction Hm as [| | | | | | r | r w1 w2 H1 IH1 H2 IH2]; try done.
    injection Er as ->. inversion H1; subst. constructor; [done|]. by apply IH2.
  - induction 1 as [|c w Hc Hw IH]; [constructor|].
    apply (MStarCons ic Dot [c] w); [by constructor | done].
Qed.

End RegExpFacts.

(** ** Session-expiry detection *)

Section ExpiryDetection.
Import JsString RegExp.

Ltac each_char c := destruct c as [[] [] [] [] [] [] [] []]; reflexivity.

Lemma upper_lower_char (c : ascii) :
  upper_char (lower_char c) = upper_char c.
Proof. each_char c. Qed.

Lemma lower_upper_char (c : ascii) :
  lower_char (upper_char c) = lower_char c.
Proof. each_char c. Qed.

Lemma line_terminator_lower (c : ascii) :
  is_line_terminator (lower_char c) = is_line_terminator c.
Proof. each_char c. Qed.

(** Under the [i] flag a pattern character matches a lowered character iff
    the two agree once both are lowered. *)
Lemma char_eq_lower (c d : ascii) :
  char_eq true c (lower_char d) = true ↔ lower_char d = lower_char c.
Proof.
  unfold char_eq. rewrite bool_decide_eq_true, upper_lower_char. split.
  - intros E. by rewrite <- (lower_upper_char d), <- E, lower_upper_char.
  - intros E. by rewrite <- (upper_lower_char d), E, upper_lower_char.
Qed.

Lemma literal_on_lowered (p w : jsstring) :
  Forall2 (λ c d, char_eq true c d = true) p (toLowerCase w)
  ↔ toLowerCase w = toLowerCase p.
Proof.
  revert w. induction p as [|c p IH]; intros [|d w]; simpl.
  - split; [done | constructor].
  - split; [inversion 1 | done].
  - split; [inversion 1 | done].
  - split.
    + inversion 1 as [|? ? ? ? Hc Hr]; subst.
      apply char_eq_lower in Hc. apply IH in Hr. by rewrite Hc, Hr.
    + intros E. injection E as Hc Hr. constructor.
      * by apply char_eq_lower.
      * by apply IH.
Qed.

Lemma lowered_app_inv (s a b : jsstring) :
  toLowerCase s = a ++ b →
  ∃ s1 s2, s = s1 ++ s2 ∧ toLowerCase s1 = a ∧ toLowerCase s2 = b.
Proof.
  revert a. induction s as [|c s IH]; intros a E; simpl in E.
  - symmetry in E. apply app_eq_nil in E as [-> ->]. by exists [], [].
  - destruct a as [|x a]; simpl in E.
    + exists [], (c :: s). by subst b.
    + injection E as Hx E. destruct (IH a E) as (s1 & s2 & -> & H1 & H2).
      exists (c :: s1), s2. simpl. by rewrite Hx, H1.
Qed.

Lemma test_Alt (ic : bool) (r1 r2 : regex) (s : jsstring) :
  test ic (Alt r1 r2) s = true ↔ test ic r1 s = true ∨ test ic r2 s = true.
Proof.
  rewrite !test_spec. split.
  - intros (pre & w & post & E & [Hm|Hm]%Matches_Alt);
      [left | right]; by exists pre, w, post.
  - intros [(pre & w & post & E & Hm) | (pre & w & post & E & Hm)];
      exists pre, w, post; (split; [done|]); apply Matches_Alt; auto.
Qed.

(** A literal alternative of the pattern, tested on the lowered message,
    finds the phrase in the message itself, case ignored. *)
Lemma test_literal (p msg : jsstring) :
  test true (Lit p) (toLowerCase msg) = true ↔ Spec.mentions p msg.
Proof.
  rewrite test_spec. unfold Spec.mentions. split.
  - intros (pre' & w' & post' & E & Hm).
    apply lowered_app_inv in E as (pre & rest & -> & Hpre & E).
    apply lowered_app_inv in E as (w & post & -> & Hw & Hpost).
    exists pre, w, post. split; [done|].
    apply literal_on_lowered. rewrite Hw. by apply Matches_Lit.
  - intros (pre & w & post & -> & Hw).
    exists (toLowerCase pre), (toLowerCase w), (toLowerCase post).
    rewrite !toLowerCase_app. split; [done|].
    apply Matches_Lit. by apply literal_on_lowered.
Qed.

Lemma test_session_closed (msg : jsstring) :
  test true (Cat (Lit (str "session")) (Cat (Star Dot) (Lit (str "closed"))))
       (toLowerCase msg) = true
  ↔ Spec.sessionClosedPhrase msg.
Proof.
  rewrite test_spec. unfold Spec.sessionClosedPhrase. split.
  - intros (pre' & w' & post' & E & Hm).
    apply Matches_Cat in Hm as (a & bc & -> & Ha & Hbc).
    apply Matches_Cat in Hbc as (b & c & -> & Hb & Hc).
    apply lowered_app_inv in E as (pre & rest & -> & Hpre & E).
    rewrite <- !app_assoc in E.
    apply lowered_app_inv in E as (w1 & rest1 & -> & H1 & E).
    apply lowered_app_inv in E as (mid & rest2 & -> & H2 & E).
    apply lowered_app_inv in E as (w2 & post & -> & H3 & Hpost).
    exists pre, w1, mid, w2, post. split; [done|].
    subst a b c. apply Matches_Lit, literal_on_lowered in Ha, Hc.
    split; [done|]. split; [done|].
    apply Matches_Star_Dot in Hb. unfold toLowerCase in Hb.
    apply Forall_fmap in Hb. eapply Forall_impl; [exact Hb|].
    intros c Hc'. simpl in Hc'. by rewrite line_terminator_lower in Hc'.
  - intros (pre & w1 & mid & w2 & post & -> & H1 & H2 & Hmid).
    exists (toLowerCase pre),
           (toLowerCase w1 ++ toLowerCase mid ++ toLowerCase w2),
           (toLowerCase post).
    rewrite !toLowerCase_app, <- !app_assoc. split; [done|].
    apply Matches_Cat. exists (toLowerCase w1), (toLowerCase mid ++ toLowerCase w2).
    split; [done|]. split.
    { apply Matches_Lit, literal_on_lowered. by rewrite H1. }
    apply Matches_Cat. exists (toLowerCase mid), (toLowerCase w2).
    split; [done|]. split.
    { apply Matches_Star_Dot. unfold toLowerCase. apply Forall_fmap.
      eapply Forall_impl; [exact Hmid|]. intros c Hc. simpl.
      by rewrite line_terminator_lower. }
    apply Matches_Lit, literal_on_lowered. by rewrite H2.
Qed.

(** C6: [isSessionExpiredError e] holds iff the status of [e] is 410 or
    404, or its message mentions, case ignored, "destroyed", "expired",
    "not found" or "gone", or holds "session" followed later on the same
    line by "closed".  So any error with status 404, and any error whose
    message is "Session destroyed", is classified as expired; an error
    with status 200 and message "Invalid code" is not. *)
Theorem isSessionExpiredError_spec :
  (∀ e, Browser.isSessionExpiredError e = true ↔ Spec.sessionExpired e)
  ∧ (∀ m, Browser.isSessionExpiredError (Browser.ErrorObject m (Some 404%Z)) = true)
  ∧ (∀ st, Browser.isSessionExpiredError
             (Browser.ErrorObject (str "Session destroyed") st) = true)
  ∧ Browser.isSessionExpiredError
      (Browser.ErrorObject (str "Invalid code") (Some 200%Z)) = false.
Proof.
  assert (∀ e, Browser.isSessionExpiredError e = true ↔ Spec.sessionExpired e)
    as Hspec.
  { intros e. unfold Browser.isSessionExpiredError, Spec.sessionExpired.
    unfold Browser.expiredPattern.
    destruct (bool_decide (Browser.statusOf e = Some 410%Z)) eqn:E410.
    { apply bool_decide_eq_true in E410. simpl. split; [by left | done]. }
    destruct (bool_decide (Browser.statusOf e = Some 404%Z)) eqn:E404.
    { apply bool_decide_eq_true in E404. simpl.
      split; [by right; left | done]. }
    apply bool_decide_eq_false in E410, E404. cbn [orb].
    rewrite !test_Alt, !test_literal, test_session_closed.
    tauto. }
  split; [exact Hspec|]. split; [|split].
  - intros m. apply Hspec. right. by left.
  - intros st. apply Hspec. right. right. left.
    by exists (str "Session "), (str "destroyed"), [].
  - reflexivity.
Qed.

End ExpiryDetection.

(** ** The sample runtime satisfies the JSON round trip *)

Section SampleFacts.
Import Sample.

Lemma unquote_quote (f r : jsstring) : unquote (quote f ++ r) = Some (f, r).
Proof.
  induction f as [|c f IH]; simpl; [done|].
  destruct (bool_decide (c = dquote)) eqn:Eq; simpl.
  - rewrite IH. done.
  - destruct (bool_decide (c = "\"%char)) eqn:Eb; simpl.
    + rewrite IH. done.
    + rewrite Eq, Eb, IH. done.
Qed.

Lemma stripPrefix_app (p r : jsstring) : stripPrefix p (p ++ r) = Some r.
Proof.
  unfold stripPrefix.
  assert (JsString.startsWith (p ++ r) p = true) as ->
    by (apply startsWith_prefix; by apply prefix_app_r).
  by rewrite drop_app_length.
Qed.

Lemma sample_roundtrip (s : StoredBrowserSession) :
  parse (stringify s) = Some s.
Proof.
  destruct s as [i u t]. unfold parse, stringify. cbn [id cdpUrl createdAt].
  rewrite stripPrefix_app. cbn [mbind option_bind].
  rewrite unquote_quote. cbn [mbind option_bind].
  rewrite stripPrefix_app. cbn [mbind option_bind].
  rewrite unquote_quote. cbn [mbind option_bind].
  rewrite stripPrefix_app. cbn [mbind option_bind].
  rewrite unquote_quote. cbn [mbind option_bind].
  by rewrite bool_decide_eq_true_2.
Qed.

End SampleFacts.

(** ** The session store *)

Section SessionStore.
Import BrowserSession.
Context {rt : Runtime}.

Lemma existsSync_written (fs : FileSystem) (p data : jsstring) :
  existsSync (writeFileSync fs p data) p = true.
Proof.
  unfold existsSync, writeFileSync; simpl.
  rewrite (bool_decide_eq_true_2 (is_Some _)); [apply orb_true_r|].
  rewrite lookup_insert_eq. by eexists.
Qed.

Lemma files_ensureConfigDir (fs : FileSystem) :
  files (ensureConfigDir fs) = files fs.
Proof. unfold ensureConfigDir. by destruct (existsSync fs getConfigDir). Qed.

Lemma files_saveBrowserSession (s : StoredBrowserSession) (fs : FileSystem) :
  files (saveBrowserSession s fs)
  = <[getSessionPath := JSON_stringify s]> (files fs).
Proof. unfold saveBrowserSession; simpl. by rewrite files_ensureConfigDir. Qed.

(** Clearing always leaves a store in which no session is found. *)
Lemma load_clear (fs : FileSystem) :
  loadBrowserSession (clearBrowserSession fs) = None.
Proof.
  unfold clearBrowserSession.
  destruct (existsSync fs getSessionPath) eqn:E.
  - unfold loadBrowserSession, readFileSync, unlinkSync; simpl.
    rewrite lookup_delete_eq. by case_match.
  - unfold loadBrowserSession. by rewrite E.
Qed.

Section RoundTrip.
Hypothesis JSON_roundtrip :
  ∀ s : StoredBrowserSession, JSON_parse (JSON_stringify s) = Some s.

(** What was saved last is what is loaded. *)
Lemma load_save (s : StoredBrowserSession) (fs : FileSystem) :
  loadBrowserSession (saveBrowserSession s fs) = Some s.
Proof using JSON_roundtrip.
  unfold loadBrowserSession, saveBrowserSession.
  rewrite existsSync_written. unfold readFileSync, writeFileSync; simpl.
  by rewrite lookup_insert_eq.
Qed.

(** Saving overwrites: of two saves only the second is left. *)
Lemma save_save (s1 s2 : StoredBrowserSession) (fs : FileSystem) :
  files (saveBrowserSession s2 (saveBrowserSession s1 fs))
  = files (saveBrowserSession s2 fs).
Proof. by rewrite !files_saveBrowserSession, insert_insert_eq. Qed.

(** C9: the store has one slot and the last write wins.  Saving a
    record overwrites any prior one, so after two successful launches
    [getSessionId] with no override returns the second session's id,
    the record loaded is the second one, the session file holds the
    second record only, and if the two ids differ the first id is not
    the stored one any more. *)
Theorem session_store_single_slot
    (o1 o2 : Browser.BrowserLaunchOptions) (w1 w2 : Browser.World)
    (fs : FileSystem) (id1 url1 id2 url2 : jsstring)
    (live1 live2 : option jsstring) :
  Browser.browser w1 (Browser.ttl o1) (Browser.ttlInactivity o1)
                  (Browser.stream o1)
  = Browser.Resolved (Browser.CreateOk id1 url1 live1) →
  Browser.browser w2 (Browser.ttl o2) (Browser.ttlInactivity o2)
                  (Browser.stream o2)
  = Browser.Resolved (Browser.CreateOk id2 url2 live2) →
  let fs1 := Browser.store (Browser.handleBrowserLaunch o1 w1 fs) in
  let fs2 := Browser.store (Browser.handleBrowserLaunch o2 w2 fs1) in
  let second := {| id := id2; cdpUrl := url2;
                   createdAt := Browser.now w2 |} in
  (∀ s fs0, loadBrowserSession (saveBrowserSession s fs0) = Some s)
  ∧ getSessionId None fs1 = inr id1
  ∧ getSessionId None fs2 = inr id2
  ∧ loadBrowserSession fs2 = Some second
  ∧ files fs2 = <[getSessionPath := JSON_stringify second]> (files fs)
  ∧ (id1 ≠ id2 → ∀ s, loadBrowserSession fs2 = Some s → id s ≠ id1).
Proof using JSON_roundtrip.
  intros E1 E2 fs1 fs2 second.
  assert (fs1 = saveBrowserSession
                  {| id := id1; cdpUrl := url1;
                     createdAt := Browser.now w1 |} fs) as Hfs1.
  { unfold fs1, Browser.handleBrowserLaunch. by rewrite E1. }
  assert (fs2 = saveBrowserSession second fs1) as Hfs2.
  { unfold fs2, Browser.handleBrowserLaunch. by rewrite E2. }
  split; [apply load_save|].
  split. { unfold getSessionId. by rewrite Hfs1, load_save. }
  split. { unfold getSessionId. by rewrite Hfs2, load_save. }
  split. { by rewrite Hfs2, load_save. }
  split. { by rewrite Hfs2, Hfs1, save_save, files_saveBrowserSession. }
  intros Hne s. rewrite Hfs2, load_save. intros [= <-]. simpl. congruence.
Qed.

End RoundTrip.

End SessionStore.

Lemma session_store_single_slot_witness :
  BrowserSession.getSessionId (rt := Sample.runtime) None
    (Browser.store
       (Browser.handleBrowserLaunch (rt := Sample.runtime)
          Sample.launchOptions (Sample.world (str "s2"))
          (Browser.store
             (Browser.handleBrowserLaunch (rt := Sample.runtime)
                Sample.launchOptions (Sample.world (str "s1"))
                Sample.emptyFs))))
  = inr (str "s2").
Proof.
  exact (proj1 (proj2 (proj2
           (session_store_single_slot (rt := Sample.runtime) sample_roundtrip
              Sample.launchOptions Sample.launchOptions
              (Sample.world (str "s1")) (Sample.world (str "s2"))
              Sample.emptyFs
              (str "s1") (str "wss://cdp/s1") (str "s2") (str "wss://cdp/s2")
              None None eq_refl eq_refl)))).
Defined.

(** ** Session expiry in [handleBrowserExecute] *)

Section ExpiredSession.
Import BrowserSession.
Context {rt : Runtime}.

(** The id the expiry message shows for a resolved session id. *)
Lemma expired_names_resolved (session : option jsstring) (fs : FileSystem)
    (sid : jsstring) :
  getSessionId session fs = inr sid →
  default (str "unknown")
    (or_else (or_else session (id <$> loadBrowserSession fs))
             (Some (str "unknown")))
  = if bool_decide (sid = []) then str "unknown" else sid.
Proof.
  unfold getSessionId, or_else.
  destruct session as [[|c o]|]; simpl.
  - destruct (loadBrowserSession fs) as [stored|]; [|done].
    intros [= <-]. simpl. by destruct (id stored).
  - by intros [= <-].
  - destruct (loadBrowserSession fs) as [stored|]; [|done].
    intros [= <-]. simpl. by destruct (id stored).
Qed.


End ExpiredSession.


(** ** Include/exclude path filters given as flags *)

Section FlagFilters.
Import Scrape.
Context {rt : Runtime}.

Lemma some_prefix_spec (pathname : jsstring) (ps : list jsstring) :
  existsb (λ p, JsString.startsWith pathname p) ps = true
  ↔ ∃ p, p ∈ ps ∧ p `prefix_of` pathname.
Proof.
  rewrite existsb_exists. split.
  - intros (p & Hin & Hp). exists p. split; [by apply list_elem_of_In|].
    by apply startsWith_prefix.
  - intros (p & Hin & Hp). exists p. split; [by apply list_elem_of_In|].
    by apply startsWith_prefix.
Qed.

Lemma includeKeeps_spec (inc : list jsstring) (url : jsstring) :
  includeKeeps inc url = true
  ↔ ∃ pathname p, URL_pathname url = Some pathname
                  ∧ p ∈ inc ∧ p `prefix_of` pathname.
Proof.
  unfold includeKeeps. destruct (URL_pathname url) as [pathname|].
  - rewrite some_prefix_spec. split.
    + intros (p & Hin & Hp). by exists pathname, p.
    + intros (pn & p & [= <-] & Hin & Hp). by exists p.
  - split; [done | by intros (? & ? & ? & _)].
Qed.

Lemma excludeKeeps_spec (exc : list jsstring) (url : jsstring) :
  excludeKeeps exc url = true
  ↔ ∀ pathname p, URL_pathname url = Some pathname →
                  p ∈ exc → ¬ p `prefix_of` pathname.
Proof.
  unfold excludeKeeps. destruct (URL_pathname url) as [pathname|].
  - rewrite negb_true_iff, <- not_true_iff_false, some_prefix_spec. split.
    + intros Hno pn p [= <-] Hin Hp. apply Hno. by exists p.
    + intros Hno (p & Hin & Hp). by apply (Hno pathname p).
  - split; [by intros _ ? ? ? | done].
Qed.

Lemma elem_of_List_filter (f : jsstring → bool) (l : list jsstring) (x : jsstring) :
  x ∈ List.filter f l ↔ x ∈ l ∧ f x = true.
Proof. rewrite !list_elem_of_In. apply filter_In. Qed.

Lemma sublist_List_filter (f : jsstring → bool) (l : list jsstring) :
  sublist (List.filter f l) l.
Proof.
  induction l as [|x l IH]; simpl; [done|].
  destruct (f x); [by apply sublist_skip | by apply sublist_cons].
Qed.

Lemma applyFlagFilters_elem (inc exc : option (list jsstring))
    (urls : list jsstring) (url : jsstring) :
  url ∈ applyFlagFilters inc exc urls
  ↔ url ∈ urls ∧ Spec.survives (default [] inc) (default [] exc) url.
Proof.
  unfold applyFlagFilters, Spec.survives.
  destruct exc as [[|q qs]|]; destruct inc as [[|p ps]|]; simpl;
    rewrite ?elem_of_List_filter, ?includeKeeps_spec, ?excludeKeeps_spec;
    intuition (auto; congruence).
Qed.

(** C2: with filters given as flags the wizard is skipped, and a discovered
    URL survives the filter phase iff (the include list is empty or the
    URL's path starts with at least one include prefix) and (the exclude list
    is empty or the URL's path starts with no exclude prefix); the survivors
    keep their order. *)
Theorem flag_filters_keep_survivors
    (includePaths excludePaths : option (list jsstring))
    (urls : list jsstring) :
  (∀ url,
     url ∈ applyFlagFilters includePaths excludePaths urls
     ↔ url ∈ urls
       ∧ Spec.survives (default [] includePaths) (default [] excludePaths) url)
  ∧ sublist (applyFlagFilters includePaths excludePaths urls) urls
  ∧ (∀ options allOptions inp,
       Scrape.includePaths allOptions = includePaths →
       Scrape.excludePaths allOptions = excludePaths →
       is_Some includePaths ∨ is_Some excludePaths →
       filterPhase options allOptions inp urls
       = (options, applyFlagFilters includePaths excludePaths urls)).
Proof.
  split; [|split].
  - intros url. apply applyFlagFilters_elem.
  - unfold applyFlagFilters.
    destruct excludePaths as [[|q qs]|]; destruct includePaths as [[|p ps]|];
      try done;
      repeat (etrans; [apply sublist_List_filter|]); done.
  - intros options allOptions inp Hi He Hsome. unfold filterPhase.
    assert (entersWizard options allOptions (isTTY inp) = false) as ->.
    { unfold entersWizard, hasExplicitFlags. rewrite Hi, He.
      destruct Hsome as [Hs|Hs]; rewrite (bool_decide_eq_true_2 _ Hs);
        by rewrite ?orb_true_r. }
    by rewrite Hi, He.
Qed.

(** C10: a URL string that does not parse is dropped by the include filter
    and kept by the exclude filter, whatever the prefixes; so such a URL of
    the mapped set survives the flag filters iff the include list is
    empty. *)
Theorem unparseable_url_survives_iff_no_include
    (includePaths excludePaths : option (list jsstring))
    (urls : list jsstring) (url : jsstring) :
  URL_pathname url = None →
  url ∈ urls →
  (∀ inc, includeKeeps inc url = false)
  ∧ (∀ exc, excludeKeeps exc url = true)
  ∧ (url ∈ applyFlagFilters includePaths excludePaths urls
     ↔ default [] includePaths = []).
Proof.
  intros Hnone Hin. split; [|split].
  - intros inc. unfold includeKeeps. by rewrite Hnone.
  - intros exc. unfold excludeKeeps. by rewrite Hnone.
  - rewrite applyFlagFilters_elem. unfold Spec.survives. split.
    + intros (_ & [Hi | (pn & p & Hp & _)] & _); [done | congruence].
    + intros Hi. split; [done|]. split; [by left|].
      right. intros pn p Hp. congruence.
Qed.

End FlagFilters.

Lemma flag_filters_keep_survivors_witness :
  Scrape.filterPhase (rt := Sample.runtime)
    (Sample.plainOptions None) (Sample.flags None (Some [str "/a"]))
    Sample.inputs
    [str "https://docs.x.com/a"; str "https://docs.x.com/b";
     str "https://docs.x.com/intro"]
  = (Sample.plainOptions None, [str "https://docs.x.com/a"]).
Proof.
  refine (proj2 (proj2 (flag_filters_keep_survivors (rt := Sample.runtime)
                          (Some [str "/a"]) None _))
            (Sample.plainOptions None) (Sample.flags None (Some [str "/a"]))
            Sample.inputs eq_refl eq_refl _).
  left. by eexists.
Defined.

Lemma unparseable_url_survives_iff_no_include_witness :
  str "not a url"
    ∈ Scrape.applyFlagFilters (rt := Sample.runtime) None (Some [str "/blog"])
        [str "https://docs.x.com/a"; str "not a url"].
Proof.
  apply (proj2 (proj2 (unparseable_url_survives_iff_no_include
                         (rt := Sample.runtime) None (Some [str "/blog"])
                         [str "https://docs.x.com/a"; str "not a url"]
                         (str "not a url") eq_refl
                         ltac:(right; left)))).
  reflexivity.
Defined.

(** ** The wizard gate *)

Section WizardGate.
Import Scrape.

(** Whenever the code sees explicit flags, the specification does too. *)
Lemma hasExplicitFlags_sound (options : ScrapeOptions)
    (allOptions : AllScrapeOptions) :
  hasExplicitFlags options allOptions = true →
  Spec.explicitFlags options allOptions.
Proof.
  unfold hasExplicitFlags, Spec.explicitFlags.
  rewrite !orb_true_iff, !bool_decide_eq_true.
  intros [[[[[[[Hy|Hl]|Hi]|He]|Hf]|Hs]|Hp]|Hm]; auto 10.
  left. destruct (formats options) as [[|f fs]|]; try done.
  exists f, fs. split; [done|].
  apply negb_true_iff, bool_decide_eq_false in Hf. congruence.
Qed.

(** The explicit flags the code misses are exactly the format selections
    that start with [markdown] and go on. *)
Lemma hasExplicitFlags_misses (options : ScrapeOptions)
    (allOptions : AllScrapeOptions) :
  Spec.explicitFlags options allOptions →
  hasExplicitFlags options allOptions = false →
  ∃ f fs, formats options = Some (str "markdown" :: f :: fs).
Proof.
  unfold hasExplicitFlags, Spec.explicitFlags.
  rewrite !orb_false_iff, !bool_decide_eq_false.
  intros Hspec (((((((Hy & Hl) & Hi) & He) & Hf) & Hs) & Hp) & Hm).
  destruct Hspec as [(f & fs & Ef & Hne)|[?|[?|[?|[?|[?|[?|?]]]]]]];
    try congruence; try done.
  rewrite Ef in Hf. apply negb_false_iff, bool_decide_eq_true in Hf.
  subst f. destruct fs as [|g gs]; [done|]. by exists g, gs.
Qed.

(** C4, the code at the failing input: with [--format markdown,html] and
    nothing else on a terminal, explicit flags were supplied, yet
    [hasExplicitFlags] is false, the wizard runs, and (answered with its
    default) it replaces the format selection by [markdown] alone. *)
Theorem markdown_first_formats_enter_wizard :
  Spec.explicitFlags (Sample.plainOptions (Some [str "markdown"; str "html"]))
                     (Sample.flags None None)
  ∧ hasExplicitFlags (Sample.plainOptions (Some [str "markdown"; str "html"]))
                     (Sample.flags None None) = false
  ∧ entersWizard (Sample.plainOptions (Some [str "markdown"; str "html"]))
                 (Sample.flags None None) true = true
  ∧ formats (fst (filterPhase (rt := Sample.runtime)
                    (Sample.plainOptions (Some [str "markdown"; str "html"]))
                    (Sample.flags None None)
                    (Sample.inputsWith 100 true (str "y"))
                    [str "https://docs.x.com/a"]))
    = Some [str "markdown"].
Proof.
  split; [|split; [|split]]; try reflexivity.
  left. exists (str "markdown"), [str "html"]. split; [done|]. discriminate.
Qed.

End WizardGate.

(** ** The preflight credit check *)

Section Preflight.
Import Scrape.
Context {rt : Runtime}.

(** C5: if the number of URLs to scrape exceeds the remaining credits, the
    command exits with code 1 before any scrape call is issued, and the
    message it writes states the number of URLs needed and the number of
    credits remaining (for 50 URLs and 30 credits: "Need 50, have 30"). *)
Theorem preflight_rejects_short_credits (siteUrl : jsstring)
    (options : ScrapeOptions) (allOptions : AllScrapeOptions) (inp : Inputs)
    (sched : nat → nat) (sel : Selected) (remaining : Z) :
  selectUrls siteUrl options allOptions inp = inr sel →
  credits_remaining (status inp) = Some remaining →
  (remaining < Z.of_nat (length (sel_urls sel)))%Z →
  let r := handleAllScrapeCommand siteUrl options allOptions inp sched in
  let msg := notEnoughCredits (length (sel_urls sel)) remaining in
  exitCode r = 1%Z
  ∧ scraped r = []
  ∧ stderr r = sel_stderr sel ++ [Line msg]
  ∧ msg = str "Error: Not enough credits. Need "
          ++ showNat (length (sel_urls sel)) ++ str ", have "
          ++ showZ remaining ++ str "."
  ∧ (∃ pre post, msg = pre ++ showNat (length (sel_urls sel)) ++ post)
  ∧ (∃ pre post, msg = pre ++ showZ remaining ++ post)
  ∧ notEnoughCredits 50 30
    = str "Error: Not enough credits. Need 50, have 30.".
Proof.
  intros Hsel Hcred Hlt r msg.
  assert (prepare siteUrl options allOptions inp
          = Exited 1 (sel_stderr sel ++ [Line msg])) as Hprep.
  { unfold prepare, preflight. rewrite Hsel, Hcred.
    by rewrite (proj2 (Z.ltb_lt _ _) Hlt). }
  unfold r, handleAllScrapeCommand. rewrite Hprep. simpl.
  split; [done|]. split; [done|]. split; [done|]. split; [done|].
  split; [|split]; [| |reflexivity]; unfold msg, notEnoughCredits.
  - by eexists _, _.
  - exists (str "Error: Not enough credits. Need "
            ++ showNat (length (sel_urls sel)) ++ str ", have "), (str ".").
    by rewrite <- !app_assoc.
Qed.

End Preflight.

Lemma preflight_rejects_short_credits_witness :
  Scrape.exitCode
    (Scrape.handleAllScrapeCommand (rt := Sample.runtime)
       (str "https://docs.x.com") (Sample.plainOptions None)
       (Sample.flags (Some true) None)
       (Sample.inputsWith 2 false (str "y")) (λ _, 0))
  = 1%Z.
Proof.
  refine (proj1 (preflight_rejects_short_credits (rt := Sample.runtime)
                   (str "https://docs.x.com") (Sample.plainOptions None)
                   (Sample.flags (Some true) None)
                   (Sample.inputsWith 2 false (str "y")) (λ _, 0)
                   _ 2%Z eq_refl eq_refl _)).
  vm_compute. reflexivity.
Defined.

(** ** The worker pool *)

Section PoolFacts.
Import Scrape.
Variable urls : list jsstring.
Variable scrape : nat → ScrapeResult.

Local Abbreviation K := (length urls).
Local Abbreviation step := (Scrape.step urls scrape).
Local Abbreviation resume := (Scrape.resume urls scrape).
Local Abbreviation Inv := (poolInvariant urls scrape).

Lemma sum_list_insert (g : Worker → nat) (ws : list Worker) (w : nat)
    (x y : Worker) :
  ws !! w = Some x →
  sum_list_with g (<[w := y]> ws) + g x = sum_list_with g ws + g y.
Proof.
  revert w. induction ws as [|z ws IH]; intros [|w] Hw; csimpl in *;
    try done.
  - injection Hw as ->. lia.
  - specialize (IH w Hw). lia.
Qed.

Lemma pending_sum (p : Pool) :
  pending p = sum_list_with scrapingOne (workers p).
Proof.
  unfold pending. induction (workers p) as [|w ws IH]; csimpl; [done|].
  unfold scrapingOne at 1. destruct (isScraping w); csimpl; lia.
Qed.

Lemma failuresBelow_S (n : nat) :
  failuresBelow scrape (S n) = failuresBelow scrape n + failed scrape n.
Proof.
  unfold failuresBelow. rewrite seq_S, sum_list_with_app. csimpl. lia.
Qed.

Lemma failuresBelow_le (n : nat) : failuresBelow scrape n ≤ n.
Proof.
  induction n as [|n IH]; [done|]. rewrite failuresBelow_S.
  unfold failed. destruct (scrape_success (scrape n)); lia.
Qed.

Lemma Finished_insert (ws : list Worker) (w : nat) (x : Worker) :
  Finished ∈ <[w := x]> ws → x = Finished ∨ Finished ∈ ws.
Proof.
  intros (j & Hj)%list_elem_of_lookup.
  apply list_lookup_insert_Some in Hj as [(-> & <- & _) | (_ & Hj)].
  - by left.
  - right. apply list_elem_of_lookup. by exists j.
Qed.

Lemma scrapeCalls_take (p : Pool) :
  issued p = seq 0 (urlIndex p) → urlIndex p ≤ K →
  scrapeCalls urls p = take (urlIndex p) urls.
Proof.
  unfold scrapeCalls. intros -> Hle.
  induction (urlIndex p) as [|u IH]; [done|].
  rewrite seq_S, fmap_app, IH by lia. csimpl.
  destruct (lookup_lt_is_Some_2 urls u ltac:(lia)) as [x Hx].
  rewrite (take_S_r _ _ x) by done. unfold urlAt. by rewrite Hx.
Qed.

(** *** Starting the pool *)

Lemma spawn_iter (k : nat) :
  k ≤ K →
  Nat.iter k (runWorker urls) emptyPool
  = {| urlIndex := k; completedCount := 0; errorCount := 0;
       workers := Scraping <$> seq 0 k; issued := seq 0 k; progress := [] |}.
Proof.
  induction k as [|k IH]; intros Hk; [done|].
  rewrite !seq_S, fmap_app.
  change (Nat.iter (S k) (runWorker urls) emptyPool)
    with (runWorker urls (Nat.iter k (runWorker urls) emptyPool)).
  rewrite IH by lia.
  unfold runWorker, enterLoop. cbn [urlIndex].
  by rewrite (proj2 (Nat.ltb_lt k K)) by lia.
Qed.

Lemma startPool_eq (C : nat) :
  startPool urls C
  = {| urlIndex := C `min` K; completedCount := 0; errorCount := 0;
       workers := Scraping <$> seq 0 (C `min` K);
       issued := seq 0 (C `min` K); progress := [] |}.
Proof. unfold startPool. apply spawn_iter. lia. Qed.

Lemma sum_scraping (g : Worker → nat) (f : nat → nat) (l : list nat) :
  (∀ i, g (Scraping i) = f i) →
  sum_list_with g (Scraping <$> l) = sum_list_with f l.
Proof.
  intros Hg. induction l as [|i l IH]; csimpl; [done|]. by rewrite IH, Hg.
Qed.

Lemma sum_const (c : nat) (l : list nat) :
  sum_list_with (λ _, c) l = c * length l.
Proof. induction l as [|i l IH]; csimpl; [lia|]. rewrite IH. lia. Qed.

Lemma startPool_pending (C : nat) : pending (startPool urls C) = C `min` K.
Proof.
  rewrite pending_sum, startPool_eq. csimpl.
  rewrite (sum_scraping _ (λ _, 1)), sum_const, length_seq by done. lia.
Qed.

Lemma startPool_invariant (C : nat) :
  Inv (C `min` K) (startPool urls C).
Proof.
  pose proof (startPool_pending C) as Hp. rewrite startPool_eq in *.
  unfold poolInvariant. csimpl. split; [lia|]. split; [done|].
  split; [lia|]. split.
  { unfold failuresPending, failuresBelow. by apply sum_scraping. }
  split; [lia|]. split; [by rewrite length_fmap, length_seq|].
  intros (i & Hi & _)%list_elem_of_fmap. done.
Qed.

Lemma startPool_stepsLeft (C : nat) :
  stepsLeft urls (startPool urls C) = 2 * K.
Proof.
  rewrite startPool_eq. unfold stepsLeft. csimpl.
  rewrite (sum_scraping _ (λ _, 2)), sum_const, length_seq by done. lia.
Qed.

(** *** One resumption *)

(** Back at the loop test, whatever was written to the status stream. *)
Lemma reenter_invariant (n w i u c e : nat) (ws : list Worker)
    (iss : list nat) (pr pr' : list StatusLine) (p' : Pool) :
  Inv n {| urlIndex := u; completedCount := c; errorCount := e;
           workers := ws; issued := iss; progress := pr |} →
  ws !! w = Some (Saving i) →
  (let '(q', wk) :=
     enterLoop urls {| urlIndex := u; completedCount := c; errorCount := e;
                       workers := ws; issued := iss; progress := pr' |} in
   Some (setWorkers (<[w := wk]> (workers q')) q')) = Some p' →
  Inv n p'
  ∧ S (stepsLeft urls p')
    = stepsLeft urls {| urlIndex := u; completedCount := c; errorCount := e;
                        workers := ws; issued := iss; progress := pr |}.
Proof.
  intros (Hle & Hiss & Hcomp & Herr & Hec & Hlen & Hfin) Hw.
  rewrite pending_sum in Hcomp. unfold enterLoop, failuresPending in *.
  cbn [urlIndex completedCount errorCount workers issued progress] in *.
  destruct (u <? K)%nat eqn:Hlt.
  - apply Nat.ltb_lt in Hlt. intros [= <-].
    pose proof (sum_list_insert scrapingOne _ w _ (Scraping u) Hw) as Hs.
    pose proof (sum_list_insert
                  (λ w, match w with
                        | Scraping i => failed scrape i | _ => 0 end)
                  _ w _ (Scraping u) Hw) as Hf.
    pose proof (sum_list_insert weight _ w _ (Scraping u) Hw) as Hwt.
    cbn [scrapingOne isScraping weight] in Hs, Hwt. cbv beta iota in Hf.
    unfold poolInvariant, stepsLeft, failuresPending, setWorkers.
    rewrite pending_sum.
    cbn [urlIndex completedCount errorCount workers issued progress].
    rewrite failuresBelow_S.
    split; [|lia].
    split; [lia|]. split; [by rewrite seq_S, Hiss|]. split; [lia|].
    split; [lia|]. split; [lia|]. split; [by rewrite length_insert|].
    intros [?|Hin]%Finished_insert; [done|]. specialize (Hfin Hin). lia.
  - apply Nat.ltb_ge in Hlt. intros [= <-].
    pose proof (sum_list_insert scrapingOne _ w _ Finished Hw) as Hs.
    pose proof (sum_list_insert
                  (λ w, match w with
                        | Scraping i => failed scrape i | _ => 0 end)
                  _ w _ Finished Hw) as Hf.
    pose proof (sum_list_insert weight _ w _ Finished Hw) as Hwt.
    cbn [scrapingOne isScraping weight] in Hs, Hwt. cbv beta iota in Hf.
    unfold poolInvariant, stepsLeft, failuresPending, setWorkers.
    rewrite pending_sum.
    cbn [urlIndex completedCount errorCount workers issued progress].
    split; [|lia].
    split; [lia|]. split; [done|]. split; [lia|].
    split; [lia|]. split; [lia|]. split; [by rewrite length_insert|].
    intros _. lia.
Qed.

Lemma resume_invariant (n w : nat) (p p' : Pool) :
  resume w p = Some p' → Inv n p →
  Inv n p' ∧ S (stepsLeft urls p') = stepsLeft urls p.
Proof.
  unfold Scrape.resume. intros Hres HInv.
  destruct (workers p !! w) as [[i|i|]|] eqn:Hw; try done.
  - (* the scrape of [urls[i]] settles *)
    destruct HInv as (Hle & Hiss & Hcomp & Herr & Hec & Hlen & Hfin).
    rewrite pending_sum in Hcomp. unfold failuresPending in Herr.
    injection Hres as <-.
    pose proof (sum_list_insert scrapingOne _ w _ (Saving i) Hw) as Hs.
    pose proof (sum_list_insert
                  (λ w, match w with
                        | Scraping i => failed scrape i | _ => 0 end)
                  _ w _ (Saving i) Hw) as Hf.
    pose proof (sum_list_insert weight _ w _ (Saving i) Hw) as Hwt.
    cbn [scrapingOne isScraping weight] in Hs, Hwt. cbv beta iota in Hf.
    unfold poolInvariant, stepsLeft, failuresPending.
    rewrite pending_sum.
    cbn [urlIndex completedCount errorCount workers issued progress].
    assert (failed scrape i = if scrape_success (scrape i) then 0 else 1)
      as Hfi by done.
    split; [|lia].
    split; [done|]. split; [done|]. split; [lia|]. split.
    { destruct (scrape_success (scrape i)); lia. }
    split; [destruct (scrape_success (scrape i)); lia|].
    split; [by rewrite length_insert|].
    intros [?|?]%Finished_insert; [done | auto].
  - (* back at the loop test *)
    destruct p as [u c e ws iss pr].
    cbn [urlIndex completedCount errorCount workers issued progress] in *.
    destruct (scrape_success (scrape i));
      by eapply reenter_invariant.
Qed.

(** *** Runs of the pool *)

Lemma nsteps_invariant (n k : nat) (p p' : Pool) :
  Inv n p → nsteps step k p p' →
  Inv n p' ∧ stepsLeft urls p' + k = stepsLeft urls p.
Proof.
  intros HInv Hsteps. induction Hsteps as [p | k p q r Hpq Hqr IH].
  - split; [done | lia].
  - destruct Hpq as [w p q Hres].
    destruct (resume_invariant n w p q Hres HInv) as [Hq Hm].
    destruct (IH Hq) as [Hr Hk]. split; [done | lia].
Qed.

Lemma rtc_invariant (n : nat) (p p' : Pool) :
  Inv n p → rtc step p p' → Inv n p'.
Proof.
  intros HInv [k Hk]%rtc_nsteps. by apply (nsteps_invariant n k p p').
Qed.

Lemma suspended_spec (ws : list Worker) (off w : nat) :
  w ∈ suspended ws off
  ↔ off ≤ w ∧ ∃ x, ws !! (w - off) = Some x ∧ x ≠ Finished.
Proof.
  clear urls scrape.
  revert off. induction ws as [|x ws IH]; intros off; csimpl.
  - split; [by intros ?%elem_of_nil | by intros (_ & ? & ? & _)].
  - assert (w ∈ suspended ws (S off)
            ↔ off < w ∧ ∃ y, ws !! (w - S off) = Some y ∧ y ≠ Finished)
      as IH' by (rewrite IH; done).
    assert (w ∈ match x with
                | Finished => suspended ws (S off)
                | _ => off :: suspended ws (S off)
                end
            ↔ (w = off ∧ x ≠ Finished) ∨ w ∈ suspended ws (S off)) as ->.
    { destruct x; rewrite ?elem_of_cons; intuition congruence. }
    rewrite IH'. split.
    + intros [[-> Hx] | (Hlt & y & Hy & Hne)].
      * split; [lia|]. exists x. by rewrite Nat.sub_diag.
      * split; [lia|]. exists y. split; [|done].
        replace (w - off) with (S (w - S off)) by lia. done.
    + intros (Hle & y & Hy & Hne).
      destruct (decide (w = off)) as [->|Hneq].
      * left. rewrite Nat.sub_diag in Hy. injection Hy as ->. done.
      * right. split; [lia|]. exists y. split; [|done].
        replace (w - off) with (S (w - S off)) in Hy by lia. done.
Qed.

Lemma resume_suspended (w : nat) (p : Pool) :
  w ∈ suspended (workers p) 0 ↔ is_Some (resume w p).
Proof.
  rewrite suspended_spec, Nat.sub_0_r. unfold Scrape.resume. split.
  - intros (_ & x & -> & Hx). destruct x as [i|i|]; [| |done].
    + by eexists.
    + destruct (enterLoop urls _) as [q wk]. by eexists.
  - intros [q Hq]. split; [lia|].
    destruct (workers p !! w) as [[i|i|]|]; try done; by eexists.
Qed.

Lemma terminal_suspended (p : Pool) :
  suspended (workers p) 0 = [] ↔ ∀ p', ¬ step p p'.
Proof.
  split.
  - intros Hnil p' Hstep. destruct Hstep as [w q q' Hres].
    assert (w ∈ suspended (workers q) 0) as Hin
      by (apply resume_suspended; by eexists).
    rewrite Hnil in Hin. by apply elem_of_nil in Hin.
  - intros Hterm. destruct (suspended (workers p) 0) as [|w l] eqn:E; [done|].
    assert (w ∈ suspended (workers p) 0) as Hin by (rewrite E; left).
    apply resume_suspended in Hin as [p' Hres].
    destruct (Hterm p'). by econstructor.
Qed.

Lemma suspended_nil (ws : list Worker) (off : nat) :
  suspended ws off = [] ↔ Forall (λ x, x = Finished) ws.
Proof.
  revert off. induction ws as [|x ws IH]; intros off; csimpl.
  - split; [constructor | done].
  - destruct x; try (split; [done | by inversion 1]).
    rewrite IH. split; [by constructor | by inversion 1].
Qed.

Lemma sum_finished (g : Worker → nat) (ws : list Worker) :
  g Finished = 0 → Forall (λ x, x = Finished) ws → sum_list_with g ws = 0.
Proof.
  intros Hg. induction 1 as [|x ws -> _ IH]; csimpl; [done|]. lia.
Qed.

Lemma weight_zero (ws : list Worker) :
  sum_list_with weight ws = 0 → Forall (λ x, x = Finished) ws.
Proof.
  induction ws as [|x ws IH]; csimpl; [constructor|].
  intros Hs. constructor; [destruct x; simpl in Hs; (done || lia)|].
  apply IH. lia.
Qed.

(** A pool in which no worker can continue has claimed and scraped every
    URL. *)
Lemma terminal_complete (n : nat) (p : Pool) :
  Inv n p → 0 < n ∨ K = 0 → (∀ p', ¬ step p p') →
  urlIndex p = K ∧ issued p = seq 0 K ∧ completedCount p = K
  ∧ errorCount p = failuresBelow scrape K ∧ pending p = 0.
Proof.
  intros (Hle & Hiss & Hcomp & Herr & Hec & Hlen & Hfin) Hn Hterm.
  apply terminal_suspended, suspended_nil in Hterm.
  assert (pending p = 0) as Hp
    by (rewrite pending_sum; by apply sum_finished).
  assert (failuresPending scrape (workers p) = 0) as Hf
    by (by apply sum_finished).
  assert (urlIndex p = K) as Hu.
  { destruct Hn as [Hn|Hn]; [|lia].
    destruct (workers p) as [|x ws] eqn:E; [simpl in Hlen; lia|].
    apply Forall_cons in Hterm as [-> _].
    assert (K ≤ urlIndex p) by (apply Hfin; left). lia. }
  rewrite <- Hu at 2 3 4. repeat split; [done|congruence|lia|lia|done].
Qed.

(** The event loop, with fuel for every resumption left, stops in a state
    in which no worker can continue. *)
Lemma run_reaches (n fuel : nat) (sched : nat → nat) (t : nat) (p : Pool) :
  Inv n p → stepsLeft urls p ≤ fuel →
  rtc step p (run urls scrape fuel sched t p)
  ∧ suspended (workers (run urls scrape fuel sched t p)) 0 = [].
Proof.
  revert t p. induction fuel as [|fuel IH]; intros t p HInv Hfuel.
  - simpl. split; [done|]. apply suspended_nil, weight_zero.
    unfold stepsLeft in Hfuel. lia.
  - cbn [run]. destruct (suspended (workers p) 0) as [|w0 ws] eqn:E;
      [done|].
    set (w := nth (sched t `mod` length (w0 :: ws)) (w0 :: ws) w0).
    assert (w ∈ suspended (workers p) 0) as Hin.
    { rewrite E. apply list_elem_of_In, nth_In.
      apply Nat.mod_upper_bound. done. }
    apply resume_suspended in Hin as [p' Hres]. rewrite Hres.
    destruct (resume_invariant n w p p' Hres HInv) as [HInv' Hm].
    destruct (IH (S t) p' HInv' ltac:(lia)) as [Hrtc Hnil].
    split; [|done]. eapply rtc_l; [|exact Hrtc]. by econstructor.
Qed.

End PoolFacts.

(** ** From the preflight to the execution phase *)

Section Orchestrator.
Import Scrape.
Context {rt : Runtime}.

Lemma applyLimit_nonempty (l : option Z) (urls : list jsstring) :
  urls ≠ [] → applyLimit l urls ≠ [].
Proof.
  intros Hne. unfold applyLimit. destruct l as [l|]; [|done].
  destruct (0 <? l)%Z eqn:Hl; [|done]. apply Z.ltb_lt in Hl.
  destruct (Z.to_nat l) as [|m] eqn:Em; [lia|]. by destruct urls.
Qed.

Lemma selectUrls_nonempty (siteUrl : jsstring) (options : ScrapeOptions)
    (allOptions : AllScrapeOptions) (inp : Inputs) (sel : Selected) :
  selectUrls siteUrl options allOptions inp = inr sel → sel_urls sel ≠ [].
Proof.
  unfold selectUrls.
  destruct (map_success (mapResult inp)); [|done].
  destruct (map_data (mapResult inp)) as [links|]; [|done].
  case_bool_decide; [done|].
  destruct (filterPhase options allOptions inp links) as [o urls].
  case_bool_decide; [done|]. intros [= <-]. simpl.
  by apply applyLimit_nonempty.
Qed.

Lemma confirmation_ready (allOptions : AllScrapeOptions) (inp : Inputs)
    (sel : Selected) (C0 C : nat) (urls : list jsstring)
    (opts : ScrapeOptions) (err : list StatusLine) :
  confirmation allOptions inp sel C0 = Ready urls C opts err →
  C = C0 ∧ (urls = sel_urls sel ∨ ∃ n, 0 < n ∧ urls = take n (sel_urls sel)).
Proof.
  unfold confirmation. destruct (istrue (yes allOptions)).
  { intros [= <- <- _ _]. auto. }
  destruct (parseInt (JsString.trim (answer inp))) as [n|]; simpl.
  - destruct (0 <? n)%Z eqn:Hn.
    + intros [= <- <- _ _]. split; [done|]. right. exists (Z.to_nat n).
      apply Z.ltb_lt in Hn. split; [lia | done].
    + destruct (negb _); [done|]. intros [= <- <- _ _]. auto.
  - destruct (negb _); [done|]. intros [= <- <- _ _]. auto.
Qed.

(** The execution phase starts with at least one URL and a concurrency cap
    of at least one. *)
Lemma prepare_ready (siteUrl : jsstring) (options : ScrapeOptions)
    (allOptions : AllScrapeOptions) (inp : Inputs) (urls : list jsstring)
    (C : nat) (opts : ScrapeOptions) (err : list StatusLine) :
  prepare siteUrl options allOptions inp = Ready urls C opts err →
  urls ≠ [] ∧ 0 < C
  ∧ (∀ m, concurrency_max (status inp) = Some (S m) → C = S m).
Proof.
  unfold prepare.
  destruct (selectUrls siteUrl options allOptions inp) as [[code e]|sel] eqn:Hsel;
    [done|].
  apply selectUrls_nonempty in Hsel. unfold preflight. intros Hready.
  assert (confirmation allOptions inp sel
            (maxConcurrencyOf (status inp) (sel_urls sel))
          = Ready urls C opts err) as Hconf.
  { destruct (credits_remaining (status inp)) as [remaining|]; [|done].
    by destruct (remaining <? _)%Z. }
  apply confirmation_ready in Hconf as [-> Hurls]. split; [|split].
  - destruct Hurls as [-> | (n & Hn & ->)]; [done|].
    destruct n; [lia|]. by destruct (sel_urls sel).
  - unfold maxConcurrencyOf.
    destruct (concurrency_max (status inp)) as [[|m]|]; try lia;
      destruct (sel_urls sel); simpl; (done || lia).
  - intros m Hm. unfold maxConcurrencyOf. by rewrite Hm.
Qed.


End Orchestrator.


(** ** Exit codes *)

Section ExitCodes.
Import Scrape.
Context {rt : Runtime}.

Lemma failuresBelow_all (scrape : nat → ScrapeResult) (n : nat) :
  failuresBelow scrape n = n
  ↔ ∀ i, i < n → scrape_success (scrape i) = false.
Proof.
  induction n as [|n IH].
  - split; [intros _ i Hi; lia | done].
  - rewrite failuresBelow_S. pose proof (failuresBelow_le scrape n) as Hle.
    unfold failed. split.
    + intros Hs i Hi. destruct (scrape_success (scrape n)) eqn:En; [lia|].
      destruct (decide (i = n)) as [->|Hne]; [done|].
      apply IH; lia.
    + intros Hall. rewrite (Hall n) by lia.
      assert (failuresBelow scrape n = n) as -> by (apply IH; auto with lia).
      lia.
Qed.

Lemma failuresBelow_positive (scrape : nat → ScrapeResult) (n : nat) :
  0 < failuresBelow scrape n
  ↔ ∃ i, i < n ∧ scrape_success (scrape i) = false.
Proof.
  induction n as [|n IH].
  - split; [unfold failuresBelow; simpl; lia | intros (i & Hi & _); lia].
  - rewrite failuresBelow_S. unfold failed. split.
    + intros Hpos. destruct (scrape_success (scrape n)) eqn:En.
      * destruct (proj1 IH ltac:(lia)) as (i & Hi & Hf). exists i.
        split; [lia | done].
      * exists n. split; [lia | done].
    + intros (i & Hi & Hf). destruct (decide (i = n)) as [->|Hne].
      * rewrite Hf. lia.
      * assert (0 < failuresBelow scrape n)
          by (apply IH; exists i; split; [lia | done]).
        lia.
Qed.

(** What the execution phase leaves behind, under any scheduler. *)
Lemma runPool_result (urls : list jsstring) (scrape : nat → ScrapeResult)
    (C : nat) (sched : nat → nat) :
  urls ≠ [] → 0 < C →
  let p := runPool urls scrape C sched in
  errorCount p = failuresBelow scrape (length urls)
  ∧ completedCount p = length urls
  ∧ scrapeCalls urls p = urls.
Proof.
  intros Hne HC p.
  pose proof (startPool_invariant urls scrape C) as Hstart.
  destruct (run_reaches urls scrape _ (2 * length urls) sched 0 _ Hstart)
    as [Hrtc Hnil].
  { by rewrite startPool_stepsLeft. }
  fold (runPool urls scrape C sched) in Hrtc, Hnil. fold p in Hrtc, Hnil.
  pose proof (rtc_invariant _ _ _ _ _ Hstart Hrtc) as HInv.
  pose proof (proj1 (terminal_suspended urls scrape p) Hnil) as Hterm.
  destruct (terminal_complete urls scrape _ p HInv) as (Hu & Hiss & Hc & He & _);
    [|done|].
  { left. destruct urls; [done|]. simpl. lia. }
  split; [done|]. split; [done|].
  rewrite scrapeCalls_take; [|congruence|lia]. rewrite Hu. apply firstn_all.
Qed.


End ExitCodes.


(** * Further properties of the session store and the browser commands *)

Section StoreFrame.
Import BrowserSession.
Context {rt : Runtime}.

Lemma existsSync_unlinked_twice (fs : FileSystem) (p : jsstring) :
  unlinkSync (unlinkSync fs p) p = unlinkSync fs p.
Proof. unfold unlinkSync; simpl. by rewrite delete_delete_eq. Qed.

(** Clearing forgets the session and nothing else: afterwards no session is
    loaded and [getSessionId] without an override fails; clearing twice is
    clearing once; every other file and every directory is left as it
    was. *)
Theorem clearBrowserSession_forgets_only_the_session (fs : FileSystem) :
  loadBrowserSession (clearBrowserSession fs) = None
  ∧ getSessionId None (clearBrowserSession fs) = inl no_session_message
  ∧ clearBrowserSession (clearBrowserSession fs) = clearBrowserSession fs
  ∧ dirs (clearBrowserSession fs) = dirs fs
  ∧ (∀ p, p ≠ getSessionPath →
          files (clearBrowserSession fs) !! p = files fs !! p).
Proof.
  split; [apply load_clear|]. split.
  { unfold getSessionId. by rewrite load_clear. }
  split.
  { unfold clearBrowserSession at 2 3.
    destruct (existsSync fs getSessionPath) eqn:E.
    - unfold clearBrowserSession.
      destruct (existsSync (unlinkSync fs getSessionPath) getSessionPath);
        [apply existsSync_unlinked_twice | done].
    - unfold clearBrowserSession. by rewrite E. }
  split.
  { unfold clearBrowserSession. by destruct (existsSync fs getSessionPath). }
  intros p Hp. unfold clearBrowserSession.
  destruct (existsSync fs getSessionPath); [|done].
  simpl. by rewrite lookup_delete_ne.
Qed.

Lemma existsSync_ensured (fs : FileSystem) :
  existsSync (ensureConfigDir fs) getConfigDir = true.
Proof.
  unfold ensureConfigDir. destruct (existsSync fs getConfigDir) eqn:E; [done|].
  unfold existsSync, mkdirSync; simpl.
  rewrite bool_decide_eq_true_2; [done | set_solver].
Qed.

Lemma existsSync_write_mono (fs : FileSystem) (p q data : jsstring) :
  existsSync fs q = true → existsSync (writeFileSync fs p data) q = true.
Proof.
  unfold existsSync, writeFileSync; simpl.
  rewrite !orb_true_iff, !bool_decide_eq_true. intros [Hd | Hf]; [by left|].
  right. destruct (decide (p = q)) as [->|Hne].
  - rewrite lookup_insert_eq. by eexists.
  - by rewrite lookup_insert_ne.
Qed.



(** [handleBrowserExecute] changes the store in one situation only: the
    remote path, no session override, and an error classified as expired;
    then the command exits with code 1 and the stored record is cleared.  A
    bash execution and a command that ends normally never change it. *)
Theorem handleBrowserExecute_store_frame
    (options : Browser.BrowserExecuteOptions) (w : Browser.World)
    (fs : FileSystem) :
  let out := Browser.handleBrowserExecute options w fs in
  (Browser.store out = fs
   ∨ (Browser.store out = clearBrowserSession fs
      ∧ Browser.language options ≠ Some Browser.bash
      ∧ truthy (Browser.session options) = false
      ∧ Browser.exitCode out = Some 1%Z))
  ∧ (Browser.exitCode out = None → Browser.store out = fs)
  ∧ (Browser.language options = Some Browser.bash → Browser.store out = fs).
Proof.
  intros out.
  assert (∀ e,
            Browser.store (Browser.onExecuteError options e fs) = fs
            ∨ (Browser.store (Browser.onExecuteError options e fs)
               = clearBrowserSession fs
               ∧ truthy (Browser.session options) = false)) as Herr.
  { intros e. unfold Browser.onExecuteError.
    destruct (Browser.isSessionExpiredError e); [|by left]. simpl.
    destruct (bool_decide _); simpl; [|by left].
    destruct (truthy (Browser.session options)); simpl; [by left | by right]. }
  assert (∀ e, Browser.exitCode (Browser.onExecuteError options e fs)
               = Some 1%Z) as Hexit.
  { intros e. unfold Browser.onExecuteError.
    by destruct (Browser.isSessionExpiredError e). }
  assert (Browser.store (Browser.executeBash options w fs) = fs) as Hbash.
  { unfold Browser.executeBash.
    destruct (Browser.bashSession options w fs) as [msg|sess]; [done|].
    destruct (Browser.executeBashLocally w _ sess) as [[o e] c].
    by destruct (negb (c =? 0)%Z). }
  assert (Browser.language options ≠ Some Browser.bash →
          (Browser.store (Browser.executeRemotely options w fs) = fs
           ∨ (Browser.store (Browser.executeRemotely options w fs)
              = clearBrowserSession fs
              ∧ truthy (Browser.session options) = false
              ∧ Browser.exitCode (Browser.executeRemotely options w fs)
                = Some 1%Z))
          ∧ (Browser.exitCode (Browser.executeRemotely options w fs) = None →
             Browser.store (Browser.executeRemotely options w fs) = fs))
    as Hremote.
  { intros _. unfold Browser.executeRemotely.
    destruct (getSessionId (Browser.session options) fs) as [msg|sid].
    { rewrite Hexit. split; [|done].
      destruct (Herr (Browser.ErrorObject msg None)) as [?|[? ?]]; auto. }
    destruct (Browser.browserExecute w sid _ _) as [data|e].
    - destruct (negb (Browser.success data)); simpl; auto.
    - rewrite Hexit. split; [|done].
      destruct (Herr e) as [?|[? ?]]; auto. }
  unfold out, Browser.handleBrowserExecute.
  destruct (Browser.language options) as [[| |]|] eqn:El; cbn beta iota.
  - destruct (Hremote ltac:(done)) as [Hs Hn].
    split; [|done]. destruct Hs as [?|(? & ? & ?)]; [by left | by right].
  - destruct (Hremote ltac:(done)) as [Hs Hn].
    split; [|done]. destruct Hs as [?|(? & ? & ?)]; [by left | by right].
  - rewrite Hbash. auto.
  - destruct (Hremote ltac:(done)) as [Hs Hn].
    split; [|done]. destruct Hs as [?|(? & ? & ?)]; [by left | by right].
Qed.

End StoreFrame.

(** ** Bash execution and closing a session *)

Section BashAndClose.
Import BrowserSession.
Context {rt : Runtime}.

Lemma trimStart_head (s : jsstring) (c : ascii) :
  head (JsString.trimStart s) = Some c → JsString.is_space c = false.
Proof.
  induction s as [|d s IH]; simpl; [done|].
  destruct (JsString.is_space d) eqn:E; [done|]. simpl. by intros [= <-].
Qed.

Lemma trimEnd_last (s : jsstring) (c : ascii) :
  last (Browser.trimEnd s) = Some c → JsString.is_space c = false.
Proof.
  unfold Browser.trimEnd. intros Hl. apply (trimStart_head (rev s)).
  destruct (JsString.trimStart (rev s)) as [|d l]; [done|].
  simpl in Hl. rewrite last_snoc in Hl. done.
Qed.



End BashAndClose.


(** ** The [--cdp] flag is a pure insertion *)

Section CdpInsertion.
Import JsString.

Lemma join_app (sep : jsstring) (a b : list jsstring) :
  a ≠ [] → b ≠ [] → join sep (a ++ b) = join sep a ++ sep ++ join sep b.
Proof.
  intros Ha Hb. induction a as [|w a IH]; [done|].
  destruct a as [|w' a].
  - simpl app. by rewrite join_cons.
  - change ((w :: w' :: a) ++ b) with (w :: ((w' :: a) ++ b)).
    rewrite join_cons by done. rewrite IH by done.
    rewrite (join_cons _ w (w' :: a)) by done. by rewrite <- !app_assoc.
Qed.

Lemma split_head_prefix (sep : ascii) (a s : jsstring) :
  sep ∉ a → a `prefix_of` s → ∃ w ws, split sep s = (a ++ w) :: ws.
Proof.
  intros Hn [t ->]. induction a as [|c a IH]; simpl.
  - pose proof (split_not_nil sep t). destruct (split sep t) as [|w ws]; [done|].
    by exists w, ws.
  - apply not_elem_of_cons in Hn as [Hc Ha].
    destruct (decide (c = sep)); [congruence|].
    destruct (IH Ha) as (w & ws & ->). by exists w, ws.
Qed.

Lemma includes_prefix (s p : jsstring) :
  startsWith s p = true → includes s p = true.
Proof. intros H. destruct s; simpl in *; by rewrite H. Qed.

Lemma includes_app_r (a b p : jsstring) :
  includes b p = true → includes (a ++ b) p = true.
Proof.
  intros H. induction a as [|c a IH]; [done|].
  simpl. rewrite IH. apply orb_true_r.
Qed.

Lemma includes_middle (a b p : jsstring) : includes (a ++ p ++ b) p = true.
Proof.
  apply includes_app_r, includes_prefix, startsWith_prefix. by exists b.
Qed.

(** Whatever the command, [finalCommand] either returns it as it is (it
    does not start with [agent-browser], or it already mentions [--cdp]), or
    inserts [ --cdp '<cdpUrl>'] at one place of it: nothing of the command
    is dropped or reordered, the text before the insertion still starts with
    [agent-browser], and the text after it is empty or starts with a space.
    A second application changes nothing. *)
Theorem finalCommand_is_an_insertion (command cdpUrl : jsstring) :
  ((startsWith command (str "agent-browser") = false
    ∨ includes command (str "--cdp") = true)
   ∧ Browser.finalCommand command cdpUrl = command
   ∨ (startsWith command (str "agent-browser") = true
      ∧ includes command (str "--cdp") = false
      ∧ ∃ pre post,
          command = pre ++ post
          ∧ str "agent-browser" `prefix_of` pre
          ∧ (post = [] ∨ ∃ r, post = " "%char :: r)
          ∧ Browser.finalCommand command cdpUrl
            = pre ++ str " --cdp '" ++ cdpUrl ++ str "'" ++ post))
  ∧ Browser.finalCommand (Browser.finalCommand command cdpUrl) cdpUrl
    = Browser.finalCommand command cdpUrl.
Proof.
  assert (Hmain :
    (startsWith command (str "agent-browser") = false
     ∨ includes command (str "--cdp") = true)
    ∧ Browser.finalCommand command cdpUrl = command
    ∨ (startsWith command (str "agent-browser") = true
       ∧ includes command (str "--cdp") = false
       ∧ ∃ pre post,
           command = pre ++ post
           ∧ str "agent-browser" `prefix_of` pre
           ∧ (post = [] ∨ ∃ r, post = " "%char :: r)
           ∧ Browser.finalCommand command cdpUrl
             = pre ++ str " --cdp '" ++ cdpUrl ++ str "'" ++ post)).
  { destruct (startsWith command (str "agent-browser")) eqn:Hs;
      [|left; split; [by left | apply finalCommand_unchanged; by left]].
    destruct (includes command (str "--cdp")) eqn:Hi;
      [left; split; [by right | apply finalCommand_unchanged; by right]|].
    right. split; [done|]. split; [done|].
    unfold Browser.finalCommand. rewrite Hs, Hi. cbn [andb negb].
    pose proof (join_split " " command) as Hj.
    assert (" "%char ∉ str "agent-browser") as Hsp
      by (apply (bool_decide_unpack _); vm_compute; exact I).
    destruct (split_head_prefix " " (str "agent-browser") command Hsp
                (proj1 (startsWith_prefix _ _) Hs)) as (w & ws & Hsplit).
    rewrite Hsplit in Hj |- *.
    assert (str "agent-browser" `prefix_of` str "agent-browser" ++ w) as Hp0
      by (by exists w).
    revert Hj Hp0. generalize (str "agent-browser" ++ w). intros p0 Hj Hp0.
    clear Hsplit Hs Hi.
    destruct ws as [|p1 [|p2 ps]];
      cbn [length Nat.min splice take drop app].
    - exists command, []. cbn [join] in Hj. subst p0.
      split; [by rewrite app_nil_r|]. split; [done|]. split; [by left|].
      rewrite !(join_cons _ _ (_ :: _)) by done. cbn [join].
      f_equal; simpl; by rewrite <- ?app_assoc.
    - exists command, []. rewrite (join_cons _ _ (_ :: _)) in Hj by done.
      cbn [join] in Hj. subst command.
      split; [by rewrite app_nil_r|].
      split; [by apply prefix_app_r|]. split; [by left|].
      rewrite !(join_cons _ _ (_ :: _)) by done. cbn [join].
      rewrite <- !app_assoc. do 3 f_equal; simpl; by rewrite <- ?app_assoc.
    - rewrite !(join_cons _ _ (_ :: _)) in Hj by done.
      exists (p0 ++ str " " ++ p1), (" "%char :: join (str " ") (p2 :: ps)).
      split; [by rewrite <- Hj, <- !app_assoc|].
      split; [by apply prefix_app_r|]. split; [right; by eexists|].
      rewrite !(join_cons _ _ (_ :: _)) by done.
      rewrite <- !app_assoc. do 3 f_equal; simpl; by rewrite <- ?app_assoc. }
  split; [exact Hmain|].
  destruct Hmain as [[_ H] | (_ & _ & pre & post & _ & _ & _ & ->)].
  - by rewrite !H.
  - apply finalCommand_unchanged. right.
    change (str " --cdp '" ++ cdpUrl ++ str "'" ++ post)
      with (str " " ++ str "--cdp" ++ str " '" ++ cdpUrl ++ str "'" ++ post).
    rewrite (app_assoc pre). apply includes_middle.
Qed.

End CdpInsertion.

(** ** The [browser execute] action of the command line *)

Section ExecuteAction.
Import JsString.

(** The action refuses exactly the invocations with two or more of
    [--python], [--node], [--bash].  Otherwise the language is python or
    node when that flag is set and bash in every other case; with a flag
    the code is passed on verbatim; without one the code that is passed on
    starts with [agent-browser], being the given code or the given code
    after ["agent-browser "], and prefixing it once more changes nothing. *)
Theorem executeAction_language_and_prefix
    (code : jsstring) (flags : Cli.ExecuteFlags) :
  ((∃ msg, Cli.executeAction code flags = inl msg)
   ↔ Cli.python flags && Cli.node flags
     || Cli.python flags && Cli.bash flags
     || Cli.node flags && Cli.bash flags = true)
  ∧ ∀ o, Cli.executeAction code flags = inr o →
      (Browser.language o = Some Browser.python ↔ Cli.python flags = true)
      ∧ (Browser.language o = Some Browser.node ↔ Cli.node flags = true)
      ∧ (Browser.language o = Some Browser.bash
         ↔ Cli.python flags = false ∧ Cli.node flags = false)
      ∧ (Cli.python flags || Cli.node flags || Cli.bash flags = true →
         Browser.code o = code)
      ∧ (Cli.python flags || Cli.node flags || Cli.bash flags = false →
         startsWith (Browser.code o) (str "agent-browser") = true
         ∧ (if startsWith code (str "agent-browser")
            then Browser.code o = code
            else Browser.code o = str "agent-browser " ++ code)
         ∧ Cli.finalCode (Browser.code o) flags = Browser.code o)
      ∧ Browser.session o = Cli.session flags
      ∧ Browser.output o = Cli.output flags
      ∧ Browser.json o = Cli.json flags.
Proof.
  unfold Cli.executeAction, Cli.flagCount, Cli.finalCode, Cli.languageOf.
  destruct flags as [py nd bs se ou js]; cbn [Cli.python Cli.node Cli.bash
    Cli.session Cli.output Cli.json].
  split.
  - destruct py, nd, bs; cbn; split;
      first [ done | by intros [? ?] | (intros _; by eexists) ].
  - intros o Ho.
    destruct (startsWith code (str "agent-browser")) eqn:E;
      destruct py, nd, bs; cbn in Ho; try done; injection Ho as <-;
      cbn [Browser.code Browser.language Browser.session Browser.output
           Browser.json orb andb negb]; rewrite ?E;
      repeat split; try done; try (by intros [? ?]); intros _;
      by vm_compute.
Qed.

(** Without a language flag, a command [w rest] whose first word [w] is not
    already [agent-browser ...] and that does not mention [--cdp] reaches
    the shell as [agent-browser w --cdp '<cdpUrl>' rest]: the prefix added
    by the action counts as the first of the two words after which
    [executeBashLocally] inserts the flag. *)
Theorem default_mode_inserts_cdp_after_first_word
    (w rest cdpUrl : jsstring) (flags : Cli.ExecuteFlags) :
  Cli.python flags = false → Cli.node flags = false →
  Cli.bash flags = false →
  startsWith (w ++ rest) (str "agent-browser") = false →
  includes (w ++ rest) (str "--cdp") = false →
  " "%char ∉ w →
  (rest = [] ∨ ∃ r, rest = " "%char :: r) →
  ∃ o, Cli.executeAction (w ++ rest) flags = inr o
       ∧ Browser.language o = Some Browser.bash
       ∧ Browser.finalCommand (Browser.code o) cdpUrl
         = str "agent-browser " ++ w ++ str " --cdp '" ++ cdpUrl ++ str "'"
           ++ rest.
Proof.
  intros Hpy Hnd Hbs Hs Hi Hw Hrest.
  unfold Cli.executeAction, Cli.flagCount, Cli.finalCode, Cli.languageOf.
  rewrite Hpy, Hnd, Hbs. cbn [List.filter length Nat.ltb Nat.leb andb negb].
  rewrite Hs. cbn [negb]. eexists. split; [done|]. split; [done|].
  cbn [Browser.code].
  change (str "agent-browser " ++ w ++ rest)
    with (str "agent-browser" ++ str " " ++ w ++ rest).
  change (str "agent-browser " ++ w ++ str " --cdp '" ++ cdpUrl ++ str "'" ++ rest)
    with (str "agent-browser" ++ str " " ++ w ++ str " --cdp '" ++ cdpUrl
          ++ str "'" ++ rest).
  apply finalCommand_two_words.
  - apply startsWith_prefix. by eexists.
  - change (includes (str "agent-browser" ++ str " " ++ w ++ rest) (str "--cdp"))
      with (includes (w ++ rest) (str "--cdp")). done.
  - apply (bool_decide_unpack _). vm_compute. exact I.
  - done.
  - done.
Qed.

End ExecuteAction.

Lemma default_mode_inserts_cdp_after_first_word_witness :
  ∃ o, Cli.executeAction (str "click" ++ str " @e5") Demo.noFlags = inr o
       ∧ Browser.language o = Some Browser.bash
       ∧ Browser.finalCommand (Browser.code o) (str "wss://cdp/s1")
         = str "agent-browser click --cdp 'wss://cdp/s1' @e5".
Proof.
  apply (default_mode_inserts_cdp_after_first_word
           (str "click") (str " @e5") (str "wss://cdp/s1") Demo.noFlags);
    try reflexivity.
  - apply (bool_decide_unpack _). vm_compute. exact I.
  - right. by eexists.
Defined.

(** ** The formats of a scrape request *)

Section RequestFormats.
Import Scrape ScrapeRequest.

Lemma requestFormats_elem (options : ScrapeOptions) (x : FormatOption) :
  x ∈ requestFormats options
  ↔ (∃ f l, formats options = Some l ∧ f ∈ l ∧ x = FormatName f)
    ∨ (x = FullPageScreenshot
       ∧ istrue (fullPageScreenshot options) = true)
    ∨ (x = FormatName (str "screenshot")
       ∧ istrue (fullPageScreenshot options) = false
       ∧ istrue (screenshot options) = true)
    ∨ (x = FormatName (str "markdown")
       ∧ (formats options = None ∨ formats options = Some [])
       ∧ istrue (fullPageScreenshot options) = false
       ∧ istrue (screenshot options) = false).
Proof.
  unfold requestFormats.
  destruct options as [fo sc fp om];
    cbn [formats screenshot fullPageScreenshot].
  assert (Hne : ∀ (l : list FormatOption) y, bool_decide (l ++ [y] = []) = false).
  { intros l y. apply bool_decide_eq_false_2. by destruct l. }
  set (named := match fo with
                | Some (f :: fs) => FormatName <$> f :: fs
                | _ => []
                end).
  assert (Hnamed : ∀ y, y ∈ named
            ↔ ∃ f l, fo = Some l ∧ f ∈ l ∧ y = FormatName f).
  { intros y. destruct fo as [[|f fs]|]; subst named.
    - split; [by intros ?%elem_of_nil|].
      intros (f & l & [= <-] & H & _). by apply elem_of_nil in H.
    - rewrite list_elem_of_fmap. split.
      + intros (g & -> & Hg). by exists g, (f :: fs).
      + intros (g & l & [= <-] & Hg & ->). by exists g.
    - split; [by intros ?%elem_of_nil | by intros (f & l & ? & _)]. }
  assert (Hnil : named = [] ↔ fo = None ∨ fo = Some []).
  { destruct fo as [[|f fs]|]; subst named; naive_solver. }
  clearbody named.
  destruct (istrue fp); [|destruct (istrue sc)]; cbn [andb].
  - rewrite Hne.
    rewrite elem_of_app, list_elem_of_singleton, Hnamed. naive_solver.
  - destruct (decide (FormatName (str "screenshot") ∈ named)) as [Hin|Hin];
      [rewrite (bool_decide_eq_true_2 _ Hin)
      |rewrite (bool_decide_eq_false_2 _ Hin)]; cbn [negb].
    + rewrite bool_decide_eq_false_2
        by (intros ->; by apply elem_of_nil in Hin).
      rewrite Hnamed. apply Hnamed in Hin. naive_solver.
    + rewrite Hne.
      rewrite elem_of_app, list_elem_of_singleton, Hnamed. naive_solver.
  - case_bool_decide as Hn.
    + rewrite list_elem_of_singleton.
      destruct Hnil as [Hfo _]. specialize (Hfo Hn). split.
      * intros ->. by do 3 right.
      * intros [(f & l & Hl & Hf & ->) | [[_ ?] | [(_ & _ & ?) | [-> _]]]];
          try done.
        assert (FormatName f ∈ named) as Hin by (apply Hnamed; eauto).
        rewrite Hn in Hin. by apply elem_of_nil in Hin.
    + rewrite Hnamed. naive_solver.
Qed.

Lemma effectiveFormats_elem (options : ScrapeOptions) (f : jsstring) :
  f ∈ effectiveFormats options
  ↔ (∃ l, formats options = Some l ∧ f ∈ l)
    ∨ (f = str "markdown"
       ∧ (formats options = None ∨ formats options = Some []))
    ∨ (f = str "screenshot" ∧ istrue (screenshot options) = true).
Proof.
  unfold effectiveFormats.
  destruct options as [fo sc fp om]; cbn [formats screenshot].
  set (eff := match fo with
              | Some (f :: fs) => f :: fs
              | _ => [str "markdown"]
              end).
  assert (Heff : ∀ y, y ∈ eff
            ↔ (∃ l, fo = Some l ∧ y ∈ l)
              ∨ (y = str "markdown" ∧ (fo = None ∨ fo = Some []))).
  { intros y. destruct fo as [[|g gs]|]; subst eff.
    - rewrite list_elem_of_singleton. split; [naive_solver|].
      intros [(l & [= <-] & H) | [-> _]]; [by apply elem_of_nil in H | done].
    - split; [intros H; left; by eexists|].
      intros [(l & [= <-] & H) | [_ [?|?]]]; done.
    - rewrite list_elem_of_singleton. naive_solver. }
  clearbody eff.
  destruct (istrue sc); cbn [andb].
  - destruct (decide (str "screenshot" ∈ eff)) as [Hin|Hin];
      [rewrite (bool_decide_eq_true_2 _ Hin)
      |rewrite (bool_decide_eq_false_2 _ Hin)]; cbn [negb].
    + rewrite Heff. apply Heff in Hin. naive_solver.
    + rewrite elem_of_app, list_elem_of_singleton, Heff. naive_solver.
  - rewrite Heff. naive_solver.
Qed.

(** [executeScrape] never sends an empty list of formats, and the list holds
    exactly: the formats named by the options; the full-page screenshot
    object when [fullPageScreenshot] is set; the name [screenshot] when
    [screenshot] is set and [fullPageScreenshot] is not; and [markdown]
    when nothing at all was asked for. *)
Theorem requestFormats_membership (options : ScrapeOptions) (x : FormatOption) :
  requestFormats options ≠ []
  ∧ (x ∈ requestFormats options
     ↔ (∃ f l, formats options = Some l ∧ f ∈ l ∧ x = FormatName f)
       ∨ (x = FullPageScreenshot
          ∧ istrue (fullPageScreenshot options) = true)
       ∨ (x = FormatName (str "screenshot")
          ∧ istrue (fullPageScreenshot options) = false
          ∧ istrue (screenshot options) = true)
       ∨ (x = FormatName (str "markdown")
          ∧ (formats options = None ∨ formats options = Some [])
          ∧ istrue (fullPageScreenshot options) = false
          ∧ istrue (screenshot options) = false)).
Proof.
  split; [|apply requestFormats_elem].
  unfold requestFormats. by case_bool_decide.
Qed.

(** The formats [handleScrapeCommand] hands to the output handler cover
    every format name that [executeScrape] requested.  They go beyond the
    request in two cases only: [markdown] is listed although no format was
    named and a screenshot flag replaced the default, and [screenshot] is
    listed by name although the request holds the full-page object. *)
Theorem effectiveFormats_cover_the_request
    (options : ScrapeOptions) (f : jsstring) :
  (FormatName f ∈ requestFormats options → f ∈ effectiveFormats options)
  ∧ (f ∈ effectiveFormats options →
     FormatName f ∈ requestFormats options
     ∨ (f = str "markdown"
        ∧ (formats options = None ∨ formats options = Some [])
        ∧ (istrue (screenshot options) = true
           ∨ istrue (fullPageScreenshot options) = true))
     ∨ (f = str "screenshot"
        ∧ istrue (fullPageScreenshot options) = true
        ∧ istrue (screenshot options) = true)).
Proof.
  rewrite requestFormats_elem, effectiveFormats_elem.
  destruct (istrue (screenshot options)),
           (istrue (fullPageScreenshot options)); naive_solver.
Qed.

End RequestFormats.

(** ** The wizard: top-level paths and answers *)

Section Wizard.
Import Scrape.
Context {rt : Runtime}.

Lemma insertByCount_perm (x : jsstring * nat) (l : list (jsstring * nat)) :
  insertByCount x l ≡ₚ x :: l.
Proof.
  induction l as [|y l IH]; simpl; [done|].
  destruct (snd y <=? snd x)%nat; [done|]. rewrite IH. apply Permutation_swap.
Qed.

Lemma sortByCount_perm (l : list (jsstring * nat)) : sortByCount l ≡ₚ l.
Proof.
  induction l as [|x l IH]; [done|].
  unfold sortByCount in *. simpl. rewrite insertByCount_perm. by f_equiv.
Qed.

Lemma insertByCount_sorted (x : jsstring * nat) (l : list (jsstring * nat)) :
  StronglySorted (λ a b, snd b ≤ snd a) l →
  StronglySorted (λ a b, snd b ≤ snd a) (insertByCount x l).
Proof.
  induction l as [|y l IH]; simpl; intros Hs.
  - by repeat constructor.
  - apply StronglySorted_inv in Hs as [Hl Hy].
    destruct (snd y <=? snd x)%nat eqn:E.
    + apply Nat.leb_le in E. constructor; [by constructor|].
      constructor; [done|].
      eapply Forall_impl; [exact Hy|]. simpl. intros z Hz. lia.
    + apply Nat.leb_gt in E. constructor; [by apply IH|].
      rewrite insertByCount_perm. constructor; [lia | done].
Qed.

Lemma sortByCount_sorted (l : list (jsstring * nat)) :
  StronglySorted (λ a b, snd b ≤ snd a) (sortByCount l).
Proof.
  induction l as [|x l IH]; [constructor|].
  unfold sortByCount in *. simpl. by apply insertByCount_sorted.
Qed.

Lemma bump_keys (s : jsstring) (counts : list (jsstring * nat)) :
  (bump s counts).*1
  = if decide (s ∈ counts.*1) then counts.*1 else counts.*1 ++ [s].
Proof.
  induction counts as [|[k c] rest IH]; csimpl.
  - first [done | (rewrite decide_False; [done | by intros ?%elem_of_nil])].
  - destruct (decide (k = s)) as [->|Hne]; csimpl.
    + rewrite decide_True; [done | by left].
    + rewrite IH. destruct (decide (s ∈ rest.*1)) as [Hin|Hin].
      * rewrite decide_True; [done | by right].
      * rewrite decide_False; [done|].
        intros [?|?]%elem_of_cons; congruence.
Qed.

Lemma bump_NoDup (s : jsstring) (counts : list (jsstring * nat)) :
  NoDup counts.*1 → NoDup (bump s counts).*1.
Proof.
  intros Hnd. rewrite bump_keys. case_decide; [done|].
  apply NoDup_app. split; [done|]. split; [|apply NoDup_singleton].
  intros x Hx ->%list_elem_of_singleton. done.
Qed.

Lemma bump_elem (s seg : jsstring) (n : nat)
    (counts : list (jsstring * nat)) :
  NoDup counts.*1 →
  (seg, n) ∈ bump s counts
  ↔ (seg ≠ s ∧ (seg, n) ∈ counts)
    ∨ (seg = s ∧ ((∃ m, (s, m) ∈ counts ∧ n = S m)
                  ∨ (s ∉ counts.*1 ∧ n = 1))).
Proof.
  induction counts as [|[k c] rest IH]; simpl; intros Hnd.
  - rewrite list_elem_of_singleton. split.
    + intros [= -> ->]. right. split; [done|]. right.
      split; [by intros ?%elem_of_nil | done].
    + intros [[_ H%elem_of_nil] | [-> [(m & H%elem_of_nil & _) | [_ ->]]]];
        done.
  - apply NoDup_cons in Hnd as [Hk Hnd]. specialize (IH Hnd).
    assert (∀ m, (k, m) ∉ rest) as Hkm.
    { intros m Hm. apply Hk. apply list_elem_of_fmap. by exists (k, m). }
    destruct (decide (k = s)) as [->|Hne].
    + rewrite elem_of_cons. split.
      * intros [[= -> ->] | Hin].
        -- right. split; [done|]. left. exists c. split; [by left | done].
        -- left. split; [|by right]. intros ->. by apply Hkm in Hin.
      * intros [[Hs Hin] | [-> [(m & Hm & ->) | [Hn _]]]].
        -- apply elem_of_cons in Hin as [[= ? ?] | Hin]; [done | by right].
        -- apply elem_of_cons in Hm as [[= ->] | Hm]; [by left|].
           by apply Hkm in Hm.
        -- exfalso. apply Hn. by left.
    + rewrite elem_of_cons, IH. split.
      * intros [[= -> ->] | [[Hs Hin] | [-> [(m & Hin & ->) | [Hn ->]]]]].
        -- left. split; [done | by left].
        -- left. split; [done | by right].
        -- right. split; [done|]. left. exists m. split; [by right | done].
        -- right. split; [done|]. right. split; [|done].
           intros [?|?]%elem_of_cons; [congruence | by apply Hn].
      * intros [[Hs Hin] | [-> [(m & Hm & ->) | [Hn ->]]]].
        -- apply elem_of_cons in Hin as [Heq | Hin]; [by left|].
           right. by left.
        -- apply elem_of_cons in Hm as [[= ? ?] | Hm]; [congruence|].
           right. right. split; [done|]. left. by exists m.
        -- right. right. split; [done|]. right. split; [|done].
           intros Hin. apply Hn. by right.
Qed.

Lemma counts_fold (urls processed : list jsstring)
    (counts : list (jsstring * nat)) :
  NoDup counts.*1 →
  (∀ seg n, (seg, n) ∈ counts
     ↔ 0 < n
       ∧ n = length (filter (λ u, topSegment u = Some seg) processed)) →
  NoDup (fold_left (λ counts url,
                      match topSegment url with
                      | Some segment => bump segment counts
                      | None => counts
                      end) urls counts).*1
  ∧ ∀ seg n,
      (seg, n) ∈ fold_left (λ counts url,
                              match topSegment url with
                              | Some segment => bump segment counts
                              | None => counts
                              end) urls counts
      ↔ 0 < n
        ∧ n = length (filter (λ u, topSegment u = Some seg)
                        (processed ++ urls)).
Proof.
  revert processed counts.
  induction urls as [|u urls IH]; intros processed counts Hnd Hc.
  { simpl. by rewrite app_nil_r. }
  cbn [fold_left].
  replace (processed ++ u :: urls) with ((processed ++ [u]) ++ urls)
    by (by rewrite <- app_assoc).
  apply IH.
  { destruct (topSegment u); [by apply bump_NoDup | done]. }
  intros seg n. rewrite filter_app, length_app, filter_cons, filter_nil.
  destruct (topSegment u) as [s|] eqn:Et.
  - rewrite bump_elem by done.
    destruct (decide (seg = s)) as [->|Hne].
    + rewrite decide_True by done. cbn [length]. split.
      * intros [[? _] | [_ [(m & Hm & ->) | [Hn ->]]]]; [done| |].
        -- apply Hc in Hm as [_ <-]. lia.
        -- split; [lia|].
           destruct (length (filter (λ u0, topSegment u0 = Some s) processed))
             as [|k] eqn:Ek; [done|].
           exfalso. apply Hn. apply list_elem_of_fmap.
           exists (s, S k). split; [done|]. apply Hc. split; [lia | done].
      * intros [Hpos ->]. right. split; [done|].
        destruct (length (filter (λ u0, topSegment u0 = Some s) processed))
          as [|k] eqn:Ek.
        -- right. split; [|done].
           intros ([s' m] & Hs & Hm)%list_elem_of_fmap. simpl in Hs. subst s'.
           apply Hc in Hm. lia.
        -- left. exists (S k). split; [|lia]. apply Hc. split; [lia | done].
    + rewrite decide_False by congruence. cbn [length].
      rewrite Nat.add_0_r, Hc. naive_solver.
  - rewrite decide_False by done. cbn [length]. by rewrite Nat.add_0_r.
Qed.


Lemma formatChoices_fold (choices : list jsstring) (o : ScrapeOptions)
    (acc : list ScrapeFormat) (o' : ScrapeOptions) (fmts : list ScrapeFormat) :
  fold_left
    (λ (st : ScrapeOptions * list ScrapeFormat) (choice : jsstring),
       let '(o, fmts) := st in
       if decide (choice = str "fullPageScreenshot") then
         ({| formats := formats o; screenshot := screenshot o;
             fullPageScreenshot := Some true;
             onlyMainContent := onlyMainContent o |}, fmts)
       else if decide (choice = str "screenshot") then
         ({| formats := formats o; screenshot := Some true;
             fullPageScreenshot := fullPageScreenshot o;
             onlyMainContent := onlyMainContent o |}, fmts)
       else (o, fmts ++ [choice])) choices (o, acc) = (o', fmts) →
  formats o' = formats o
  ∧ onlyMainContent o' = onlyMainContent o
  ∧ screenshot o'
    = (if decide (str "screenshot" ∈ choices) then Some true
       else screenshot o)
  ∧ fullPageScreenshot o'
    = (if decide (str "fullPageScreenshot" ∈ choices) then Some true
       else fullPageScreenshot o)
  ∧ fmts = acc ++ filter (λ c, c ≠ str "fullPageScreenshot"
                               ∧ c ≠ str "screenshot") choices.
Proof.
  revert o acc. induction choices as [|c choices IH]; intros o acc.
  { intros [= <- <-]. rewrite app_nil_r. by repeat split. }
  assert (Hmem : ∀ (x : jsstring) (A : Type) (a b : A),
            (if decide (x ∈ c :: choices) then a else b)
            = if decide (x = c) then a
              else if decide (x ∈ choices) then a else b).
  { intros x A a b. destruct (decide (x = c)) as [->|Hne].
    - rewrite decide_True; [done | by left].
    - destruct (decide (x ∈ choices)) as [Hin|Hin].
      + rewrite decide_True; [done | by right].
      + rewrite decide_False; [done|].
        intros [?|?]%elem_of_cons; done. }
  cbn [fold_left]. rewrite filter_cons, !Hmem.
  destruct (decide (c = str "fullPageScreenshot")) as [->|Hf].
  - intros H. apply IH in H as (H1 & H2 & H3 & H4 & H5). clear IH.
    rewrite (decide_False (P := _ ∧ _)) by (intros [? _]; done).
    rewrite (decide_False (P := str "screenshot" = _)) by done.
    rewrite (decide_True (P := str "fullPageScreenshot" = _)) by done.
    cbn [formats screenshot fullPageScreenshot onlyMainContent] in *.
    rewrite H1, H2, H3, H4, H5, <- ?app_assoc. clear H1 H2 H3 H4 H5.
    repeat split; try done; by case_match.
  - destruct (decide (c = str "screenshot")) as [->|Hs].
    + intros H. apply IH in H as (H1 & H2 & H3 & H4 & H5). clear IH.
      rewrite (decide_False (P := _ ∧ _)) by (intros [_ ?]; done).
      rewrite (decide_True (P := str "screenshot" = _)) by done.
      rewrite (decide_False (P := str "fullPageScreenshot" = _)) by done.
      cbn [formats screenshot fullPageScreenshot onlyMainContent] in *.
      rewrite H1, H2, H3, H4, H5, <- ?app_assoc. clear H1 H2 H3 H4 H5.
      repeat split; try done; by case_match.
    + intros H. apply IH in H as (H1 & H2 & H3 & H4 & H5). clear IH.
      rewrite (decide_True (P := _ ∧ _)) by done.
      rewrite (decide_False (P := str "screenshot" = _)) by done.
      rewrite (decide_False (P := str "fullPageScreenshot" = _)) by done.
      cbn [formats screenshot fullPageScreenshot onlyMainContent] in *.
      rewrite H1, H2, H3, H4, H5, <- ?app_assoc. clear H1 H2 H3 H4 H5.
      repeat split; try done; by case_match.
Qed.

(** What the wizard returns, in closed form: the two screenshot flags are
    switched on by their choices and never off; the named formats are the
    other choices in the order chosen, [markdown] standing in when nothing
    at all was chosen; afterwards some format or screenshot is always
    requested.  The URL list is a sublist of the one given, narrowed only
    when there are at least two top paths and some were chosen, and of
    [allOptions] only [includePaths] can change. *)
Theorem runWizard_applies_the_answers (urls : list jsstring)
    (options : ScrapeOptions) (allOptions : AllScrapeOptions)
    (ans : WizardAnswers) :
  let '(options', allOptions', urls') :=
    runWizard urls options allOptions ans in
  let named :=
    filter (λ c, c ≠ str "fullPageScreenshot" ∧ c ≠ str "screenshot")
           (formatChoices ans) in
  screenshot options'
  = (if decide (str "screenshot" ∈ formatChoices ans) then Some true
     else screenshot options)
  ∧ fullPageScreenshot options'
    = (if decide (str "fullPageScreenshot" ∈ formatChoices ans)
       then Some true else fullPageScreenshot options)
  ∧ onlyMainContent options'
    = (if mainContent ans then Some true else onlyMainContent options)
  ∧ formats options'
    = (if decide (named = [])
       then if istrue (screenshot options')
               || istrue (fullPageScreenshot options')
            then formats options else Some [str "markdown"]
       else Some named)
  ∧ ((∃ f fs, formats options' = Some (f :: fs))
     ∨ istrue (screenshot options') = true
     ∨ istrue (fullPageScreenshot options') = true)
  ∧ urls' `sublist_of` urls
  ∧ limit allOptions' = limit allOptions
  ∧ yes allOptions' = yes allOptions
  ∧ search allOptions' = search allOptions
  ∧ excludePaths allOptions' = excludePaths allOptions
  ∧ allowSubdomains allOptions' = allowSubdomains allOptions
  ∧ (includePaths allOptions' = includePaths allOptions ∧ urls' = urls
     ∨ pathChoices ans ≠ []
       ∧ 1 < length (getTopPaths urls)
       ∧ includePaths allOptions' = Some (pathChoices ans)
       ∧ urls' = List.filter (includeKeeps (pathChoices ans)) urls).
Proof.
  unfold runWizard.
  destruct (fold_left _ (formatChoices ans) (options, [])) as [o1 fmts]
    eqn:Efold.
  apply formatChoices_fold in Efold as (H1 & H2 & H3 & H4 & H5).
  rewrite app_nil_l in H5. rewrite <- H5, <- H3, <- H4. clear H3 H4 H5.
  set (o2 := if bool_decide (_ = []) then o1 else _).
  set (o3 := if mainContent ans then _ else o2).
  assert (screenshot o3 = screenshot o1
          ∧ fullPageScreenshot o3 = fullPageScreenshot o1
          ∧ onlyMainContent o3
            = (if mainContent ans then Some true else onlyMainContent options)
          ∧ formats o3 = formats o2) as (E1 & E2 & E3 & E4).
  { subst o3 o2. destruct (mainContent ans);
      repeat case_bool_decide; by rewrite <- ?H2. }
  assert (formats o2
          = (if decide (fmts = [])
             then if istrue (screenshot o1) || istrue (fullPageScreenshot o1)
                  then formats options else Some [str "markdown"]
             else Some fmts)) as E5.
  { subst o2. destruct (decide (fmts = [])) as [->|Hne].
    - rewrite (bool_decide_eq_true_2 ([] = [])) by done.
      destruct (istrue (screenshot o1)), (istrue (fullPageScreenshot o1));
        cbn [andb negb orb]; try done.
    - rewrite (bool_decide_eq_false_2 (fmts = [])) by done. cbn [andb].
      by rewrite bool_decide_eq_false_2. }
  assert ((∃ f fs, formats o3 = Some (f :: fs))
          ∨ istrue (screenshot o3) = true
          ∨ istrue (fullPageScreenshot o3) = true) as Hsome.
  { rewrite E1, E2, E4, E5. destruct (decide (fmts = [])) as [->|Hne].
    - destruct (istrue (screenshot o1)); [by auto|].
      destruct (istrue (fullPageScreenshot o1)); [by auto|].
      left. by eexists _, _.
    - left. destruct fmts as [|f fs]; [done|]. by eexists _, _. }
  clearbody o3 o2.
  destruct ((1 <? length (getTopPaths urls))%nat
            && negb (bool_decide (pathChoices ans = []))) eqn:Epaths;
    cbn [limit yes search includePaths excludePaths allowSubdomains];
    rewrite E1, E2, E3, E4, E5 in *.
  - apply andb_true_iff in Epaths as [Hlen Hne].
    apply Nat.ltb_lt in Hlen. apply negb_true_iff in Hne.
    apply bool_decide_eq_false in Hne.
    repeat split; try done; [apply sublist_List_filter | by right].
  - repeat split; try done. by left.
Qed.

End Wizard.

(** ** What reaches the execution phase *)

Section Selection.
Import Scrape.
Context {rt : Runtime}.

Lemma runWizard_urls (urls : list jsstring) (options : ScrapeOptions)
    (allOptions : AllScrapeOptions) (ans : WizardAnswers) :
  (runWizard urls options allOptions ans).2 `sublist_of` urls.
Proof.
  unfold runWizard. destruct (fold_left _ _ _) as [o1 fmts].
  destruct (_ && _); cbn [snd]; [apply sublist_List_filter | done].
Qed.

Lemma applyFlagFilters_sublist (inc exc : option (list jsstring))
    (urls : list jsstring) :
  applyFlagFilters inc exc urls `sublist_of` urls.
Proof.
  unfold applyFlagFilters.
  destruct inc as [[|p ps]|], exc as [[|q qs]|];
    repeat (etrans; [apply sublist_List_filter|]); done.
Qed.

Lemma filterPhase_sublist (options : ScrapeOptions)
    (allOptions : AllScrapeOptions) (inp : Inputs) (links : list jsstring) :
  (filterPhase options allOptions inp links).2 `sublist_of` links.
Proof.
  unfold filterPhase. destruct (entersWizard _ _ _).
  - pose proof (runWizard_urls links options allOptions (wizardAnswers inp)).
    by destruct (runWizard _ _ _ _) as [[o a] u].
  - apply applyFlagFilters_sublist.
Qed.

Lemma applyLimit_sublist (l : option Z) (urls : list jsstring) :
  applyLimit l urls `sublist_of` urls
  ∧ ∀ n, l = Some n → (0 < n)%Z → (Z.of_nat (length (applyLimit l urls)) ≤ n)%Z.
Proof.
  unfold applyLimit. destruct l as [n|]; [|done].
  destruct (0 <? n)%Z eqn:E.
  - split; [apply sublist_take|]. intros ? [= <-] Hn.
    rewrite length_take. lia.
  - apply Z.ltb_ge in E. split; [done|]. intros ? [= <-] Hn. lia.
Qed.

Lemma selectUrls_sublist (siteUrl : jsstring) (options : ScrapeOptions)
    (allOptions : AllScrapeOptions) (inp : Inputs) (sel : Selected) :
  selectUrls siteUrl options allOptions inp = inr sel →
  ∃ links, map_success (mapResult inp) = true
    ∧ map_data (mapResult inp) = Some links
    ∧ sel_urls sel `sublist_of` links
    ∧ ∀ n, limit allOptions = Some n → (0 < n)%Z →
           (Z.of_nat (length (sel_urls sel)) ≤ n)%Z.
Proof.
  unfold selectUrls.
  destruct (map_success (mapResult inp)); [|done].
  destruct (map_data (mapResult inp)) as [links|]; [|done].
  case_bool_decide; [done|].
  pose proof (filterPhase_sublist options allOptions inp links) as Hsub.
  destruct (filterPhase options allOptions inp links) as [o urls].
  case_bool_decide; [done|]. intros [= <-]. cbn [sel_urls].
  exists links. split; [done|]. split; [done|].
  destruct (applyLimit_sublist (limit allOptions) urls) as [Hs Hl].
  split; [by etrans | done].
Qed.


End Selection.

(** ** The progress lines of the worker pool *)

Section ProgressLines.
Import Scrape Progress.
Variable urls : list jsstring.
Variable scrape : nat → ScrapeResult.

Local Abbreviation K := (length urls).
Local Abbreviation step := (Scrape.step urls scrape).
Local Abbreviation PInv := (progressInvariant urls scrape).

Lemma startPool_progress (C : nat) : PInv (startPool urls C).
Proof.
  rewrite startPool_eq. unfold progressInvariant. cbn.
  split; [done|]. split.
  - rewrite (sum_scraping _ (λ _, 0)), sum_const by done. lia.
  - split; [constructor|]. apply Forall_fmap, Forall_forall.
    intros i Hi%elem_of_seq j [= <-]. lia.
Qed.

Lemma reports_mono (c c' : nat) (l : StatusLine) :
  c ≤ c' → reports urls scrape c l → reports urls scrape c' l.
Proof.
  intros Hc (n & i & Hn & Hi & H). exists n, i. split; [lia | done].
Qed.

Lemma enterLoop_progress (p p' : Pool) (wk : Worker) :
  enterLoop urls p = (p', wk) →
  progress p' = progress p ∧ errorCount p' = errorCount p
  ∧ completedCount p' = completedCount p ∧ workers p' = workers p
  ∧ savedOwed scrape wk = 0
  ∧ ∀ i, position wk = Some i → i < K.
Proof.
  unfold enterLoop. destruct (urlIndex p <? K)%nat eqn:E.
  - intros [= <- <-]. cbn. repeat split; try done.
    intros i [= <-]. by apply Nat.ltb_lt.
  - intros [= <- <-]. by repeat split.
Qed.

Lemma resume_progress (w : nat) (p p' : Pool) :
  resume urls scrape w p = Some p' → PInv p → PInv p'.
Proof.
  unfold resume. intros Hres (Herr & Hsum & Hrep & Hpos).
  destruct (workers p !! w) as [[i|i|]|] eqn:Ew; try done.
  - injection Hres as <-.
    assert (i < K) as Hi.
    { by apply (Forall_lookup_1 _ _ _ _ Hpos Ew). }
    pose proof (sum_list_insert (savedOwed scrape) _ _ _ (Saving i) Ew) as Hins.
    unfold progressInvariant. cbn in *.
    destruct (scrape_success (scrape i)) eqn:Eok.
    + split; [done|]. split; [lia|]. split.
      * eapply Forall_impl; [exact Hrep|]. intros l. apply reports_mono. lia.
      * apply Forall_insert; [done|]. by intros j [= <-].
    + rewrite !List.filter_app, !length_app. cbn.
      split; [lia|]. split; [lia|]. split.
      * apply Forall_app. split.
        -- eapply Forall_impl; [exact Hrep|]. intros l.
           apply reports_mono. lia.
        -- apply Forall_singleton. exists (S (completedCount p)), i.
           split; [lia|]. split; [done|]. by left.
      * apply Forall_insert; [done|]. by intros j [= <-].
  - assert (i < K) as Hi.
    { by apply (Forall_lookup_1 _ _ _ _ Hpos Ew). }
    destruct (enterLoop urls _) as [q wk] eqn:Eloop.
    injection Hres as <-.
    apply enterLoop_progress in Eloop
      as (Eprog & Eerr & Ecomp & Ews & Hwk & Hwkpos).
    pose proof (sum_list_insert (savedOwed scrape) _ _ _ wk Ew) as Hins.
    unfold progressInvariant, setWorkers. cbn [progress errorCount
      completedCount workers]. rewrite Eprog, Eerr, Ecomp, Ews.
    cbn [savedOwed] in Hins.
    destruct (scrape_success (scrape i)) eqn:Eok;
      cbn [progress errorCount completedCount workers].
    + rewrite !List.filter_app, !length_app. cbn.
      split; [lia|]. split; [lia|]. split.
      * apply Forall_app. split; [done|].
        apply Forall_singleton. exists (completedCount p), i.
        split; [lia|]. split; [done|]. by right.
      * by apply Forall_insert.
    + split; [done|]. split; [lia|]. split; [done|].
      by apply Forall_insert.
Qed.

Lemma rtc_progress (p p' : Pool) : PInv p → rtc step p p' → PInv p'.
Proof.
  intros Hp Hrtc. induction Hrtc as [|p q r Hstep _ IH]; [done|].
  apply IH. destruct Hstep as [w q q' Hres]. by eapply resume_progress.
Qed.

Lemma progress_length (c : nat) (lines : list StatusLine) :
  Forall (reports urls scrape c) lines →
  length lines
  = length (List.filter isErrorLine lines)
    + length (List.filter isSavedLine lines).
Proof.
  induction 1 as [|l lines (n & i & _ & _ & [[_ ->] | [_ ->]]) _ IH];
    cbn; lia.
Qed.


End ProgressLines.

(** ** Where results are saved *)

Section SavedPaths.
Import ScrapeFiles.

Lemma dropTrailingSlash_snoc (s : jsstring) :
  dropTrailingSlash (s ++ str "/") = s.
Proof.
  unfold dropTrailingSlash. rewrite rev_app_distr. cbn.
  apply rev_involutive.
Qed.

Lemma sanitize_no_slash (url : jsstring) : "/"%char ∉ sanitize url.
Proof.
  unfold sanitize. intros (c & Hc & _)%list_elem_of_fmap.
  destruct (isSafeChar c) eqn:E; [|done]. subst c. by vm_compute in E.
Qed.

Lemma dashSlashes_no_slash (s : jsstring) : "/"%char ∉ dashSlashes s.
Proof.
  unfold dashSlashes. intros (c & Hc & _)%list_elem_of_fmap.
  by destruct (decide (c = "/"%char)).
Qed.

Lemma stripWww_no_slash (h : jsstring) :
  "/"%char ∉ h → "/"%char ∉ stripWww h.
Proof.
  unfold stripWww. destruct (JsString.startsWith _ _); [|done].
  intros Hn Hin. apply Hn.
  eapply elem_of_sublist; [exact Hin | apply sublist_drop].
Qed.

(** The file name [handleMultiScrapeCommand] saves a URL under ends with
    [.md] and holds no slash, so that the file lies in [.firecrawl/] itself
    (a host name holds no slash). *)
Theorem urlToFilename_is_flat (parsed : option (jsstring * jsstring))
    (url : jsstring) :
  (∀ hostname pathname,
     parsed = Some (hostname, pathname) → "/"%char ∉ hostname) →
  "/"%char ∉ urlToFilename parsed url
  ∧ ∃ stem, urlToFilename parsed url = stem ++ str ".md".
Proof.
  intros Hhost. unfold urlToFilename.
  assert ("/"%char ∉ str ".md") as Hmd
    by (apply (bool_decide_unpack _); vm_compute; exact I).
  assert ("/"%char ∉ str "-") as Hdash
    by (apply (bool_decide_unpack _); vm_compute; exact I).
  destruct parsed as [[hostname pathname]|].
  - pose proof (stripWww_no_slash _ (Hhost _ _ eq_refl)) as Hh.
    pose proof (dashSlashes_no_slash (stripSlashes pathname)) as Hp.
    case_bool_decide.
    + split; [|by eexists]. rewrite elem_of_app. tauto.
    + split.
      * rewrite !elem_of_app. tauto.
      * exists (stripWww hostname ++ str "-"
                ++ dashSlashes (stripSlashes pathname)).
        by rewrite <- !app_assoc.
  - pose proof (sanitize_no_slash url). split; [|by eexists].
    rewrite elem_of_app. tauto.
Qed.

(** The directory [processUrl] creates for a URL is the directory of the
    nested path of that URL: the nested path is that directory, a slash,
    and the file name. *)
Theorem urlToNestedPath_under_dirPath (parsed : option (jsstring * jsstring))
    (url filename : jsstring) :
  urlToNestedPath parsed url filename
  = dirPath parsed url ++ str "/" ++ filename.
Proof.
  unfold dirPath, urlToNestedPath.
  destruct parsed as [[hostname pathname]|].
  - case_bool_decide.
    + by rewrite app_nil_r, dropTrailingSlash_snoc.
    + rewrite app_nil_r, !app_assoc, dropTrailingSlash_snoc.
      by rewrite <- !app_assoc.
  - by rewrite app_nil_r, dropTrailingSlash_snoc.
Qed.

Lemma fileFor_name (data : ScrapeData)
    (fetchPng : jsstring → option jsstring) (fmt name : jsstring)
    (body : FileBody) :
  fileFor data fetchPng fmt = Some (name, body) →
  name ∈ [str "screenshot.png"; str "index.md"; str "index.html";
          str "links.txt"; str "images.txt"; str "summary.md";
          str "index.json"].
Proof.
  unfold fileFor. intros H.
  repeat case_decide; repeat case_match; try done;
    injection H as <- _; set_solver.
Qed.

Lemma fileFor_functional (data : ScrapeData)
    (fetchPng : jsstring → option jsstring) (fmt1 fmt2 name : jsstring)
    (b1 b2 : FileBody) :
  fileFor data fetchPng fmt1 = Some (name, b1) →
  fileFor data fetchPng fmt2 = Some (name, b2) →
  b1 = b2.
Proof.
  unfold fileFor. intros H1 H2.
  repeat case_decide; repeat case_match; try done;
    pose proof (f_equal (λ o, from_option fst [] o) H1) as Hn1;
    pose proof (f_equal (λ o, from_option fst [] o) H2) as Hn2;
    pose proof (f_equal (λ o, from_option (Some ∘ snd) None o) H1) as Hb1;
    pose proof (f_equal (λ o, from_option (Some ∘ snd) None o) H2) as Hb2;
    cbn in Hn1, Hn2, Hb1, Hb2; clear H1 H2; subst name;
    try (by vm_compute in Hn2); congruence.
Qed.

Lemma omap_length_le {A B : Type} (f : A → option B) (l : list A) :
  length (omap f l) ≤ length l.
Proof.
  induction l as [|x l IH]; csimpl; [done|].
  destruct (f x); simpl; lia.
Qed.

(** The files [processUrl] saves for a URL: no more than the formats to
    save, named among seven fixed names, and a name always goes with one
    content, whichever of the formats wrote it (so that writing a file a
    second time changes nothing).  The formats to save hold every format
    named by the options, and [screenshot] whenever one of the two
    screenshot flags is set. *)
Theorem savedFiles_one_content_per_name (options : Scrape.ScrapeOptions)
    (data : ScrapeData) (fetchPng : jsstring → option jsstring) :
  length (savedFiles options data fetchPng) ≤ length (formatsToSave options)
  ∧ (∀ name body,
       (name, body) ∈ savedFiles options data fetchPng →
       name ∈ [str "screenshot.png"; str "index.md"; str "index.html";
               str "links.txt"; str "images.txt"; str "summary.md";
               str "index.json"])
  ∧ (∀ name b1 b2,
       (name, b1) ∈ savedFiles options data fetchPng →
       (name, b2) ∈ savedFiles options data fetchPng →
       b1 = b2)
  ∧ (∀ l f, Scrape.formats options = Some l → f ∈ l →
            f ∈ formatsToSave options)
  ∧ (Scrape.istrue (Scrape.screenshot options)
     || Scrape.istrue (Scrape.fullPageScreenshot options) = true →
     str "screenshot" ∈ formatsToSave options).
Proof.
  unfold savedFiles. split; [apply omap_length_le|].
  split; [|split; [|split]].
  - intros name body (fmt & _ & Hf)%list_elem_of_omap.
    by eapply fileFor_name.
  - intros name b1 b2 (f1 & _ & H1)%list_elem_of_omap
      (f2 & _ & H2)%list_elem_of_omap.
    by eapply fileFor_functional.
  - intros l f Hl Hf. unfold formatsToSave. rewrite Hl. cbn [default].
    destruct (_ && _); [|done]. apply elem_of_app. by left.
  - intros Hs. unfold formatsToSave. rewrite Hs. cbn [andb].
    case_bool_decide as Hin; cbn [negb]; [done|].
    apply elem_of_app. right. by left.
Qed.

End SavedPaths.

(** ** Pulling the API key into an env file *)

Section EnvFile.
Import JsString EnvPull.

Lemma split_app (sep : ascii) (a b : jsstring) :
  split sep (a ++ sep :: b) = split sep a ++ split sep b.
Proof.
  induction a as [|c a IH]; simpl.
  - by rewrite decide_True.
  - destruct (decide (c = sep)); [by rewrite IH|].
    rewrite IH. pose proof (split_not_nil sep a).
    by destruct (split sep a).
Qed.

Lemma split_elem_no_sep (sep : ascii) (s w : jsstring) :
  w ∈ split sep s → sep ∉ w.
Proof.
  revert w. induction s as [|c s IH]; simpl; intros w.
  - intros ->%list_elem_of_singleton. by intros ?%elem_of_nil.
  - destruct (decide (c = sep)) as [->|Hne].
    + intros [->|Hw]%elem_of_cons; [by intros ?%elem_of_nil | by apply IH].
    + pose proof (split_not_nil sep s).
      destruct (split sep s) as [|v vs]; [done|].
      intros [->|Hw]%elem_of_cons.
      * intros [?|Hin]%elem_of_cons; [congruence|].
        revert Hin. apply IH. by left.
      * apply IH. by right.
Qed.

Lemma split_join (sep : ascii) (lines : list jsstring) :
  lines ≠ [] → Forall (λ w, sep ∉ w) lines →
  split sep (join [sep] lines) = lines.
Proof.
  induction lines as [|w ws IH]; [done|]. intros _ Hall.
  apply Forall_cons in Hall as [Hw Hws].
  destruct ws as [|w' ws]; [by apply split_no_sep|].
  rewrite join_cons by done. cbn [app].
  rewrite split_app_sep by done. by rewrite IH.
Qed.

Lemma findIndex_None (f : jsstring → bool) (lines : list jsstring) :
  findIndex f lines = None ↔ Forall (λ l, f l = false) lines.
Proof.
  induction lines as [|l ls IH]; simpl; [done|].
  rewrite Forall_cons, <- IH. destruct (f l); [naive_solver|].
  destruct (findIndex f ls); naive_solver.
Qed.

Lemma findIndex_Some (f : jsstring → bool) (lines : list jsstring) (i : nat) :
  findIndex f lines = Some i
  ↔ (∃ l, lines !! i = Some l ∧ f l = true)
    ∧ Forall (λ l, f l = false) (take i lines).
Proof.
  revert i. induction lines as [|l ls IH]; intros i; simpl.
  - split; [done | by intros [(? & ? & _) _]].
  - destruct (f l) eqn:E.
    + split.
      * intros [= <-]. split; [by exists l | constructor].
      * intros [_ Hall]. destruct i as [|i]; [done|].
        apply Forall_cons in Hall as [? _]. congruence.
    + destruct i as [|i]; simpl.
      * split; [by destruct (findIndex f ls)|].
        intros [(? & [= <-] & ?) _]. congruence.
      * rewrite Forall_cons. specialize (IH i).
        destruct (findIndex f ls) as [j|]; simpl; naive_solver.
Qed.

Lemma endsWithNewline_snoc (contents : jsstring) :
  endsWithNewline contents = true →
  ∃ c, contents = c ++ [ascii_of_nat 10].
Proof.
  unfold endsWithNewline. destruct (rev contents) as [|c r] eqn:E; [done|].
  intros ->%bool_decide_eq_true. exists (rev r).
  by rewrite <- (rev_involutive contents), E.
Qed.

Lemma isKeyLine_envLine (apiKey : jsstring) :
  isKeyLine (envLine apiKey) = true.
Proof.
  unfold isKeyLine, envLine. apply startsWith_prefix.
  exists apiKey. by rewrite <- app_assoc.
Qed.

Lemma envLine_no_newline (apiKey : jsstring) :
  ascii_of_nat 10 ∉ apiKey → ascii_of_nat 10 ∉ envLine apiKey.
Proof.
  intros Hn. unfold envLine. rewrite !elem_of_app.
  assert (ascii_of_nat 10 ∉ envKey)
    by (apply (bool_decide_unpack _); vm_compute; exact I).
  assert (ascii_of_nat 10 ∉ str "=")
    by (apply (bool_decide_unpack _); vm_compute; exact I).
  tauto.
Qed.

Lemma findIndex_app_None (f : jsstring → bool) (a b : list jsstring) :
  findIndex f a = None →
  findIndex f (a ++ b) = (λ i, length a + i) <$> findIndex f b.
Proof.
  induction a as [|l a IH]; simpl.
  - intros _. by destruct (findIndex f b).
  - destruct (f l); [done|]. destruct (findIndex f a) eqn:E; [done|].
    intros _. rewrite IH by done. by destruct (findIndex f b).
Qed.

Lemma first_key_line_appended (apiKey : jsstring) (lines : list jsstring) :
  findIndex isKeyLine lines = None →
  findIndex isKeyLine (lines ++ [envLine apiKey; []]) = Some (length lines)
  ∧ (lines ++ [envLine apiKey; []]) !! length lines = Some (envLine apiKey).
Proof.
  intros Hnone. rewrite findIndex_app_None by done. cbn [findIndex].
  rewrite isKeyLine_envLine. cbn. rewrite Nat.add_0_r. split; [done|].
  by rewrite lookup_app_r, Nat.sub_diag.
Qed.

Lemma envPull_first_key_line (apiKey : jsstring) (overwrite : option bool)
    (file : option jsstring) :
  ascii_of_nat 10 ∉ apiKey →
  snd (handleEnvPullCommand apiKey overwrite file) ≠ AlreadyExists →
  ∃ i, findIndex isKeyLine
         (split (ascii_of_nat 10)
            (fst (handleEnvPullCommand apiKey overwrite file))) = Some i
       ∧ split (ascii_of_nat 10)
           (fst (handleEnvPullCommand apiKey overwrite file)) !! i
         = Some (envLine apiKey).
Proof.
  intros Hkey%envLine_no_newline. unfold handleEnvPullCommand.
  destruct file as [contents|]; cbn [fst snd].
  - destruct (findIndex isKeyLine (split (ascii_of_nat 10) contents))
      as [i|] eqn:Ei.
    + destruct (negb (Scrape.istrue overwrite)); cbn [fst snd]; [done|].
      intros _. exists i.
      apply findIndex_Some in Ei as [(l & Hl & Hkl) Hbefore].
      assert (i < length (split (ascii_of_nat 10) contents)) as Hi
        by (by eapply lookup_lt_Some).
      rewrite split_join.
      * split; [|by apply list_lookup_insert_eq].
        apply findIndex_Some. split.
        -- exists (envLine apiKey).
           split; [by apply list_lookup_insert_eq | apply isKeyLine_envLine].
        -- by rewrite take_insert_ge.
      * intros Hnil. apply (f_equal length) in Hnil.
        rewrite length_insert in Hnil. simpl in Hnil. lia.
      * apply Forall_insert; [|done]. apply Forall_forall.
        intros w. apply split_elem_no_sep.
    + cbn [fst snd]. intros _.
      destruct (endsWithNewline contents) eqn:En.
      * apply endsWithNewline_snoc in En as [c ->].
        rewrite split_app in Ei. simpl in Ei.
        apply findIndex_None, Forall_app in Ei as [Ei%findIndex_None _].
        exists (length (split (ascii_of_nat 10) c)).
        rewrite app_nil_l, <- app_assoc. cbn [app].
        rewrite split_app, split_app_sep by done. simpl (split _ []).
        by apply first_key_line_appended.
      * exists (length (split (ascii_of_nat 10) contents)). cbn [app].
        rewrite split_app, split_app_sep by done. simpl (split _ []).
        by apply first_key_line_appended.
  - intros _. exists 0. rewrite split_app_sep by done. simpl.
    by rewrite isKeyLine_envLine.
Qed.

(** For an API key without a line feed.  The command refuses to touch the
    file exactly when a line starting with [FIRECRAWL_API_KEY=] exists and
    [overwrite] is not set; it reports [Created] exactly when there was no
    file; when it adds the line the old content is kept as a prefix.  In
    every case but the refusal, the first key line of the file afterwards
    is [FIRECRAWL_API_KEY=<apiKey>], so that a second run leaves the file
    as it is (reporting an update with [overwrite], a refusal without). *)
Theorem handleEnvPullCommand_sets_the_key (apiKey : jsstring)
    (overwrite : option bool) (file : option jsstring) :
  ascii_of_nat 10 ∉ apiKey →
  let r := handleEnvPullCommand apiKey overwrite file in
  (snd r = AlreadyExists
   ↔ Scrape.istrue overwrite = false
     ∧ ∃ contents l, file = Some contents
         ∧ l ∈ split (ascii_of_nat 10) contents ∧ isKeyLine l = true)
  ∧ (snd r = AlreadyExists → file = Some (fst r))
  ∧ (snd r = Created ↔ file = None)
  ∧ (snd r = Added →
     ∃ contents, file = Some contents ∧ contents `prefix_of` fst r)
  ∧ (snd r ≠ AlreadyExists →
     (∃ i, findIndex isKeyLine (split (ascii_of_nat 10) (fst r)) = Some i
           ∧ split (ascii_of_nat 10) (fst r) !! i = Some (envLine apiKey))
     ∧ ∀ overwrite',
         handleEnvPullCommand apiKey overwrite' (Some (fst r))
         = (fst r, if Scrape.istrue overwrite' then Updated
                   else AlreadyExists)).
Proof.
  intros Hkey r.
  assert (snd r ≠ AlreadyExists →
          ∃ i, findIndex isKeyLine (split (ascii_of_nat 10) (fst r)) = Some i
               ∧ split (ascii_of_nat 10) (fst r) !! i
                 = Some (envLine apiKey)) as Hfirst.
  { by apply envPull_first_key_line. }
  split; [|split; [|split; [|split]]].
  - clear Hfirst. subst r. unfold handleEnvPullCommand.
    destruct file as [contents|]; cbn [snd].
    + destruct (findIndex isKeyLine (split (ascii_of_nat 10) contents))
        as [i|] eqn:Ei.
      * apply findIndex_Some in Ei as [(l & Hl & Hkl) _].
        apply list_elem_of_lookup_2 in Hl.
        destruct (Scrape.istrue overwrite); cbn [negb snd].
        -- split; [done | by intros [? _]].
        -- split; [|done]. intros _. split; [done|]. by exists contents, l.
      * cbn [snd]. split; [done|].
        intros [_ (c & l & [= <-] & Hl & Hkl)].
        apply findIndex_None in Ei.
        rewrite Forall_forall in Ei. specialize (Ei l Hl). congruence.
    + split; [done|]. by intros [_ (c & l & ? & _)].
  - clear Hfirst. subst r. unfold handleEnvPullCommand.
    destruct file as [contents|]; [|done].
    destruct (findIndex isKeyLine _); [|done].
    by destruct (negb _).
  - clear Hfirst. subst r. unfold handleEnvPullCommand.
    destruct file as [contents|]; [|done].
    destruct (findIndex isKeyLine _); [|done].
    by destruct (negb _).
  - clear Hfirst. subst r. unfold handleEnvPullCommand.
    destruct file as [contents|]; [|done].
    destruct (findIndex isKeyLine _).
    + by destruct (negb _).
    + intros _. exists contents. split; [done|]. by eexists.
  - intros Hr. destruct (Hfirst Hr) as (i & Hi & Hl).
    split; [by exists i|]. intros overwrite'.
    unfold handleEnvPullCommand at 1. rewrite Hi.
    destruct (Scrape.istrue overwrite'); cbn [negb]; [|done].
    by rewrite list_insert_id, join_split.
Qed.

End EnvFile.

(** ** Waiting for an agent job *)

Section AgentWait.
Import Agent.

(** The polling loop of [executeAgent].  It times out only when a non-zero
    [timeout] is set, at a poll that found the job neither completed nor
    failed and more than [timeout] seconds after the start; it reports
    success only for a completed job, with the success flag of the
    response; a failed job is never a success.  Once the loop has returned,
    later observations do not matter, and it keeps polling exactly as long
    as every status call resolves to an unfinished job within the time
    limit. *)
Theorem waitLoop_outcomes (timeout : option Z) (startTime : Z)
    (observations : list (Browser.Settled AgentStatusResponse * Z)) :
  (waitLoop timeout startTime observations = TimedOut →
   ∃ t pre r now post,
     timeout = Some t ∧ t ≠ 0%Z
     ∧ observations = pre ++ (Browser.Resolved r, now) :: post
     ∧ (t * 1000 < now - startTime)%Z
     ∧ status r ≠ str "completed" ∧ status r ≠ str "failed")
  ∧ (∀ s r, waitLoop timeout startTime observations = Settled s r →
       status r = str "completed" ∧ s = success r
       ∨ status r = str "failed" ∧ s = false)
  ∧ (∀ more, waitLoop timeout startTime observations ≠ StillPolling →
       waitLoop timeout startTime (observations ++ more)
       = waitLoop timeout startTime observations)
  ∧ (waitLoop timeout startTime observations = StillPolling
     ↔ Forall (λ o, ∃ r, o.1 = Browser.Resolved r
                 ∧ status r ≠ str "completed" ∧ status r ≠ str "failed"
                 ∧ ∀ t, timeout = Some t → t ≠ 0%Z →
                        (o.2 - startTime ≤ t * 1000)%Z) observations).
Proof.
  induction observations as [|[[r|e] now] rest (IH1 & IH2 & IH3 & IH4)].
  { repeat split; try done. }
  - cbn [waitLoop app].
    destruct (decide (status r = str "completed")) as [Hc|Hc].
    { rewrite !(bool_decide_eq_true_2 _ Hc). split; [done|].
      split; [intros s r' [= <- <-]; by left|]. split; [done|].
      split; [done|]. intros [(r' & [= <-] & ? & _) _]%Forall_cons. done. }
    rewrite !(bool_decide_eq_false_2 _ Hc).
    destruct (decide (status r = str "failed")) as [Hf|Hf].
    { rewrite !(bool_decide_eq_true_2 _ Hf). split; [done|].
      split; [intros s r' [= <- <-]; by right|]. split; [done|].
      split; [done|].
      intros [(r' & [= <-] & _ & ? & _) _]%Forall_cons. done. }
    rewrite !(bool_decide_eq_false_2 _ Hf).
    assert (Hkeep :
      (∀ t, timeout = Some t → t ≠ 0%Z → (now - startTime ≤ t * 1000)%Z) →
      Forall (λ o, ∃ r, o.1 = Browser.Resolved r
                ∧ status r ≠ str "completed" ∧ status r ≠ str "failed"
                ∧ ∀ t, timeout = Some t → t ≠ 0%Z →
                       (o.2 - startTime ≤ t * 1000)%Z)
             ((Browser.Resolved r, now) :: rest)
      ↔ Forall (λ o, ∃ r, o.1 = Browser.Resolved r
                ∧ status r ≠ str "completed" ∧ status r ≠ str "failed"
                ∧ ∀ t, timeout = Some t → t ≠ 0%Z →
                       (o.2 - startTime ≤ t * 1000)%Z) rest).
    { intros Hin. rewrite Forall_cons. split; [by intros [_ ?]|].
      intros Hrest. split; [|done]. by exists r. }
    assert (Hgoon :
      (∀ t, timeout = Some t → t ≠ 0%Z → (now - startTime ≤ t * 1000)%Z) →
      (waitLoop timeout startTime rest = TimedOut →
       ∃ t pre r0 now0 post,
         timeout = Some t ∧ t ≠ 0%Z
         ∧ (Browser.Resolved r, now) :: rest
           = pre ++ (Browser.Resolved r0, now0) :: post
         ∧ (t * 1000 < now0 - startTime)%Z
         ∧ status r0 ≠ str "completed" ∧ status r0 ≠ str "failed")
      ∧ (∀ s r0, waitLoop timeout startTime rest = Settled s r0 →
           status r0 = str "completed" ∧ s = success r0
           ∨ status r0 = str "failed" ∧ s = false)
      ∧ (∀ more, waitLoop timeout startTime rest ≠ StillPolling →
           waitLoop timeout startTime (rest ++ more)
           = waitLoop timeout startTime rest)
      ∧ (waitLoop timeout startTime rest = StillPolling
         ↔ Forall (λ o, ∃ r, o.1 = Browser.Resolved r
                     ∧ status r ≠ str "completed" ∧ status r ≠ str "failed"
                     ∧ ∀ t, timeout = Some t → t ≠ 0%Z →
                            (o.2 - startTime ≤ t * 1000)%Z)
                  ((Browser.Resolved r, now) :: rest))).
    { intros Hin. split; [|split; [done|split; [done|]]].
      - intros (t & pre & r0 & now0 & post & -> & ? & -> & ? & ? & ?)%IH1.
        exists t, ((Browser.Resolved r, now) :: pre), r0, now0, post.
        by repeat split.
      - by rewrite Hkeep. }
    unfold timeoutMs. destruct timeout as [t|]; [|by apply Hgoon].
    destruct (decide (t = 0%Z)) as [->|Ht].
    { rewrite !(bool_decide_eq_true_2 (0 = 0)%Z) by done. apply Hgoon.
      by intros ? [= <-] ?. }
    rewrite !(bool_decide_eq_false_2 (t = 0%Z)) by done.
    rewrite !(bool_decide_eq_true_2 (t * 1000 ≠ 0)%Z) by lia. cbn [andb].
    destruct (t * 1000 <? now - startTime)%Z eqn:Elt.
    + apply Z.ltb_lt in Elt. split.
      * intros _. exists t, [], r, now, rest. by repeat split.
      * split; [done|]. split; [done|]. split; [done|].
        intros [(r' & _ & _ & _ & Hle) _]%Forall_cons.
        specialize (Hle t eq_refl Ht). cbn in Hle. lia.
    + apply Z.ltb_ge in Elt. apply Hgoon. by intros ? [= <-] _.
  - cbn [waitLoop app]. split; [done|]. split; [done|]. split; [done|].
    split; [done|]. intros [(r' & ? & _) _]%Forall_cons. done.
Qed.

End AgentWait.

(** ** A URL as the first argument of the command line *)

Section UrlShortcut.
Import Main.

Lemma classify_fold (args pos other : list jsstring) :
  fold_left
    (λ (st : list jsstring * list jsstring) (arg : jsstring),
       let '(positionalFormats, otherArgs) := st in
       if isFlag arg then (positionalFormats, otherArgs ++ [arg])
       else if bool_decide (length otherArgs = 0)
       then (positionalFormats ++ [arg], otherArgs)
       else (positionalFormats, otherArgs ++ [arg]))
    args (pos, other)
  = if bool_decide (other = [])
    then (pos ++ fst (classify args), snd (classify args))
    else (pos, other ++ args).
Proof.
  unfold classify. revert pos other.
  induction args as [|a args IH]; intros pos other.
  { cbn. case_bool_decide as H; [subst other|]; by rewrite app_nil_r. }
  cbn [fold_left]. cbv beta iota. cbn [length].
  rewrite (bool_decide_eq_true_2 (0 = 0)) by done.
  destruct (isFlag a).
  - rewrite (IH pos (other ++ [a])), (IH [] ([] ++ [a])).
    rewrite (bool_decide_eq_false_2 ([] ++ [a] = [])) by done.
    rewrite (bool_decide_eq_false_2 (other ++ [a] = []))
      by (by destruct other).
    cbn [fst snd app].
    case_bool_decide as Ho.
    + subst other. by rewrite app_nil_r.
    + by rewrite <- app_assoc.
  - destruct other as [|o other]; cbn [length].
    + rewrite (bool_decide_eq_true_2 (0 = 0)) by done.
      rewrite (IH (pos ++ [a]) []), (IH ([] ++ [a]) []).
      rewrite !(bool_decide_eq_true_2 ([] = [])) by done.
      cbn [fst snd app]. by rewrite <- app_assoc.
    + rewrite (bool_decide_eq_false_2 (S _ = 0)) by done.
      rewrite (IH pos ((o :: other) ++ [a])).
      rewrite (bool_decide_eq_false_2 (_ ++ [a] = [])) by done.
      rewrite (bool_decide_eq_false_2 (o :: other = [])) by done.
      by rewrite <- app_assoc.
Qed.

Lemma classify_spec (args : list jsstring) :
  fst (classify args) ++ snd (classify args) = args
  ∧ Forall (λ a, isFlag a = false) (fst (classify args))
  ∧ (snd (classify args) = []
     ∨ ∃ f o, snd (classify args) = f :: o ∧ isFlag f = true).
Proof.
  induction args as [|a args (IH1 & IH2 & IH3)].
  { by repeat split; [constructor | left]. }
  unfold classify. cbn [fold_left length].
  rewrite (bool_decide_eq_true_2 (0 = 0)) by done.
  destruct (isFlag a) eqn:Ea; rewrite classify_fold.
  - rewrite (bool_decide_eq_false_2 ([] ++ [a] = [])) by done.
    cbn [fst snd app]. split; [done|]. split; [constructor|].
    right. by exists a, args.
  - rewrite (bool_decide_eq_true_2 ([] = [])) by done.
    cbn [fst snd app]. split; [by rewrite IH1|].
    split; [by constructor | done].
Qed.


End UrlShortcut.

(** ** Logging in *)

Section Login.
Import Auth.

Lemma or_else_default_nonempty (u : option jsstring) :
  default [] (or_else u (Some DEFAULT_API_URL)) ≠ []
  ∧ (default [] (or_else u (Some DEFAULT_API_URL)) = DEFAULT_API_URL
     ∨ u = Some (default [] (or_else u (Some DEFAULT_API_URL)))).
Proof.
  unfold or_else. destruct u as [[|c u]|]; cbn; split; try done; by auto.
Qed.

Lemma pollAuthStatus_Some (response : PollResponse) (k u : jsstring) :
  pollAuthStatus response = Some (k, u) →
  k ≠ [] ∧ u ≠ []
  ∧ ∃ apiUrl, response = Body (str "complete") (Some k) apiUrl
              ∧ (u = DEFAULT_API_URL ∨ apiUrl = Some u).
Proof.
  destruct response as [| |status apiKey apiUrl]; cbn; try done.
  case_bool_decide as Hs; [|done]. destruct apiKey as [[|c key]|]; try done.
  cbn. intros [= <- <-].
  destruct (or_else_default_nonempty apiUrl) as [Hne Hor].
  split; [done|]. split; [done|]. exists apiUrl. by rewrite Hs.
Qed.

(** Waiting for the browser login ends with credentials only from a status
    request that answered [complete] with a non-empty key, sent within the
    time limit and after requests that all came to nothing; the key and the
    API URL it yields are never empty (the default URL stands in).  It
    times out only at a turn that starts after the time limit.  Once it
    has ended, later turns do not matter.  Credentials taken from the
    environment are never empty either. *)
Theorem waitForAuth_outcomes (timeoutMs startTime : Z)
    (turns : list (Z * PollResponse)) :
  (∀ k u, waitForAuth timeoutMs startTime turns = Authenticated k u →
     k ≠ [] ∧ u ≠ []
     ∧ ∃ pre now apiUrl post,
         turns = pre ++ (now, Body (str "complete") (Some k) apiUrl) :: post
         ∧ (u = DEFAULT_API_URL ∨ apiUrl = Some u)
         ∧ (now - startTime ≤ timeoutMs)%Z
         ∧ Forall (λ t, (t.1 - startTime ≤ timeoutMs)%Z
                        ∧ pollAuthStatus t.2 = None) pre)
  ∧ (waitForAuth timeoutMs startTime turns = AuthTimedOut →
     ∃ pre now response post,
       turns = pre ++ (now, response) :: post
       ∧ (timeoutMs < now - startTime)%Z
       ∧ Forall (λ t, (t.1 - startTime ≤ timeoutMs)%Z
                      ∧ pollAuthStatus t.2 = None) pre)
  ∧ (∀ more, waitForAuth timeoutMs startTime turns ≠ StillWaiting →
       waitForAuth timeoutMs startTime (turns ++ more)
       = waitForAuth timeoutMs startTime turns)
  ∧ (∀ envKey envUrl k u, envVarLogin envKey envUrl = Some (k, u) →
       envKey = Some k ∧ k ≠ [] ∧ u ≠ []).
Proof.
  split; [|split; [|split]].
  - induction turns as [|[now response] rest IH]; [done|].
    intros k u. cbn [waitForAuth].
    destruct (timeoutMs <? now - startTime)%Z eqn:Elt; [done|].
    apply Z.ltb_ge in Elt.
    destruct (pollAuthStatus response) as [[k' u']|] eqn:Ep.
    + intros [= <- <-].
      apply pollAuthStatus_Some in Ep as (Hk & Hu & apiUrl & -> & Hor).
      split; [done|]. split; [done|].
      exists [], now, apiUrl, rest. by repeat split.
    + intros (Hk & Hu & pre & now' & apiUrl & post & -> & Hor & Hle & Hpre)%IH.
      split; [done|]. split; [done|].
      exists ((now, response) :: pre), now', apiUrl, post.
      repeat split; try done. by constructor.
  - induction turns as [|[now response] rest IH]; [done|].
    cbn [waitForAuth].
    destruct (timeoutMs <? now - startTime)%Z eqn:Elt.
    + apply Z.ltb_lt in Elt. intros _.
      exists [], now, response, rest. by repeat split.
    + apply Z.ltb_ge in Elt.
      destruct (pollAuthStatus response) as [[k' u']|] eqn:Ep; [done|].
      intros (pre & now' & response' & post & -> & Hlt & Hpre)%IH.
      exists ((now, response) :: pre), now', response', post.
      repeat split; try done. by constructor.
  - intros more. induction turns as [|[now response] rest IH]; [done|].
    cbn [waitForAuth app].
    destruct (timeoutMs <? now - startTime)%Z; [done|].
    by destruct (pollAuthStatus response) as [[k' u']|].
  - intros envKey envUrl k u. unfold envVarLogin.
    destruct envKey as [[|c key]|]; try done. intros [= <- <-].
    by destruct (or_else_default_nonempty envUrl).
Qed.

End Login.

(** ** Where the session is stored *)

Section SessionPath.
Import BrowserSession.
Context {rt : Runtime}.


End SessionPath.

(** ** Worked examples *)



Lemma urlToFilename_is_flat_witness :
  "/"%char ∉ ScrapeFiles.urlToFilename
               (Some (str "www.docs.x.com", str "/a/b/"))
               (str "https://www.docs.x.com/a/b/")
  ∧ ∃ stem,
      ScrapeFiles.urlToFilename
        (Some (str "www.docs.x.com", str "/a/b/"))
        (str "https://www.docs.x.com/a/b/")
      = stem ++ str ".md".
Proof.
  apply urlToFilename_is_flat. intros hostname pathname [= <- <-].
  apply (bool_decide_unpack _). vm_compute. exact I.
Defined.

Lemma handleEnvPullCommand_sets_the_key_witness :
  EnvPull.handleEnvPullCommand (str "fc-123") None
    (Some (fst (EnvPull.handleEnvPullCommand (str "fc-123") (Some true)
                  (Some Demo.envFile))))
  = (fst (EnvPull.handleEnvPullCommand (str "fc-123") (Some true)
            (Some Demo.envFile)),
     EnvPull.AlreadyExists).
Proof.
  destruct (handleEnvPullCommand_sets_the_key (str "fc-123") (Some true)
              (Some Demo.envFile)) as (_ & _ & _ & _ & H).
  - apply (bool_decide_unpack _). vm_compute. exact I.
  - apply (proj2 (H ltac:(vm_compute; discriminate)) None).
Defined.

(** ** Scraping several URLs at once *)

Section MultiScrapeFacts.
Import MultiScrape.
Context {rt : Runtime}.
Variable parse : jsstring → option (jsstring * jsstring).
Variable urls : list jsstring.
Variable scrape : nat → Scraped.

Local Abbreviation failures :=
  (λ l : list nat, length (filter (λ i, success (scrape i) = false) l)).

Lemma settle_fold (order : list nat) (st : State) :
  let st' := fold_left (settle parse urls scrape) order st in
  completedCount st' = completedCount st + length order
  ∧ errorCount st' = errorCount st + failures order
  ∧ length (written st') + errorCount st'
    = length (written st) + errorCount st + length order
  ∧ (length (progress st) = completedCount st →
     (∀ k l, progress st !! k = Some l → counterOf l = S k) →
     length (progress st') = completedCount st'
     ∧ ∀ k l, progress st' !! k = Some l → counterOf l = S k).
Proof.
  revert st. induction order as [|i order IH]; intros st.
  { cbn. repeat split; try lia; tauto. }
  cbn [fold_left]. specialize (IH (settle parse urls scrape st i)).
  destruct IH as (IH1 & IH2 & IH3 & IH4).
  rewrite filter_cons. cbn [length].
  assert (Hstep :
    completedCount (settle parse urls scrape st i) = S (completedCount st)
    ∧ errorCount (settle parse urls scrape st i)
      = errorCount st + (if success (scrape i) then 0 else 1)
    ∧ length (written (settle parse urls scrape st i))
      = length (written st) + (if success (scrape i) then 1 else 0)
    ∧ ∃ l, progress (settle parse urls scrape st i) = progress st ++ [l]
           ∧ counterOf l = S (completedCount st)).
  { unfold settle. destruct (success (scrape i)); cbn.
    - rewrite length_app. cbn. repeat split; try lia. by eexists.
    - repeat split; try lia. by eexists. }
  destruct Hstep as (S1 & S2 & S3 & l & S4 & S5).
  split; [lia|]. split.
  { rewrite IH2, S2. destruct (success (scrape i)).
    - rewrite decide_False by done. lia.
    - rewrite decide_True by done. cbn. lia. }
  split.
  { rewrite IH3, S2, S3. destruct (success (scrape i)); lia. }
  intros Hlen Hnum. apply IH4.
  - rewrite S4, length_app, S1. cbn. lia.
  - intros k l'. rewrite S4. intros Hk.
    apply lookup_app_Some in Hk as [Hk | [Hle Hk]]; [by apply Hnum|].
    apply list_lookup_singleton_Some in Hk as [Hk <-].
    rewrite S5. lia.
Qed.

Lemma filter_all_length {A : Type} (P : A → Prop)
    `{∀ x, Decision (P x)} (l : list A) :
  length (filter P l) = length l ↔ Forall P l.
Proof.
  split.
  - intros Hlen. apply Forall_forall. intros x Hx.
    destruct (decide (P x)) as [|Hn]; [done|].
    pose proof (length_filter_lt P l x Hx Hn). lia.
  - induction 1 as [|x l Hx _ IH]; [done|].
    rewrite filter_cons, decide_True by done. cbn. by rewrite IH.
Qed.

Lemma filter_none_length {A : Type} (P : A → Prop)
    `{∀ x, Decision (P x)} (l : list A) :
  length (filter P l) = 0 ↔ Forall (λ x, ¬ P x) l.
Proof.
  induction l as [|x l IH]; [done|].
  rewrite filter_cons, Forall_cons, <- IH.
  destruct (decide (P x)); cbn; [|tauto].
  split; [lia | tauto].
Qed.


End MultiScrapeFacts.

